(** * redisTOON: the TOON value model, decoder, encoder, JSON bridge,
      path engine and merge, embedded from the C sources

    Conventions of the embedding.
    - A C string is a [string]; its terminating NUL is the end of the
      [string]. A pointer that walks a C string is the remaining suffix.
    - [size_t] is an unsigned 64-bit integer and [int] a signed 32-bit
      integer, both written as [Z] with their wrap-around spelled out
      ([to_size_t], [to_int]); [long] is 64 bits (LP64).
    - The target is an LP64 one on which plain [char] is unsigned, such as
      AArch64 Linux ([plain_char_signed]). The signedness of [char] matters
      in one place, the comparison [*p < 32] of [needs_quoting], which takes
      it as a parameter.
    - [double] is IEEE-754 binary64, modelled by [spec_float] with
      precision 53 and maximal exponent 1024.
    - Memory allocation always succeeds. A [ToonValue] has no null child:
      the trees handed out by the decoder, the JSON parser, copy, merge and
      the path engine never contain one. *)

From Stdlib Require Import ZArith String Ascii Bool Lia.
From Stdlib Require Import Floats.SpecFloat DecimalString DecimalPos DecimalN.
From stdpp Require Import base option list strings gmap.

(** [String.append] computes on its first argument. *)
#[local] Arguments String.append : simpl nomatch.

Local Open Scope string_scope.
Local Open Scope Z_scope.

(** ** The parts of the C library the sources call *)

Module Libc.

Definition NUL : ascii := "000"%char.

Definition code (c : ascii) : Z := Z.of_N (N_of_ascii c).

(** The value of a plain [char] in a comparison: the byte itself where
    [char] is unsigned, and the byte as a number in -128..127 where it is
    signed. *)
Definition char_value (signed_char : bool) (c : ascii) : Z :=
  if signed_char && (128 <=? code c) then code c - 256 else code c.

(** The choice of the target. *)
Definition plain_char_signed : bool := false.

Definition isdigit (c : ascii) : bool := (48 <=? code c) && (code c <=? 57).

(** [isspace] in the C locale: space, and \t \n \v \f \r. *)
Definition isspace (c : ascii) : bool :=
  (code c =? 32) || ((9 <=? code c) && (code c <=? 13)).

Definition isxdigit (c : ascii) : bool :=
  isdigit c || ((65 <=? code c) && (code c <=? 70))
            || ((97 <=? code c) && (code c <=? 102)).

Definition isalnum_ (c : ascii) : bool :=
  isdigit c || ((65 <=? code c) && (code c <=? 90))
            || ((97 <=? code c) && (code c <=? 122)) || (code c =? 95).

Definition tolower (c : ascii) : ascii :=
  if (65 <=? code c) && (code c <=? 90)
  then ascii_of_N (N_of_ascii c + 32) else c.

Definition digit_val (c : ascii) : Z := code c - 48.

Definition xdigit_val (c : ascii) : Z :=
  if isdigit c then code c - 48
  else if code c <=? 70 then code c - 55 else code c - 87.

(** [strchr(s, c) != NULL], for a [c] that is not NUL. *)
Fixpoint strchr (s : string) (c : ascii) : bool :=
  match s with
  | EmptyString => false
  | String d s' => (d =? c)%char || strchr s' c
  end.

(** [strcmp(a, b) == 0] *)
Definition streq (a b : string) : bool := (a =? b)%string.

(** *** Machine integers *)

Definition to_size_t (z : Z) : Z := z mod 2 ^ 64.
Definition to_int (z : Z) : Z := (z + 2 ^ 31) mod 2 ^ 32 - 2 ^ 31.
Definition to_long (z : Z) : Z := (z + 2 ^ 63) mod 2 ^ 64 - 2 ^ 63.
Definition LONG_MIN : Z := - 2 ^ 63.
Definition LONG_MAX : Z := 2 ^ 63 - 1.

(** *** Scanning helpers *)

Fixpoint skip_space (s : string) : string :=
  match s with
  | String c s' => if isspace c then skip_space s' else s
  | EmptyString => s
  end.

(** The longest prefix of characters satisfying [f], and what follows. *)
Fixpoint span (f : ascii -> bool) (s : string) : string * string :=
  match s with
  | String c s' =>
      if f c then let '(a, b) := span f s' in (String c a, b)
      else (EmptyString, s)
  | EmptyString => (EmptyString, EmptyString)
  end.

Fixpoint digits_value (base : Z) (val : ascii -> Z) (s : string) (acc : Z) : Z :=
  match s with
  | String c s' => digits_value base val s' (acc * base + val c)
  | EmptyString => acc
  end.

(** *** atoi

    glibc: [atoi(s)] is [(int) strtol(s, NULL, 10)]; [strtol] skips white
    space, reads an optional sign and the decimal digits, and saturates at
    the bounds of [long]. *)
Definition strtol10 (s : string) : Z :=
  let s := skip_space s in
  let '(neg, s) :=
    match s with
    | String "-" s' => (true, s')
    | String "+" s' => (false, s')
    | _ => (false, s)
    end in
  let v := digits_value 10 digit_val (fst (span isdigit s)) 0 in
  let v := if neg then - v else v in
  Z.max LONG_MIN (Z.min LONG_MAX v).

Definition atoi (s : string) : Z := to_int (strtol10 s).

(** *** double *)

Definition double : Type := spec_float.
Definition prec : Z := 53.
Definition emax : Z := 1024.

Definition double_of_Z (z : Z) : double := binary_normalize prec emax z 0 false.

(** The correctly rounded value of [(-1)^neg * m * 10^e10]. *)
Definition double_of_decimal (neg : bool) (m e10 : Z) : double :=
  match m with
  | Zpos p =>
      if 0 <=? e10 then binary_normalize prec emax
                          (if neg then - (m * 10 ^ e10) else m * 10 ^ e10) 0 false
      else SFdiv prec emax (S754_finite neg p 0)
                           (S754_finite false (Z.to_pos (10 ^ (- e10))) 0)
  | _ => S754_zero neg
  end.

(** The correctly rounded value of [(-1)^neg * m * 2^e2]. *)
Definition double_of_binary (neg : bool) (m e2 : Z) : double :=
  match m with
  | Zpos p => binary_round prec emax neg p e2
  | _ => S754_zero neg
  end.

(** [(long) d]: truncation toward zero. For a value outside the range of
    [long], an infinity or a NaN the conversion is undefined in C: [None]. *)
Definition double_to_long (d : double) : option Z :=
  match d with
  | S754_zero _ => Some 0
  | S754_finite s m e =>
      let a := if 0 <=? e then Zpos m * 2 ^ e else Zpos m / 2 ^ (- e) in
      let v := if s then - a else a in
      if (LONG_MIN <=? v) && (v <=? LONG_MAX) then Some v else None
  | _ => None
  end.

(** [d1 == d2] on doubles *)
Definition double_eq (d1 d2 : double) : bool := SFeqb d1 d2.

(** *** strtod

    Returns the value and the unread rest (the end pointer). With no
    conversion the value is zero and the rest is the whole input. *)

Definition optional_sign (s : string) : bool * string :=
  match s with
  | String "-" s' => (true, s')
  | String "+" s' => (false, s')
  | _ => (false, s)
  end.

Fixpoint strip_prefix_ci (pre s : string) : option string :=
  match pre, s with
  | EmptyString, _ => Some s
  | String a pre', String b s' =>
      if (a =? tolower b)%char then strip_prefix_ci pre' s' else None
  | _, _ => None
  end.

(** The optional exponent part: a marker, an optional sign and at least one
    digit; otherwise nothing is read. *)
Definition exponent_part (marker : ascii) (s : string) : Z * string :=
  match s with
  | String c s' =>
      if (tolower c =? marker)%char then
        let '(neg, s1) := optional_sign s' in
        let '(ds, rest) := span isdigit s1 in
        match ds with
        | EmptyString => (0, s)
        | _ => let v := digits_value 10 digit_val ds 0 in
               (if neg then - v else v, rest)
        end
      else (0, s)
  | EmptyString => (0, s)
  end.

(** Digits, optionally with one point among them: the integer and the
    fraction digits and the rest, or nothing when there is no digit. *)
Definition mantissa_part (isd : ascii -> bool) (s : string)
  : option (string * string * string) :=
  let '(ip, s1) := span isd s in
  let '(fp, s2) :=
    match s1 with
    | String "." s' => span isd s'
    | _ => (EmptyString, s1)
    end in
  match ip, fp with
  | EmptyString, EmptyString => None
  | _, _ =>
      Some (ip, fp, match s1 with
                    | String "." _ => s2
                    | _ => s1
                    end)
  end.

Definition strtod_hex (neg : bool) (s : string) : option (double * string) :=
  match s with
  | String "0" (String x s') =>
      if (tolower x =? "x")%char then
        match mantissa_part isxdigit s' with
        | Some (ip, fp, rest) =>
            let m := digits_value 16 xdigit_val (ip ++ fp) 0 in
            let '(e, rest') := exponent_part "p" rest in
            Some (double_of_binary neg m (e - 4 * Z.of_nat (String.length fp)), rest')
        | None => None
        end
      else None
  | _ => None
  end.

Definition strtod_dec (neg : bool) (s : string) : option (double * string) :=
  match mantissa_part isdigit s with
  | Some (ip, fp, rest) =>
      let m := digits_value 10 digit_val (ip ++ fp) 0 in
      let '(e, rest') := exponent_part "e" rest in
      Some (double_of_decimal neg m (e - Z.of_nat (String.length fp)), rest')
  | None => None
  end.

Definition strtod_special (neg : bool) (s : string) : option (double * string) :=
  match strip_prefix_ci "infinity" s with
  | Some rest => Some (S754_infinity neg, rest)
  | None =>
      match strip_prefix_ci "inf" s with
      | Some rest => Some (S754_infinity neg, rest)
      | None =>
          match strip_prefix_ci "nan" s with
          | Some rest =>
              match rest with
              | String "(" r =>
                  match snd (span isalnum_ r) with
                  | String ")" r' => Some (S754_nan, r')
                  | _ => Some (S754_nan, rest)
                  end
              | _ => Some (S754_nan, rest)
              end
          | None => None
          end
      end
  end.

Definition strtod (s : string) : double * string :=
  let '(neg, s1) := optional_sign (skip_space s) in
  match strtod_special neg s1 with
  | Some r => r
  | None =>
      match strtod_hex neg s1 with
      | Some r => r
      | None =>
          match strtod_dec neg s1 with
          | Some r => r
          | None => (S754_zero false, s)
          end
      end
  end.

(** *** printf conversions *)

(** [%ld], [%d] *)
Definition fmt_ld (z : Z) : string := NilZero.string_of_int (Z.to_int z).

(** [%zu] *)
Definition fmt_zu (z : Z) : string := NilZero.string_of_uint (N.to_uint (Z.to_N z)).

Fixpoint strip_zeros_rev (s : list ascii) : list ascii :=
  match s with
  | "0"%char :: s' => strip_zeros_rev s'
  | _ => s
  end.

Definition strip_trailing_zeros (s : string) : string :=
  string_of_list_ascii (rev (strip_zeros_rev (rev (list_ascii_of_string s)))).

Fixpoint zeros (n : nat) : string :=
  match n with O => EmptyString | S n' => String "0" (zeros n') end.

(** The decimal digits of [z >= 0], padded on the left to [width]. *)
Definition pad_digits (width : nat) (z : Z) : string :=
  let d := fmt_zu z in
  zeros (width - String.length d) ++ d.

(** Nearest integer to [a / b], ties to even ([0 <= a], [0 < b]). *)
Definition div_round_even (a b : Z) : Z :=
  let q := a / b in
  let r := a mod b in
  match 2 * r ?= b with
  | Lt => q
  | Gt => q + 1
  | Eq => if Z.even q then q else q + 1
  end.

(** The ten significant digits of [num / den] scaled by a power of ten:
    the nearest integer to [num / den * 10^(9 - x)]. *)
Definition scaled10 (num den x : Z) : Z :=
  if x <=? 9 then div_round_even (num * 10 ^ (9 - x)) den
  else div_round_even num (den * 10 ^ (x - 9)).

(** The decimal exponent of [num / den > 0]: the largest [x] with
    [10^x <= num / den], searched downwards from [hi]. *)
Fixpoint decimal_exponent (fuel : nat) (num den hi : Z) : Z :=
  match fuel with
  | O => hi
  | S fuel' =>
      if (if 0 <=? hi then den * 10 ^ hi <=? num else den <=? num * 10 ^ (- hi))
      then hi else decimal_exponent fuel' num den (hi - 1)
  end.

Definition fmt_exponent (x : Z) : string :=
  (if x <? 0 then "e-" else "e+") ++ pad_digits 2 (Z.abs x).

Definition with_fraction (ip fp : string) : string :=
  match strip_trailing_zeros fp with
  | EmptyString => ip
  | fp' => ip ++ "." ++ fp'
  end.

(** [%.10g] of a positive rational [num / den]. *)
Definition fmt_g10_pos (num den : Z) : string :=
  let x0 := decimal_exponent 700 num den 310 in
  let d0 := scaled10 num den x0 in
  let '(d, x) := if d0 =? 10 ^ 10 then (10 ^ 9, x0 + 1) else (d0, x0) in
  if (x <? -4) || (10 <=? x) then
    with_fraction (fmt_zu (d / 10 ^ 9)) (pad_digits 9 (d mod 10 ^ 9))
      ++ fmt_exponent x
  else
    let k := 9 - x in
    with_fraction (fmt_zu (d / 10 ^ k)) (pad_digits (Z.to_nat k) (d mod 10 ^ k)).

(** [%.10g] *)
Definition fmt_g10 (d : double) : string :=
  match d with
  | S754_zero s => if s then "-0" else "0"
  | S754_infinity s => if s then "-inf" else "inf"
  | S754_nan => "nan"
  | S754_finite s m e =>
      (if s then "-" else "") ++
      (if 0 <=? e then fmt_g10_pos (Zpos m * 2 ^ e) 1
       else fmt_g10_pos (Zpos m) (2 ^ (- e)))
  end.

End Libc.

(** ** Computations over a parser state

    A parser function of the sources takes a pointer to its state and may
    change it. Here it is a function from the state to an outcome: a result
    with the new state, a fault (the C code dereferences a null pointer or
    reads outside its buffer there), or an exhausted recursion budget. *)

Module Run.

Inductive run (S A : Type) : Type :=
| Done (a : A) (s : S)
| Fault
| OutOfFuel.
Arguments Done {S A} a s.
Arguments Fault {S A}.
Arguments OutOfFuel {S A}.

Definition M (S A : Type) : Type := S -> run S A.

Definition ret {S A} (a : A) : M S A := fun s => Done a s.

Definition bind {S A B} (m : M S A) (k : A -> M S B) : M S B :=
  fun s =>
    match m s with
    | Done a s' => k a s'
    | Fault => Fault
    | OutOfFuel => OutOfFuel
    end.

Definition get {S} : M S S := fun s => Done s s.
Definition gets {S A} (f : S -> A) : M S A := fun s => Done (f s) s.
Definition modify {S} (f : S -> S) : M S unit := fun s => Done tt (f s).
Definition fault {S A} : M S A := fun _ => Fault.
Definition out_of_fuel {S A} : M S A := fun _ => OutOfFuel.

End Run.
Import Run.

Declare Scope run_scope.
Delimit Scope run_scope with run.
Notation "x <- m ;; k" := (bind m (fun x => k))
  (at level 100, m at next level, right associativity) : run_scope.
Notation "m ;;; k" := (bind m (fun _ => k))
  (at level 100, right associativity) : run_scope.
Local Open Scope run_scope.

(** ** The value model (redistoon.h) *)

Inductive ToonType : Type :=
| TOON_NULL | TOON_BOOLEAN | TOON_NUMBER | TOON_STRING
| TOON_ARRAY | TOON_OBJECT | TOON_TABULAR_ARRAY.

(** [struct ToonValue]. The lengths stored next to the arrays in C are the
    lengths of the lists; a tabular array stores [num_headers] cells in each
    row. *)
#[warnings="-register-all"]
Inductive ToonValue : Type :=
| TNull
| TBoolean (boolean : bool)
| TNumber (number : Libc.double)
| TString (string_ : string)
| TArray (elements : list ToonValue)
| TObject (entries : list (string * ToonValue))
| TTabular (headers : list string) (rows : list (list ToonValue)).

Definition type_of (v : ToonValue) : ToonType :=
  match v with
  | TNull => TOON_NULL
  | TBoolean _ => TOON_BOOLEAN
  | TNumber _ => TOON_NUMBER
  | TString _ => TOON_STRING
  | TArray _ => TOON_ARRAY
  | TObject _ => TOON_OBJECT
  | TTabular _ _ => TOON_TABULAR_ARRAY
  end.

Definition is_object (v : ToonValue) : bool :=
  match v with TObject _ => true | _ => false end.

(** What a parser holds for a [ToonValue *] while it runs: a complete
    value, a null pointer, or a value of the given type (and, for an object,
    entry count) with a null pointer somewhere inside it. The last two only
    arise once an error has been recorded. *)
Inductive pval : Type :=
| PVal (v : ToonValue)
| PNull
| PBroken (t : ToonType) (len : nat).

(** The container built from children of which some may be incomplete. *)
Fixpoint all_vals (l : list pval) : option (list ToonValue) :=
  match l with
  | [] => Some []
  | PVal v :: l' => option_map (cons v) (all_vals l')
  | _ :: _ => None
  end.

Definition make_array (l : list pval) : pval :=
  match all_vals l with
  | Some vs => PVal (TArray vs)
  | None => PBroken TOON_ARRAY (length l)
  end.

Definition make_object (l : list (string * pval)) : pval :=
  match all_vals (map snd l) with
  | Some vs => PVal (TObject (zip (map fst l) vs))
  | None => PBroken TOON_OBJECT (length l)
  end.

Fixpoint all_rows (l : list (list pval)) : option (list (list ToonValue)) :=
  match l with
  | [] => Some []
  | r :: l' =>
      match all_vals r, all_rows l' with
      | Some r', Some l'' => Some (r' :: l'')
      | _, _ => None
      end
  end.

Definition make_tabular (headers : list string) (rows : list (list pval)) : pval :=
  match all_rows rows with
  | Some rs => PVal (TTabular headers rs)
  | None => PBroken TOON_TABULAR_ARRAY (length rows)
  end.

(** A [TOON_STRING] value around the text a string parser returned. *)
Definition make_string (s : option string) : pval :=
  match s with
  | Some s => PVal (TString s)
  | None => PBroken TOON_STRING 0
  end.

(** What a public entry point hands back: a value, an error text, undefined
    behaviour of the C code, or an exhausted recursion budget of the model. *)
Inductive result (A : Type) : Type :=
| Ok (a : A)
| Err (message : string)
| Undefined
| Exhausted.
Arguments Ok {A} a.
Arguments Err {A} message.
Arguments Undefined {A}.
Arguments Exhausted {A}.

Definition DQUOTE : ascii := "034"%char.
Definition BACKSLASH : ascii := "092"%char.
Definition LF : ascii := "010"%char.
Definition CR : ascii := "013"%char.
Definition TAB : ascii := "009"%char.

(** Appending one character to a buffer that is later read as a C string:
    a NUL written into it only ends it. The callers that can write a NUL do
    so at the end of their input, where every later write is a NUL too. *)
Definition push (buf : string) (c : ascii) : string :=
  if (c =? Libc.NUL)%char then buf else buf ++ String c EmptyString.

(** Removing the white space at the end of a buffer. *)
Fixpoint rtrim (s : string) : string :=
  match s with
  | EmptyString => EmptyString
  | String c s' =>
      match rtrim s' with
      | EmptyString => if Libc.isspace c then EmptyString else String c EmptyString
      | t => String c t
      end
  end.

(** [start] after the leading white space, then the trailing white space
    cut while [end > start]. *)
Definition trim (buf : string) : string :=
  match Libc.skip_space buf with
  | EmptyString => EmptyString
  | String c s' => String c (rtrim s')
  end.

(** ** The decoder (toon_decoder.c) *)

Module Decoder.
Import Libc.

Record Parser : Type := mkParser {
  input : string;
  current : string;
  line : Z;
  column : Z;
  error : option string
}.

Definition with_current (s : string) (p : Parser) : Parser :=
  mkParser (input p) s (line p) (column p) (error p).
Definition with_line (n : Z) (p : Parser) : Parser :=
  mkParser (input p) (current p) n (column p) (error p).
Definition with_column (n : Z) (p : Parser) : Parser :=
  mkParser (input p) (current p) (line p) n (error p).

Definition set_error (message : string) : M Parser unit :=
  modify (fun p =>
    match error p with
    | Some _ => p
    | None =>
        mkParser (input p) (current p) (line p) (column p)
          (Some ("Line " ++ fmt_ld (line p) ++ ", Column " ++ fmt_ld (column p)
                 ++ ": " ++ message)%string)
    end).

Definition peek : M Parser ascii :=
  gets (fun p => match current p with
                 | String c _ => c
                 | EmptyString => NUL
                 end).

(** [p->current++] *)
Definition advance : M Parser unit :=
  modify (fun p => match current p with
                   | String _ s => with_current s p
                   | EmptyString => p
                   end).

(** The characters left to read; an upper bound for the loops that read one
    character or more in each round. *)
Definition input_left : M Parser nat := gets (fun p => String.length (current p)).

Fixpoint skip_whitespace_loop (fuel : nat) : M Parser unit :=
  match fuel with
  | O => ret tt
  | S fuel' =>
      c <- peek;;
      if negb (c =? NUL)%char && isspace c then
        (if (c =? LF)%char
         then modify (fun p => with_column 0 (with_line (line p + 1) p))
         else ret tt);;;
        advance;;;
        modify (fun p => with_column (column p + 1) p);;;
        skip_whitespace_loop fuel'
      else ret tt
  end.

Definition skip_whitespace : M Parser unit :=
  n <- input_left;; skip_whitespace_loop n.

Definition consume : M Parser ascii :=
  c <- peek;;
  if (c =? NUL)%char then ret c
  else
    advance;;;
    modify (fun p => with_column (column p + 1) p);;;
    (if (c =? LF)%char
     then modify (fun p => with_column 0 (with_line (line p + 1) p))
     else ret tt);;;
    ret c.

Definition unescape (c : ascii) : option ascii :=
  if (c =? "n")%char then Some LF
  else if (c =? "r")%char then Some CR
  else if (c =? "t")%char then Some TAB
  else if (c =? DQUOTE)%char then Some DQUOTE
  else if (c =? BACKSLASH)%char then Some BACKSLASH
  else None.

(** The body of a quoted string, up to and without the closing quote.
    [None]: the function has returned NULL from inside the loop. *)
Fixpoint quoted_loop (fuel : nat) (buf : string) (remaining : nat)
  : M Parser (option string) :=
  match fuel with
  | O => ret (Some buf)
  | S fuel' =>
      c0 <- peek;;
      if negb (c0 =? DQUOTE)%char && negb (c0 =? NUL)%char then
        c <- consume;;
        if (c =? BACKSLASH)%char then
          c <- consume;;
          match unescape c with
          | Some c' =>
              match remaining with
              | S r => quoted_loop fuel' (push buf c') r
              | O => quoted_loop fuel' buf O
              end
          | None => set_error "Invalid escape sequence";;; ret None
          end
        else
          match remaining with
          | S r => quoted_loop fuel' (push buf c) r
          | O => quoted_loop fuel' buf O
          end
      else ret (Some buf)
  end.

(** Returns the text, or [None] for NULL. *)
Definition parse_quoted_string : M Parser (option string) :=
  c <- consume;;
  if negb (c =? DQUOTE)%char then
    set_error "Expected opening quote";;; ret None
  else
    n <- input_left;;
    r <- quoted_loop n EmptyString 4095;;
    match r with
    | None => ret None
    | Some buf =>
        c <- consume;;
        if negb (c =? DQUOTE)%char then
          set_error "Expected closing quote";;; ret None
        else ret (Some buf)
    end.

Fixpoint unquoted_loop (fuel : nat) (delimiters : string) (buf : string)
  (remaining : nat) : M Parser string :=
  match fuel with
  | O => ret buf
  | S fuel' =>
      c0 <- peek;;
      if negb (c0 =? NUL)%char && negb (strchr delimiters c0) then
        c <- consume;;
        match remaining with
        | S r => unquoted_loop fuel' delimiters (push buf c) r
        | O => unquoted_loop fuel' delimiters buf O
        end
      else ret buf
  end.

Definition parse_unquoted_string (delimiters : string) : M Parser string :=
  n <- input_left;;
  buf <- unquoted_loop n delimiters EmptyString 4095;;
  ret (rtrim buf).

(** The digits and points of a number, while the buffer has room. *)
Fixpoint number_loop (remaining : nat) (buf : string) : M Parser string :=
  match remaining with
  | O => ret buf
  | S r =>
      c0 <- peek;;
      if isdigit c0 || (c0 =? ".")%char then
        c <- consume;; number_loop r (push buf c)
      else ret buf
  end.

Definition parse_number : M Parser pval :=
  c0 <- peek;;
  buf <- (if (c0 =? "-")%char
          then c <- consume;; number_loop 62 (push EmptyString c)
          else number_loop 63 EmptyString);;
  ret (PVal (TNumber (fst (strtod buf)))).

(** The digits of a declared count, at most 31 of them. *)
Fixpoint count_loop (room : nat) (count_buf : string) : M Parser string :=
  match room with
  | O => ret count_buf
  | S r =>
      c0 <- peek;;
      if isdigit c0 then c <- consume;; count_loop r (push count_buf c)
      else ret count_buf
  end.

(** An unquoted token is a keyword or a string. *)
Definition keyword_or_string (str : string) : pval :=
  if streq str "null" then PVal TNull
  else if streq str "true" then PVal (TBoolean true)
  else if streq str "false" then PVal (TBoolean false)
  else PVal (TString str).

(** The characters of one header, up to a [,] or [}] or 255 of them. *)
Fixpoint header_loop (room : nat) (header_buf : string) : M Parser string :=
  match room with
  | O => ret header_buf
  | S r =>
      c0 <- peek;;
      if negb (c0 =? ",")%char && negb (c0 =? "}")%char then
        c <- consume;; header_loop r (push header_buf c)
      else ret header_buf
  end.

(** The header names, at most 256 of them. *)
Fixpoint headers_loop (room : nat) (headers : list string) : M Parser (list string) :=
  match room with
  | O => ret headers
  | S r =>
      c0 <- peek;;
      if negb (c0 =? "}")%char then
        skip_whitespace;;;
        header_buf <- header_loop 255 EmptyString;;
        skip_whitespace;;;
        c1 <- peek;;
        (if (c1 =? ",")%char then consume;;; ret tt else ret tt);;;
        headers_loop r (headers ++ [trim header_buf])
      else ret headers
  end.

(** One cell of a row. *)
Definition parse_cell : M Parser pval :=
  c <- peek;;
  if (c =? DQUOTE)%char then
    str <- parse_quoted_string;; ret (make_string str)
  else if isdigit c || (c =? "-")%char then parse_number
  else
    str <- parse_unquoted_string (String "," (String LF (String CR EmptyString)));;
    ret (keyword_or_string str).

(** The cells of one row: [todo] columns are left, the next is [col]. *)
Fixpoint cells_loop (todo : nat) (col num_headers : Z) (cells : list pval)
  : M Parser (list pval) :=
  match todo with
  | O => ret cells
  | S todo' =>
      skip_whitespace;;;
      cell <- parse_cell;;
      skip_whitespace;;;
      c <- peek;;
      (if (col <? to_size_t (num_headers - 1)) && (c =? ",")%char
       then consume;;; ret tt else ret tt);;;
      cells_loop todo' (col + 1) num_headers (cells ++ [cell])
  end.

Fixpoint rows_loop (todo : nat) (num_headers : Z) (rows : list (list pval))
  : M Parser (list (list pval)) :=
  match todo with
  | O => ret rows
  | S todo' =>
      skip_whitespace;;;
      cells <- cells_loop (Z.to_nat num_headers) 0 num_headers [];;
      skip_whitespace;;;
      rows_loop todo' num_headers (rows ++ [cells])
  end.

(** Format: [[N,]{header1,header2,...}:] and then the rows. *)
Definition parse_tabular_array : M Parser pval :=
  c <- consume;;
  if negb (c =? "[")%char then set_error "Expected '['";;; ret PNull else
  count_buf <- count_loop 31 EmptyString;;
  let num_rows := to_size_t (atoi count_buf) in
  c <- consume;;
  if negb (c =? ",")%char then set_error "Expected ','";;; ret PNull else
  c <- consume;;
  if negb (c =? "]")%char then set_error "Expected ']'";;; ret PNull else
  c <- consume;;
  if negb (c =? "{")%char then set_error "Expected '{'";;; ret PNull else
  headers <- headers_loop 256 [];;
  let num_headers := Z.of_nat (length headers) in
  c <- consume;;
  if negb (c =? "}")%char then set_error "Expected '}'";;; ret PNull else
  c <- consume;;
  if negb (c =? ":")%char then set_error "Expected ':'";;; ret PNull else
  skip_whitespace;;;
  rows <- rows_loop (Z.to_nat num_rows) num_headers [];;
  ret (make_tabular headers rows).

(** The elements of a simple array: [todo] are left, the next is [j]. *)
Fixpoint elements_loop (parse_value : M Parser pval) (todo : nat) (j length : Z)
  (elements : list pval) : M Parser (list pval) :=
  match todo with
  | O => ret elements
  | S todo' =>
      skip_whitespace;;;
      e <- parse_value;;
      skip_whitespace;;;
      c <- peek;;
      (if (j <? to_size_t (length - 1)) && (c =? ",")%char
       then consume;;; ret tt else ret tt);;;
      elements_loop parse_value todo' (j + 1) length (elements ++ [e])
  end.

(** Format: [[N]: val1,val2,val3] *)
Definition parse_simple_array (parse_value : M Parser pval) : M Parser pval :=
  c <- consume;;
  if negb (c =? "[")%char then set_error "Expected '['";;; ret PNull else
  count_buf <- count_loop 31 EmptyString;;
  let length := to_size_t (atoi count_buf) in
  c <- consume;;
  if negb (c =? "]")%char then set_error "Expected ']'";;; ret PNull else
  c <- consume;;
  if negb (c =? ":")%char then set_error "Expected ':'";;; ret PNull else
  skip_whitespace;;;
  elements <- elements_loop parse_value (Z.to_nat length) 0 length [];;
  ret (make_array elements).

(** The characters of a key, up to a [:] or the end or 255 of them. *)
Fixpoint key_loop (room : nat) (key_buf : string) : M Parser string :=
  match room with
  | O => ret key_buf
  | S r =>
      c0 <- peek;;
      if negb (c0 =? ":")%char && negb (c0 =? NUL)%char then
        c <- consume;; key_loop r (push key_buf c)
      else ret key_buf
  end.

(** The entries of the top-level object, at most 256 of them. *)
Fixpoint entries_loop (parse_value : M Parser pval) (room : nat)
  (entries : list (string * pval)) : M Parser (list (string * pval)) :=
  match room with
  | O => ret entries
  | S r =>
      c0 <- peek;;
      if negb (c0 =? NUL)%char then
        skip_whitespace;;;
        c1 <- peek;;
        if (c1 =? NUL)%char then ret entries else
        key_buf <- key_loop 255 EmptyString;;
        let start := trim key_buf in
        c2 <- peek;;
        if negb (c2 =? ":")%char then ret entries else
        consume;;;
        skip_whitespace;;;
        val <- parse_value;;
        skip_whitespace;;;
        c3 <- peek;;
        (if (c3 =? LF)%char then consume;;; ret tt else ret tt);;;
        entries_loop parse_value r (entries ++ [(start, val)])
      else ret entries
  end.

Definition parse_object (parse_value : M Parser pval) : M Parser pval :=
  entries <- entries_loop parse_value 256 [];;
  ret (make_object entries).

(** The characters after the digits that follow the bracket at the cursor. *)
Definition array_lookahead (p : Parser) : ascii :=
  match current p with
  | String _ s =>
      match snd (span isdigit s) with
      | String c _ => c
      | EmptyString => NUL
      end
  | EmptyString => NUL
  end.

Fixpoint parse_value (fuel : nat) : M Parser pval :=
  match fuel with
  | O => out_of_fuel
  | S fuel' =>
      skip_whitespace;;;
      c <- peek;;
      if (c =? DQUOTE)%char then
        str <- parse_quoted_string;; ret (make_string str)
      else if isdigit c || (c =? "-")%char then parse_number
      else if (c =? "[")%char then
        lookahead <- gets array_lookahead;;
        if (lookahead =? ",")%char then parse_tabular_array
        else parse_simple_array (parse_value fuel')
      else
        str <- parse_unquoted_string
                 (String "," (String LF (String CR (String ":" EmptyString))));;
        ret (keyword_or_string str)
  end.

(** The scan of the first line for a [:] that does not follow a []].
    [prev] is the character before the one looked at, [None] when that
    would be the byte before the text; the result is [None] when the scan
    reads that byte. *)
Fixpoint looks_like_object (prev : option ascii) (lookahead : string) : option bool :=
  match lookahead with
  | EmptyString => Some false
  | String c rest =>
      if (c =? NUL)%char || (c =? LF)%char then Some false
      else if (c =? ":")%char then
        match prev with
        | None => None
        | Some q =>
            if negb (q =? "]")%char then Some true
            else looks_like_object (Some c) rest
        end
      else looks_like_object (Some c) rest
  end.

(** The character before [current] in [input]. *)
Definition char_before (p : Parser) : option ascii :=
  match (String.length (input p) - String.length (current p))%nat with
  | O => None
  | S k => String.get k (input p)
  end.

Definition toon_decode_run (toon_string : string) : M Parser pval :=
  skip_whitespace;;;
  p <- get;;
  match looks_like_object (char_before p) (current p) with
  | None => fault
  | Some true => parse_object (parse_value (String.length toon_string))
  | Some false => parse_value (S (String.length toon_string))
  end.

Definition toon_decode (toon_string : string) : result ToonValue :=
  match toon_decode_run toon_string (mkParser toon_string toon_string 1 0 None) with
  | Done r p =>
      match error p, r with
      | Some e, _ => Err e
      | None, PVal v => Ok v
      | None, _ => Undefined
      end
  | Fault => Undefined
  | OutOfFuel => Exhausted
  end.

End Decoder.

(** ** Output buffers

    The encoders write into buffers of a fixed size without checking it.
    [fits cap s] is the text [s] when it and its terminating NUL fit into
    [cap] bytes, and [None] when the C code writes past the buffer. Where
    the C code leaves the text without a terminating NUL ([encode_object],
    [encode_tabular_array]), the bytes behind it are taken to be zero. *)
Definition fits (cap : Z) (s : string) : option string :=
  if Z.of_nat (String.length s) <? cap then Some s else None.

(** [f] over the first [n] elements of a list: the loop over the columns
    of a row. *)
Definition map_first {A B : Type} (f : A -> option B) : nat -> list A -> option (list B) :=
  fix go (n : nat) (l : list A) {struct l} : option (list B) :=
    match l, n with
    | x :: l', S n' => y ← f x; ys ← go n' l'; Some (y :: ys)
    | _, _ => Some []
    end.

Fixpoint join_with (sep : string) (l : list string) : string :=
  match l with
  | [] => EmptyString
  | [x] => x
  | x :: l' => (x ++ sep ++ join_with sep l')%string
  end.

Definition concat_strings (l : list string) : string :=
  fold_right String.append EmptyString l.

(** Escaping of the quoted forms: the same five characters in the TOON
    encoder and in the JSON encoder. *)
Fixpoint escape_chars (s : string) : string :=
  match s with
  | EmptyString => EmptyString
  | String c s' =>
      let rest := escape_chars s' in
      if (c =? DQUOTE)%char then String BACKSLASH (String DQUOTE rest)
      else if (c =? BACKSLASH)%char then String BACKSLASH (String BACKSLASH rest)
      else if (c =? LF)%char then String BACKSLASH (String "n" rest)
      else if (c =? CR)%char then String BACKSLASH (String "r" rest)
      else if (c =? TAB)%char then String BACKSLASH (String "t" rest)
      else String c rest
  end.

Definition is_container (v : ToonValue) : bool :=
  match v with
  | TArray _ | TObject _ | TTabular _ _ => true
  | _ => false
  end.

(** Both encoders print a number with [%ld] when it equals its conversion
    to [long], and with [%.10g] otherwise. [None]: the conversion to [long]
    is undefined. *)
Definition format_number (num : Libc.double) : option string :=
  match Libc.double_to_long num with
  | Some l =>
      Some (if Libc.double_eq num (Libc.double_of_Z l)
            then Libc.fmt_ld l else Libc.fmt_g10 num)
  | None => None
  end.

(** ** The encoder (toon_encoder.c) *)

Module Encoder.
Import Libc.

Definition at_end (s : string) : bool :=
  match s with
  | EmptyString => true
  | String c _ => (c =? NUL)%char
  end.

(** [str[len - 1]] for a string that is not empty *)
Fixpoint last_char (str : string) : ascii :=
  match str with
  | EmptyString => NUL
  | String c EmptyString => c
  | String _ s => last_char s
  end.

(** The loop over the characters: a structural character, or [*p < 32] on
    a plain [char]. *)
Fixpoint has_special (signed_char : bool) (str : string) : bool :=
  match str with
  | EmptyString => false
  | String c s =>
      if (c =? ",")%char || (c =? ":")%char || (c =? LF)%char || (c =? CR)%char
         || (c =? "{")%char || (c =? "}")%char || (c =? "[")%char || (c =? "]")%char
         || (char_value signed_char c <? 32)
      then true else has_special signed_char s
  end.

Definition needs_quoting (signed_char : bool) (str : string) : bool :=
  if at_end str then true
  else if streq str "null" || streq str "true" || streq str "false" then true
  else if at_end (snd (strtod str)) then true
  else
    match str with
    | String c0 _ =>
        if isspace c0 || isspace (last_char str) then true
        else has_special signed_char str
    | EmptyString => true
    end.

Definition escape_string (str : string) : string :=
  String DQUOTE (escape_chars str ++ String DQUOTE EmptyString).

Fixpoint make_indent_spaces (spaces : nat) : string :=
  match spaces with
  | O => EmptyString
  | S n => String " " (make_indent_spaces n)
  end.

Definition make_indent (level : nat) : string := make_indent_spaces (level * 2).

Definition encode_string (str : string) : option string :=
  if needs_quoting plain_char_signed str
  then fits 4096 (escape_string str) else fits 4096 str.

Section Containers.

(** The recursive call [encode_value]. *)
Variable encode_value : ToonValue -> nat -> bool -> option string.

Definition encode_tabular_array (headers : list string) (rows : list (list ToonValue))
  (indent_level : nat) : option string :=
  let indent := make_indent indent_level in
  lines ← mapM (fun row : list ToonValue =>
                   cells ← map_first (fun cell => encode_value cell O true)
                                      (length headers) row;
                   Some (indent ++ join_with "," cells ++ String LF EmptyString)%string)
                rows;
  fits 65536
    ("[" ++ fmt_zu (Z.of_nat (length rows)) ++ ",]{" ++ join_with "," headers
     ++ "}:" ++ String LF EmptyString ++ concat_strings lines)%string.

Definition encode_array (elements : list ToonValue) (indent_level : nat)
  (inline_mode : bool) : option string :=
  let len := fmt_zu (Z.of_nat (length elements)) in
  let all_primitives := forallb (fun e => negb (is_container e)) elements in
  if all_primitives then
    elems ← mapM (fun e => encode_value e O true) elements;
    fits 65536 ("[" ++ len ++ "]: " ++ join_with "," elems)%string
  else
    let indent := make_indent (indent_level + 1) in
    lines ← mapM (fun e =>
                     elem ← encode_value e (indent_level + 1)%nat false;
                     Some (indent ++ "- " ++ elem ++ String LF EmptyString)%string)
                  elements;
    fits 65536 ("[" ++ len ++ "]:" ++ String LF EmptyString
                ++ concat_strings lines)%string.

(** The text written for the entry [i]. *)
Definition encode_entry (indent : string) (indent_level : nat) (inline_mode : bool)
  (first : bool) (entry : string * ToonValue) : option string :=
  val ← encode_value (snd entry) (indent_level + 1)%nat false;
  Some ((if first then "" else if inline_mode then ", " else indent)
        ++ fst entry ++ ": " ++ val
        ++ (if inline_mode then "" else String LF EmptyString))%string.

Definition encode_object (entries : list (string * ToonValue)) (indent_level : nat)
  (inline_mode : bool) : option string :=
  let indent := make_indent indent_level in
  parts ← match entries with
           | [] => Some []
           | e :: es =>
               p ← encode_entry indent indent_level inline_mode true e;
               ps ← mapM (encode_entry indent indent_level inline_mode false) es;
               Some (p :: ps)
           end;
  fits 65536 (concat_strings parts).

End Containers.

Fixpoint encode_value (value : ToonValue) (indent_level : nat) (inline_mode : bool)
  : option string :=
  match value with
  | TNull => Some "null"
  | TBoolean b => Some (if b then "true" else "false")
  | TNumber num => format_number num
  | TString str => encode_string str
  | TArray elements => encode_array encode_value elements indent_level inline_mode
  | TObject entries => encode_object encode_value entries indent_level inline_mode
  | TTabular headers rows => encode_tabular_array encode_value headers rows indent_level
  end.

Definition toon_encode (value : ToonValue) (indent_level : nat) : option string :=
  encode_value value indent_level false.

End Encoder.

(** ** The JSON bridge (toon_json.c) *)

Module Json.
Import Libc.

Definition json_quoted (s : string) : string :=
  String DQUOTE (s ++ String DQUOTE EmptyString).

(** The members of the object written for one row: header [col] with the
    cell [col], for the columns below [num_headers]. *)
Definition json_row (toon_to_json : ToonValue -> option string)
  : list string -> list ToonValue -> option (list string) :=
  fix go (headers : list string) (row : list ToonValue) {struct row} :=
    match row, headers with
    | cell :: row', h :: headers' =>
        c ← toon_to_json cell;
        cs ← go headers' row';
        Some ((json_quoted h ++ ":" ++ c)%string :: cs)
    | _, _ => Some []
    end.

Fixpoint toon_to_json (value : ToonValue) : option string :=
  match value with
  | TNull => Some "null"
  | TBoolean b => Some (if b then "true" else "false")
  | TNumber num => format_number num
  | TString str => fits 65536 (json_quoted (escape_chars str))
  | TArray elements =>
      elems ← mapM toon_to_json elements;
      fits 65536 ("[" ++ join_with "," elems ++ "]")%string
  | TObject entries =>
      members ← mapM (fun entry : string * ToonValue =>
                        val ← toon_to_json (snd entry);
                        Some (json_quoted (fst entry) ++ ":" ++ val)%string)
                     entries;
      fits 65536 ("{" ++ join_with "," members ++ "}")%string
  | TTabular headers rows =>
      objects ← mapM (fun row : list ToonValue =>
                        members ← json_row toon_to_json headers row;
                        Some ("{" ++ join_with "," members ++ "}")%string)
                     rows;
      fits 65536 ("[" ++ join_with "," objects ++ "]")%string
  end.

Record JsonParser : Type := mkJsonParser {
  json : string;
  current : string;
  error : option string
}.

(** [jp->error = strdup(message)]: a later error replaces an earlier one. *)
Definition json_error (message : string) : M JsonParser unit :=
  modify (fun jp => mkJsonParser (json jp) (current jp) (Some message)).

Definition json_peek : M JsonParser ascii :=
  gets (fun jp => match current jp with
                  | String c _ => c
                  | EmptyString => NUL
                  end).

Definition json_advance : M JsonParser unit :=
  modify (fun jp => match current jp with
                    | String _ s => mkJsonParser (json jp) s (error jp)
                    | EmptyString => jp
                    end).

Definition json_consume : M JsonParser ascii :=
  c <- json_peek;;
  if (c =? NUL)%char then ret NUL else json_advance;;; ret c.

Definition json_input_left : M JsonParser nat :=
  gets (fun jp => String.length (current jp)).

Fixpoint skip_json_whitespace_loop (fuel : nat) : M JsonParser unit :=
  match fuel with
  | O => ret tt
  | S fuel' =>
      c <- json_peek;;
      if negb (c =? NUL)%char && isspace c
      then json_advance;;; skip_json_whitespace_loop fuel'
      else ret tt
  end.

Definition skip_json_whitespace : M JsonParser unit :=
  n <- json_input_left;; skip_json_whitespace_loop n.

(** [strncmp(s, str, strlen(str)) == 0]: [str] is a prefix of [s]; the rest
    of [s] behind it. *)
Fixpoint strip_prefix (str s : string) : option string :=
  match str, s with
  | EmptyString, _ => Some s
  | String a str', String b s' =>
      if (a =? b)%char then strip_prefix str' s' else None
  | _, _ => None
  end.

Definition json_match (str : string) : M JsonParser bool :=
  jp <- get;;
  match strip_prefix str (current jp) with
  | Some rest => modify (fun jp => mkJsonParser (json jp) rest (error jp));;; ret true
  | None => ret false
  end.

(** An escape that is not known stands for the character itself. *)
Definition json_unescape (c : ascii) : ascii :=
  if (c =? "n")%char then LF
  else if (c =? "r")%char then CR
  else if (c =? "t")%char then TAB
  else c.

Fixpoint json_string_loop (fuel : nat) (buf : string) (remaining : nat)
  : M JsonParser string :=
  match fuel with
  | O => ret buf
  | S fuel' =>
      c0 <- json_peek;;
      if negb (c0 =? DQUOTE)%char && negb (c0 =? NUL)%char then
        c <- json_consume;;
        c <- (if (c =? BACKSLASH)%char
              then c' <- json_consume;; ret (json_unescape c')
              else ret c);;
        match remaining with
        | S r => json_string_loop fuel' (push buf c) r
        | O => json_string_loop fuel' buf O
        end
      else ret buf
  end.

Definition parse_json_string : M JsonParser (option string) :=
  c <- json_consume;;
  if negb (c =? DQUOTE)%char then
    json_error ("Expected '" ++ String DQUOTE "'");;; ret None
  else
    n <- json_input_left;;
    buf <- json_string_loop n EmptyString 4095;;
    c <- json_consume;;
    if negb (c =? DQUOTE)%char then
      json_error ("Expected closing '" ++ String DQUOTE "'");;; ret None
    else ret (Some buf).

Fixpoint json_number_loop (remaining : nat) (buf : string) : M JsonParser string :=
  match remaining with
  | O => ret buf
  | S r =>
      c0 <- json_peek;;
      if isdigit c0 || (c0 =? ".")%char || (c0 =? "e")%char || (c0 =? "E")%char
         || (c0 =? "+")%char || (c0 =? "-")%char
      then c <- json_consume;; json_number_loop r (push buf c)
      else ret buf
  end.

Definition parse_json_number : M JsonParser pval :=
  c0 <- json_peek;;
  buf <- (if (c0 =? "-")%char
          then c <- json_consume;; json_number_loop 62 (push EmptyString c)
          else json_number_loop 63 EmptyString);;
  ret (PVal (TNumber (fst (strtod buf)))).

(** What [v->type] and [v->value.object.length] read; [None] is the
    dereference of a null pointer. *)
Definition ptype (v : pval) : option ToonType :=
  match v with
  | PVal v => Some (type_of v)
  | PBroken t _ => Some t
  | PNull => None
  end.

Definition pobject_length (v : pval) : nat :=
  match v with
  | PVal (TObject entries) => length entries
  | PBroken TOON_OBJECT n => n
  | _ => O
  end.

Definition is_type (t : ToonType) (o : option ToonType) : bool :=
  match o, t with
  | Some TOON_OBJECT, TOON_OBJECT => true
  | _, _ => false
  end.

(** The loop that compares every further element with the first: [Some
    false] when an element is no object or has another number of entries (the
    loop stops there), [None] when it reads through a null element. *)
Fixpoint uniform_objects (first_len : nat) (rest : list pval) : option bool :=
  match rest with
  | [] => Some true
  | e :: rest' =>
      match ptype e with
      | None => None
      | Some t =>
          if negb (is_type TOON_OBJECT (Some t))
             || negb (pobject_length e =? first_len)%nat
          then Some false
          else uniform_objects first_len rest'
      end
  end.

(** The headers: the keys of the first element. *)
Definition tabular_headers (first : pval) : list string :=
  match first with
  | PVal (TObject entries) => map fst entries
  | _ => []
  end.

(** The row of one element: the values of its entries, in their order. An
    element that has a null pointer inside gives a row that has one. *)
Definition tabular_row (first_len : nat) (e : pval) : list pval :=
  match e with
  | PVal (TObject entries) => map (fun entry => PVal (snd entry)) (take first_len entries)
  | _ => [PNull]
  end.

(** The end of [parse_json_array], behind the closing bracket: the choice
    between a tabular array and a simple array. [None] is a fault. *)
Definition finish_json_array (elements : list pval) : option pval :=
  match elements with
  | [] => Some (make_array elements)
  | e0 :: rest =>
      match ptype e0 with
      | None => None
      | Some t0 =>
          let is_tabular := is_type TOON_OBJECT (Some t0) in
          if is_tabular && (1 <? length elements)%nat then
            let first_len := pobject_length e0 in
            match uniform_objects first_len rest with
            | None => None
            | Some is_tabular =>
                if is_tabular && (0 <? first_len)%nat
                then Some (make_tabular (tabular_headers e0)
                             (map (tabular_row first_len) elements))
                else Some (make_array elements)
            end
          else Some (make_array elements)
      end
  end.

(** The elements of an array, at most 256 of them. *)
Fixpoint json_elements_loop (parse_json_value : M JsonParser pval) (room : nat)
  (elements : list pval) : M JsonParser (list pval) :=
  match room with
  | O => ret elements
  | S r =>
      c0 <- json_peek;;
      if negb (c0 =? "]")%char && negb (c0 =? NUL)%char then
        e <- parse_json_value;;
        skip_json_whitespace;;;
        c1 <- json_peek;;
        (if (c1 =? ",")%char
         then json_consume;;; skip_json_whitespace
         else ret tt);;;
        json_elements_loop parse_json_value r (elements ++ [e])
      else ret elements
  end.

Definition parse_json_array (parse_json_value : M JsonParser pval) : M JsonParser pval :=
  c <- json_consume;;
  if negb (c =? "[")%char then json_error "Expected '['";;; ret PNull else
  skip_json_whitespace;;;
  elements <- json_elements_loop parse_json_value 256 [];;
  c <- json_consume;;
  if negb (c =? "]")%char then json_error "Expected ']'";;; ret PNull else
  match finish_json_array elements with
  | Some v => ret v
  | None => fault
  end.

(** The entries of an object, at most 256 of them; [None] when the function
    has returned NULL from inside the loop. *)
Fixpoint json_entries_loop (parse_json_value : M JsonParser pval) (room : nat)
  (entries : list (string * pval)) : M JsonParser (option (list (string * pval))) :=
  match room with
  | O => ret (Some entries)
  | S r =>
      c0 <- json_peek;;
      if negb (c0 =? "}")%char && negb (c0 =? NUL)%char then
        skip_json_whitespace;;;
        key <- parse_json_string;;
        match key with
        | None => ret None
        | Some key =>
            skip_json_whitespace;;;
            c1 <- json_consume;;
            if negb (c1 =? ":")%char then json_error "Expected ':'";;; ret None else
            skip_json_whitespace;;;
            val <- parse_json_value;;
            skip_json_whitespace;;;
            c2 <- json_peek;;
            (if (c2 =? ",")%char
             then json_consume;;; skip_json_whitespace
             else ret tt);;;
            json_entries_loop parse_json_value r (entries ++ [(key, val)])
        end
      else ret (Some entries)
  end.

Definition parse_json_object (parse_json_value : M JsonParser pval) : M JsonParser pval :=
  c <- json_consume;;
  if negb (c =? "{")%char then json_error "Expected '{'";;; ret PNull else
  skip_json_whitespace;;;
  r <- json_entries_loop parse_json_value 256 [];;
  match r with
  | None => ret PNull
  | Some entries =>
      c <- json_consume;;
      if negb (c =? "}")%char then json_error "Expected '}'";;; ret PNull else
      ret (make_object entries)
  end.

Fixpoint parse_json_value (fuel : nat) : M JsonParser pval :=
  match fuel with
  | O => out_of_fuel
  | S fuel' =>
      skip_json_whitespace;;;
      c <- json_peek;;
      if (c =? DQUOTE)%char then
        str <- parse_json_string;; ret (make_string str)
      else if (c =? "{")%char then parse_json_object (parse_json_value fuel')
      else if (c =? "[")%char then parse_json_array (parse_json_value fuel')
      else
        m <- json_match "true";;
        if m then ret (PVal (TBoolean true)) else
        m <- json_match "false";;
        if m then ret (PVal (TBoolean false)) else
        m <- json_match "null";;
        if m then ret (PVal TNull) else
        if isdigit c || (c =? "-")%char then parse_json_number else
        json_error "Unexpected character";;; ret PNull
  end.

Definition json_to_toon (json_string : string) : result ToonValue :=
  match parse_json_value (S (String.length json_string))
          (mkJsonParser json_string json_string None) with
  | Done r jp =>
      match error jp, r with
      | Some e, _ => Err e
      | None, PVal v => Ok v
      | None, _ => Undefined
      end
  | Fault => Undefined
  | OutOfFuel => Exhausted
  end.

End Json.

(** ** The path engine (toon_path.c) *)

Module Path.
Import Libc.

(** The characters of one segment: up to a stop character, the end, or 255
    of them; and the rest of the path. *)
Fixpoint segment_chars (stop : ascii -> bool) (room : nat) (p : string)
  : string * string :=
  match room, p with
  | S r, String c p' =>
      if negb (c =? NUL)%char && negb (stop c)
      then let '(seg, rest) := segment_chars stop r p' in (String c seg, rest)
      else (EmptyString, p)
  | _, _ => (EmptyString, p)
  end.

Fixpoint path_segments (fuel : nat) (p : string) : list string :=
  match fuel, p with
  | S fuel', String "." p' =>
      let '(segment, rest) :=
        segment_chars (fun c => (c =? ".")%char || (c =? "[")%char) 255 p' in
      match segment with
      | EmptyString => path_segments fuel' rest
      | _ => segment :: path_segments fuel' rest
      end
  | S fuel', String "[" p' =>
      let '(segment, rest) := segment_chars (fun c => (c =? "]")%char) 255 p' in
      let rest := match rest with
                  | String "]" rest' => rest'
                  | _ => rest
                  end in
      match segment with
      | EmptyString => path_segments fuel' rest
      | _ => ("[" ++ segment ++ "]")%string :: path_segments fuel' rest
      end
  | _, _ => []
  end.

(** [Ok None] is the NULL result. The table of segments has room for 64
    pointers and is filled without a check. *)
Definition path_parse (path_str : string) : result (option (list string)) :=
  match path_str with
  | String "$" p =>
      let segments := path_segments (String.length p) p in
      if (64 <? length segments)%nat then Undefined else Ok (Some segments)
  | _ => Ok None
  end.

(** A pointer into a tree that the caller owns: the steps from the root to
    the value it points to. *)
Inductive step : Type :=
| Element (i : nat)
| Entry (i : nat).

Definition location : Type := list step.

Definition first_char (s : string) : ascii :=
  match s with
  | String c _ => c
  | EmptyString => NUL
  end.

Definition after_first (s : string) : string :=
  match s with
  | String _ s' => s'
  | EmptyString => EmptyString
  end.

(** The first entry with the given key: its index and value. *)
Fixpoint find_key (key : string) (i : nat) (entries : list (string * ToonValue))
  : option (nat * ToonValue) :=
  match entries with
  | [] => None
  | (k, v) :: entries' =>
      if streq k key then Some (i, v) else find_key key (S i) entries'
  end.

(** [int index = atoi(segment + 1)], made to count from the end when
    negative; [None] when it is then outside the [length] elements. *)
Definition resolve_index (segment : string) (length : nat) : option nat :=
  let index := atoi (after_first segment) in
  let index := if index <? 0
               then to_int (to_size_t (Z.of_nat length + index)) else index in
  if (index <? 0) || (Z.of_nat length <=? to_size_t index) then None
  else Some (Z.to_nat index).

(** [path_navigate] from the segment [segment_index] on, given the segments
    from there: the place reached, relative to [root], and the value
    there. *)
Fixpoint navigate (root : ToonValue) (segments : list string)
  : option (location * ToonValue) :=
  match segments with
  | [] => Some ([], root)
  | segment :: rest =>
      if (first_char segment =? "[")%char then
        match root with
        | TArray elements =>
            if streq segment "[*]" then None else
            match resolve_index segment (length elements) with
            | None => None
            | Some index =>
                e ← elements !! index;
                '(l, v) ← navigate e rest;
                Some (Element index :: l, v)
            end
        | TTabular headers rows =>
            if streq segment "[*]" then None else
            match resolve_index segment (length rows) with
            | None => None
            | Some index => None
            end
        | _ => None
        end
      else
        match root with
        | TObject entries =>
            '(i, e) ← find_key segment O entries;
            '(l, v) ← navigate e rest;
            Some (Entry i :: l, v)
        | _ => None
        end
  end.

Definition path_navigate (root : ToonValue) (path : list string) (segment_index : nat)
  : option (location * ToonValue) :=
  navigate root (drop segment_index path).

Definition toon_path_get (root : ToonValue) (path_str : string)
  : result (option ToonValue) :=
  if streq path_str "$" then Ok (Some root) else
  match path_parse path_str with
  | Ok (Some path) => Ok (snd <$> path_navigate root path O)
  | Ok None => Ok None
  | Err e => Err e
  | Undefined => Undefined
  | Exhausted => Exhausted
  end.

(** The change [f] made through a pointer into the tree. *)
Fixpoint update_at (l : location) (f : ToonValue -> ToonValue) (v : ToonValue)
  : ToonValue :=
  match l, v with
  | [], _ => f v
  | Element i :: l', TArray elements =>
      TArray (alter (update_at l' f) i elements)
  | Entry i :: l', TObject entries =>
      TObject (alter (fun entry => (fst entry, update_at l' f (snd entry))) i entries)
  | _, _ => v
  end.

(** The loop [for (i = 0; i < num_segments - 1; i++) parent =
    path_navigate(parent, path, i)]: [todo] rounds are left, the next is
    [i], and [parent] is at [at_] in the tree. *)
Fixpoint navigate_to_parent (path : list string) (todo i : nat)
  (at_ : location) (parent : ToonValue) : option (location * ToonValue) :=
  match todo with
  | O => Some (at_, parent)
  | S todo' =>
      '(l, v) ← path_navigate parent path i;
      navigate_to_parent path todo' (S i) (at_ ++ l)%list v
  end.

(** What the last segment of [toon_path_set] does to the parent; [None] is
    the return of -1. *)
Definition set_in_parent (last_segment : string) (value parent : ToonValue)
  : option ToonValue :=
  if (first_char last_segment =? "[")%char then
    match parent with
    | TArray elements =>
        index ← resolve_index last_segment (length elements);
        Some (TArray (<[index := value]> elements))
    | _ => None
    end
  else
    match parent with
    | TObject entries =>
        match find_key last_segment O entries with
        | Some (i, _) =>
            Some (TObject (alter (fun entry => (fst entry, value)) i entries))
        | None => Some (TObject (entries ++ [(last_segment, value)]))
        end
    | _ => None
    end.

(** What the last segment of [toon_path_delete] does to the parent. *)
Definition delete_in_parent (last_segment : string) (parent : ToonValue)
  : option ToonValue :=
  if (first_char last_segment =? "[")%char then
    match parent with
    | TArray elements =>
        index ← resolve_index last_segment (length elements);
        Some (TArray (delete index elements))
    | _ => None
    end
  else
    match parent with
    | TObject entries =>
        '(i, _) ← find_key last_segment O entries;
        Some (TObject (delete i entries))
    | _ => None
    end.

(** The part shared by [toon_path_set] and [toon_path_delete]: the return
    value and the tree behind [root] afterwards. *)
Definition change_at_path (change : string -> ToonValue -> option ToonValue)
  (root : ToonValue) (path_str : string) : result (Z * ToonValue) :=
  if streq path_str "$" then Ok (-1, root) else
  match path_parse path_str with
  | Ok (Some path) =>
      match last path with
      | None => Ok (-1, root)
      | Some last_segment =>
          match navigate_to_parent path (length path - 1) O [] root with
          | None => Ok (-1, root)
          | Some (at_, parent) =>
              match change last_segment parent with
              | None => Ok (-1, root)
              | Some parent' => Ok (0, update_at at_ (fun _ => parent') root)
              end
          end
      end
  | Ok None => Ok (-1, root)
  | Err e => Err e
  | Undefined => Undefined
  | Exhausted => Exhausted
  end.

Definition toon_path_set (root : ToonValue) (path_str : string) (value : ToonValue)
  : result (Z * ToonValue) :=
  change_at_path (fun last_segment => set_in_parent last_segment value) root path_str.

Definition toon_path_delete (root : ToonValue) (path_str : string)
  : result (Z * ToonValue) :=
  change_at_path delete_in_parent root path_str.

End Path.

(** ** Structural operations (toon_operations.c) *)

Module Operations.
Import Libc.

Fixpoint toon_value_copy (src : ToonValue) : ToonValue :=
  match src with
  | TNull => TNull
  | TBoolean b => TBoolean b
  | TNumber n => TNumber n
  | TString s => TString s
  | TArray elements => TArray (map toon_value_copy elements)
  | TObject entries =>
      TObject (map (fun entry => (fst entry, toon_value_copy (snd entry))) entries)
  | TTabular headers rows => TTabular headers (map (map toon_value_copy) rows)
  end.

(** One round of the loop over the source entries: the entries of the
    target after the source entry [(key, src_value)]. [merge_into t] is the
    target value [t] after [toon_merge(t, src_value)]. *)
Definition merge_entry (merge_into : ToonValue -> ToonValue) (key : string)
  (src_value : ToonValue) (entries : list (string * ToonValue))
  : list (string * ToonValue) :=
  match Path.find_key key O entries with
  | Some (j, target_value) =>
      if is_object target_value && is_object src_value
      then alter (fun entry => (fst entry, merge_into (snd entry))) j entries
      else alter (fun entry => (fst entry, toon_value_copy src_value)) j entries
  | None => entries ++ [(key, toon_value_copy src_value)]
  end.

(** The return value and the target afterwards. *)
Fixpoint toon_merge (target source : ToonValue) {struct source} : Z * ToonValue :=
  match target, source with
  | TObject target_entries, TObject source_entries =>
      (0, TObject
            (fold_left
               (fun entries (entry : string * ToonValue) =>
                  merge_entry (fun t => snd (toon_merge t (snd entry)))
                              (fst entry) (snd entry) entries)
               source_entries target_entries))
  | _, _ => (-1, target)
  end.

End Operations.

(** ** Array operations (toon_operations.c)

    The functions take the pointer that [toon_path_get] returns and change
    the array behind it. Here they return the tree behind [root] as it is
    after the call, next to their return value. An index is a [long]. *)

Module ArrayOperations.
Import Libc Path.

(** [toon_path_get] as the pointer it returns: the place of the value in
    the tree of [root], and the value there. *)
Definition path_target (root : ToonValue) (path_str : string)
  : result (option (location * ToonValue)) :=
  if streq path_str "$" then Ok (Some ([], root)) else
  match path_parse path_str with
  | Ok (Some path) => Ok (path_navigate root path O)
  | Ok None => Ok None
  | Err e => Err e
  | Undefined => Undefined
  | Exhausted => Exhausted
  end.

(** The return value and the tree behind [root] afterwards. [values] holds
    the [num_values] pointers. *)
Definition toon_array_append (root : ToonValue) (path_str : string)
  (values : list ToonValue) : result (Z * ToonValue) :=
  match values with
  | [] => Ok (-1, root)
  | _ =>
      match path_target root path_str with
      | Ok (Some (at_, TArray elements)) =>
          let new_length :=
            to_size_t (Z.of_nat (length elements) + Z.of_nat (length values)) in
          Ok (to_int new_length,
              update_at at_ (fun _ => TArray (elements ++ values)) root)
      | Ok _ => Ok (-1, root)
      | Err e => Err e
      | Undefined => Undefined
      | Exhausted => Exhausted
      end
  end.

(** [if (index < 0) index = len + index;] with [size_t len] and
    [long index]. *)
Definition from_end (len index : Z) : Z :=
  if index <? 0 then to_long (to_size_t (len + index)) else index.

Definition toon_array_insert (root : ToonValue) (path_str : string) (index : Z)
  (value : ToonValue) : result (Z * ToonValue) :=
  match path_target root path_str with
  | Ok (Some (at_, TArray elements)) =>
      let len := Z.of_nat (length elements) in
      let index := from_end len index in
      if (index <? 0) || (len <? to_size_t index) then Ok (-1, root) else
      let i := Z.to_nat index in
      Ok (to_int (to_size_t (len + 1)),
          update_at at_
            (fun _ => TArray (take i elements ++ value :: drop i elements)) root)
  | Ok _ => Ok (-1, root)
  | Err e => Err e
  | Undefined => Undefined
  | Exhausted => Exhausted
  end.

(** The value handed back, [None] for NULL, and the tree afterwards. *)
Definition toon_array_pop (root : ToonValue) (path_str : string) (index : Z)
  : result (option ToonValue * ToonValue) :=
  match path_target root path_str with
  | Ok (Some (at_, TArray elements)) =>
      let len := Z.of_nat (length elements) in
      if len =? 0 then Ok (None, root) else
      let index := from_end len index in
      if (index <? 0) || (len <=? to_size_t index) then Ok (None, root) else
      let i := Z.to_nat index in
      match elements !! i with
      | Some popped =>
          Ok (Some popped, update_at at_ (fun _ => TArray (delete i elements)) root)
      | None => Ok (None, root)
      end
  | Ok _ => Ok (None, root)
  | Err e => Err e
  | Undefined => Undefined
  | Exhausted => Exhausted
  end.

Definition toon_array_length (root : ToonValue) (path_str : string) : result Z :=
  match toon_path_get root path_str with
  | Ok (Some (TArray elements)) => Ok (to_long (Z.of_nat (length elements)))
  | Ok (Some (TTabular _ rows)) => Ok (to_long (Z.of_nat (length rows)))
  | Ok _ => Ok (-1)
  | Err e => Err e
  | Undefined => Undefined
  | Exhausted => Exhausted
  end.

End ArrayOperations.

(** ** Values and documents (toon_memory.c) *)

Module Memory.
Import Libc.

(** [struct ToonDocument] *)
Record ToonDocument : Type := mkToonDocument { root : ToonValue }.

(** The document that [toon_document_create] hands out: its root is the
    value of [toon_value_create(TOON_NULL)]. *)
Definition toon_document_create : ToonDocument := mkToonDocument TNull.

Definition toon_type_string (type : ToonType) : string :=
  match type with
  | TOON_NULL => "null"
  | TOON_BOOLEAN => "boolean"
  | TOON_NUMBER => "number"
  | TOON_STRING => "string"
  | TOON_ARRAY => "array"
  | TOON_OBJECT => "object"
  | TOON_TABULAR_ARRAY => "tabular_array"
  end.

Definition strlen (s : string) : Z := Z.of_nat (String.length s).

(** A loop [for (j = 0; j < n; j++)] over the first [n] elements of a list
    that changes an accumulator. *)
Definition fold_first {A B : Type} (f : B -> A -> B) : nat -> list A -> B -> B :=
  fix go (n : nat) (l : list A) (acc : B) {struct l} : B :=
    match l, n with
    | x :: l', S n' => go n' l' (f acc x)
    | _, _ => acc
    end.

(** [tokens] is a [size_t]: every sum is taken modulo 2^64. *)
Fixpoint toon_estimate_tokens (value : ToonValue) : Z :=
  match value with
  | TNull => 1
  | TBoolean _ => 1
  | TNumber _ => 1
  | TString s => to_size_t (strlen s / 4 + 1)
  | TArray elements =>
      fold_left (fun tokens e => to_size_t (tokens + toon_estimate_tokens e))
                elements 2
  | TObject entries =>
      fold_left (fun tokens (entry : string * ToonValue) =>
                   let tokens := to_size_t (tokens + (strlen (fst entry) / 4 + 2)) in
                   to_size_t (tokens + toon_estimate_tokens (snd entry)))
                entries 0
  | TTabular headers rows =>
      let tokens :=
        fold_left (fun tokens h => to_size_t (tokens + (strlen h / 4 + 1)))
                  headers 3 in
      fold_left (fun tokens row =>
                   fold_first (fun tokens cell =>
                                 to_size_t (tokens + toon_estimate_tokens cell))
                              (length headers) row tokens)
                rows tokens
  end.

End Memory.

(** ** Validation (toon_operations.c) *)

Module Validation.

(** The first element of a list, or of its first [n] elements, that [f]
    rejects, with the reason. *)
Definition first_error {A : Type} (f : A -> option string) : list A -> option string :=
  fix go (l : list A) : option string :=
    match l with
    | [] => None
    | x :: l' => match f x with
                 | Some e => Some e
                 | None => go l'
                 end
    end.

Definition first_error_among {A : Type} (f : A -> option string)
  : nat -> list A -> option string :=
  fix go (n : nat) (l : list A) {struct l} : option string :=
    match l, n with
    | x :: l', S n' => match f x with
                       | Some e => Some e
                       | None => go n' l'
                       end
    | _, _ => None
    end.

(** [None] when the function returns true, and otherwise the text it
    stores in [*error]. The checks for null pointers cannot fail on a
    [ToonValue], which has none. *)
Fixpoint toon_validate (value : ToonValue) : option string :=
  match value with
  | TNull => None
  | TBoolean _ => None
  | TNumber _ => None
  | TString _ => None
  | TArray elements => first_error toon_validate elements
  | TObject entries => first_error (fun entry => toon_validate (snd entry)) entries
  | TTabular headers rows =>
      if (length headers =? 0)%nat then Some "Tabular array has no headers"
      else first_error (first_error_among toon_validate (length headers)) rows
  end.

End Validation.

(** ** The commands of the module (redistoon.c)

    The database of the server is a finite map from the names of the keys
    to what they hold. A command is a function of its arguments, of which
    the first is its own name, and of the database; it returns the database
    afterwards, the reply it sends, and whether it was handed on to the
    replicas. *)

Module Commands.
Import Libc Memory.

(** What a key of the database holds: a document of this module, or a
    value of another type. A key that is not in the map is empty. *)
Inductive key_value : Type :=
| ToonDocumentValue (doc : ToonDocument)
| OtherType.

Abbreviation database := (gmap string key_value).

(** What a command sends back. *)
Inductive reply : Type :=
| WrongArity
| ReplyWithNull
| ReplyWithError (message : string)
| ReplyWithSimpleString (s : string)
| ReplyWithStringBuffer (s : string)
| ReplyWithLongLong (n : Z).

(** The database after a command, its reply, and whether the command was
    handed on to the replicas ([RedisModule_ReplicateVerbatim]). *)
Record outcome : Type := mkOutcome {
  db_after : database;
  sent : reply;
  replicated : bool
}.

Definition REDISMODULE_ERRORMSG_WRONGTYPE : string :=
  "WRONGTYPE Operation against a key holding the wrong kind of value".

(** The bytes of an argument as the C code reads them: up to the first
    NUL. *)
Fixpoint c_str (s : string) : string :=
  match s with
  | EmptyString => EmptyString
  | String c s' => if (c =? NUL)%char then EmptyString else String c (c_str s')
  end.

(** The end of [ToonSet_RedisCommand]: the value is put at the path of the
    document [doc], which the key holds in [db]. *)
Definition set_value_at_path (db : database) (key path : string) (doc : ToonDocument)
  (value : ToonValue) : result outcome :=
  if streq path "$" then
    Ok (mkOutcome (<[key := ToonDocumentValue (mkToonDocument value)]> db)
                  (ReplyWithSimpleString "OK") true)
  else
    match Path.toon_path_set (root doc) path value with
    | Ok (0, root') =>
        Ok (mkOutcome (<[key := ToonDocumentValue (mkToonDocument root')]> db)
                      (ReplyWithSimpleString "OK") true)
    | Ok (_, _) => Ok (mkOutcome db (ReplyWithError "ERR invalid path") false)
    | Err e => Err e
    | Undefined => Undefined
    | Exhausted => Exhausted
    end.

(** TOON.SET key path value *)
Definition ToonSet_RedisCommand (argv : list string) (db : database) : result outcome :=
  match argv with
  | [_; key; path; value_str] =>
      let path := c_str path in
      match Decoder.toon_decode (c_str value_str) with
      | Err error => Ok (mkOutcome db (ReplyWithError error) false)
      | Ok value =>
          match db !! key with
          | None =>
              let doc := toon_document_create in
              set_value_at_path (<[key := ToonDocumentValue doc]> db) key path doc value
          | Some (ToonDocumentValue doc) => set_value_at_path db key path doc value
          | Some OtherType =>
              Ok (mkOutcome db (ReplyWithError REDISMODULE_ERRORMSG_WRONGTYPE) false)
          end
      | Undefined => Undefined
      | Exhausted => Exhausted
      end
  | _ => Ok (mkOutcome db WrongArity false)
  end.

(** The part shared by the commands that read: the arguments [key] and,
    when given, [path], with [$] for a path that is not given; [answer]
    makes the reply of the document. *)
Definition read_command (empty : reply) (answer : ToonDocument -> string -> result reply)
  (with_default_path : bool) (argv : list string) (db : database) : result outcome :=
  let run (key path : string) :=
    match db !! key with
    | None => Ok (mkOutcome db empty false)
    | Some OtherType =>
        Ok (mkOutcome db (ReplyWithError REDISMODULE_ERRORMSG_WRONGTYPE) false)
    | Some (ToonDocumentValue doc) =>
        match answer doc path with
        | Ok r => Ok (mkOutcome db r false)
        | Err e => Err e
        | Undefined => Undefined
        | Exhausted => Exhausted
        end
    end in
  match argv with
  | [_; key] => if with_default_path then run key "$"
                else Ok (mkOutcome db WrongArity false)
  | [_; key; path] => run key (c_str path)
  | _ => Ok (mkOutcome db WrongArity false)
  end.

Definition reply_of_text (text : option string) : result reply :=
  match text with
  | Some s => Ok (ReplyWithStringBuffer s)
  | None => Undefined
  end.

(** TOON.GET key [path] *)
Definition ToonGet_RedisCommand : list string -> database -> result outcome :=
  read_command ReplyWithNull
    (fun doc path =>
       if streq path "$" then reply_of_text (Encoder.toon_encode (root doc) 0)
       else
         match Path.toon_path_get (root doc) path with
         | Ok (Some value) => reply_of_text (Encoder.toon_encode value 0)
         | Ok None => Ok ReplyWithNull
         | Err e => Err e
         | Undefined => Undefined
         | Exhausted => Exhausted
         end)
    true.

(** TOON.DEL key path *)
Definition ToonDel_RedisCommand (argv : list string) (db : database) : result outcome :=
  match argv with
  | [_; key; path] =>
      match db !! key with
      | None => Ok (mkOutcome db (ReplyWithLongLong 0) false)
      | Some OtherType =>
          Ok (mkOutcome db (ReplyWithError REDISMODULE_ERRORMSG_WRONGTYPE) false)
      | Some (ToonDocumentValue doc) =>
          match Path.toon_path_delete (root doc) (c_str path) with
          | Ok (0, root') =>
              Ok (mkOutcome (<[key := ToonDocumentValue (mkToonDocument root')]> db)
                            (ReplyWithLongLong 1) true)
          | Ok (_, _) => Ok (mkOutcome db (ReplyWithLongLong 0) false)
          | Err e => Err e
          | Undefined => Undefined
          | Exhausted => Exhausted
          end
      end
  | _ => Ok (mkOutcome db WrongArity false)
  end.

(** TOON.TYPE key path *)
Definition ToonType_RedisCommand : list string -> database -> result outcome :=
  read_command ReplyWithNull
    (fun doc path =>
       match Path.toon_path_get (root doc) path with
       | Ok (Some value) => Ok (ReplyWithSimpleString (toon_type_string (type_of value)))
       | Ok None => Ok ReplyWithNull
       | Err e => Err e
       | Undefined => Undefined
       | Exhausted => Exhausted
       end)
    false.

(** TOON.TOJSON key [path] *)
Definition ToonToJson_RedisCommand : list string -> database -> result outcome :=
  read_command ReplyWithNull
    (fun doc path =>
       match Path.toon_path_get (root doc) path with
       | Ok (Some value) => reply_of_text (Json.toon_to_json value)
       | Ok None => Ok ReplyWithNull
       | Err e => Err e
       | Undefined => Undefined
       | Exhausted => Exhausted
       end)
    true.

(** TOON.FROMJSON key json *)
Definition ToonFromJson_RedisCommand (argv : list string) (db : database)
  : result outcome :=
  match argv with
  | [_; key; json_str] =>
      match Json.json_to_toon (c_str json_str) with
      | Err error => Ok (mkOutcome db (ReplyWithError error) false)
      | Ok value =>
          match db !! key with
          | Some OtherType =>
              Ok (mkOutcome db (ReplyWithError REDISMODULE_ERRORMSG_WRONGTYPE) false)
          | _ =>
              Ok (mkOutcome (<[key := ToonDocumentValue (mkToonDocument value)]> db)
                            (ReplyWithSimpleString "OK") true)
          end
      | Undefined => Undefined
      | Exhausted => Exhausted
      end
  | _ => Ok (mkOutcome db WrongArity false)
  end.

(** TOON.TOKENCOUNT key [path] *)
Definition ToonTokenCount_RedisCommand : list string -> database -> result outcome :=
  read_command (ReplyWithLongLong 0)
    (fun doc path =>
       match Path.toon_path_get (root doc) path with
       | Ok (Some value) => Ok (ReplyWithLongLong (to_long (toon_estimate_tokens value)))
       | Ok None => Ok (ReplyWithLongLong 0)
       | Err e => Err e
       | Undefined => Undefined
       | Exhausted => Exhausted
       end)
    true.

(** The commands that [RedisModule_OnLoad] registers: name, handler and
    flags. *)
Definition registered_commands
  : list (string * (list string -> database -> result outcome) * string) :=
  [ ("toon.set", ToonSet_RedisCommand, "write deny-oom");
    ("toon.get", ToonGet_RedisCommand, "readonly");
    ("toon.del", ToonDel_RedisCommand, "write");
    ("toon.type", ToonType_RedisCommand, "readonly");
    ("toon.tojson", ToonToJson_RedisCommand, "readonly");
    ("toon.fromjson", ToonFromJson_RedisCommand, "write deny-oom");
    ("toon.tokencount", ToonTokenCount_RedisCommand, "readonly") ].

End Commands.

(** * Properties *)

Import Libc.

(** The number with the integer value [z]. *)
Definition num (z : Z) : ToonValue := TNumber (double_of_Z z).

(** A line feed, and a text between double quotes. *)
Definition nl : string := String LF EmptyString.
Definition q (s : string) : string := Json.json_quoted s.

Fixpoint strings_eqb (a b : list string) : bool :=
  match a, b with
  | [], [] => true
  | x :: a', y :: b' => (x =? y)%string && strings_eqb a' b'
  | _, _ => false
  end.

(** Observational equality of two trees: the same shape and the same scalar
    values. *)
Fixpoint obs_equal (a b : ToonValue) {struct a} : bool :=
  match a, b with
  | TNull, TNull => true
  | TBoolean x, TBoolean y => Bool.eqb x y
  | TNumber x, TNumber y => double_eq x y
  | TString x, TString y => (x =? y)%string
  | TArray xs, TArray ys =>
      (fix all2 (xs ys : list ToonValue) {struct xs} : bool :=
         match xs, ys with
         | [], [] => true
         | x :: xs', y :: ys' => obs_equal x y && all2 xs' ys'
         | _, _ => false
         end) xs ys
  | TObject xs, TObject ys =>
      (fix all2 (xs ys : list (string * ToonValue)) {struct xs} : bool :=
         match xs, ys with
         | [], [] => true
         | (k, x) :: xs', (k', y) :: ys' =>
             (k =? k')%string && obs_equal x y && all2 xs' ys'
         | _, _ => false
         end) xs ys
  | TTabular hs xs, TTabular hs' ys =>
      strings_eqb hs hs' &&
      (fix rows2 (xs ys : list (list ToonValue)) {struct xs} : bool :=
         match xs, ys with
         | [], [] => true
         | r :: xs', r' :: ys' =>
             (fix all2 (r r' : list ToonValue) {struct r} : bool :=
                match r, r' with
                | [], [] => true
                | x :: t, y :: t' => obs_equal x y && all2 t t'
                | _, _ => false
                end) r r' && rows2 xs' ys'
         | _, _ => false
         end) xs ys
  | _, _ => false
  end.

(** ** Round trip through the encoder and the decoder *)

Module RoundTrip.
Import Decoder Encoder.

(** A tree without any string: an array that holds an array that holds
    null. *)
Definition nested : ToonValue := TArray [TArray [TNull]].

Definition nested_text : string := "[1]:" ++ nl ++ "  - [1]: null" ++ nl.

(** An object in an object. *)
Definition inner_object : ToonValue := TObject [("a", TObject [("b", TNull)])].

(** A tabular array of one column and one row. *)
Definition table : ToonValue := TTabular ["h"] [[TNull]].

(** C1. The round trip does not hold. The encoder writes the elements of an
    array of containers as lines that start with a dash, and the decoder
    reads the dash as the sign of a number: [nested] comes back as an array
    that holds the number zero. An object in an object comes back as one
    flat object, and a tabular array as an object whose key is the header
    line. Each of the three texts decodes without an error. *)
Theorem C1_round_trip_fails :
  toon_encode nested 0 = Some nested_text /\
  toon_decode nested_text = Ok (TArray [TNumber (S754_zero false)]) /\
  obs_equal (TArray [TNumber (S754_zero false)]) nested = false /\
  (exists text w, toon_encode inner_object 0 = Some text /\
     toon_decode text = Ok w /\
     w = TObject [("a", TString "b"); ("", TNull)] /\
     obs_equal w inner_object = false) /\
  (exists text w, toon_encode table 0 = Some text /\
     toon_decode text = Ok w /\
     w = TObject [("[1,]{h}", TNull)] /\
     obs_equal w table = false).
Proof.
  split; [vm_compute; reflexivity|].
  split; [vm_compute; reflexivity|].
  split; [vm_compute; reflexivity|].
  split.
  - eexists; eexists.
    split; [vm_compute; reflexivity|].
    split; [vm_compute; reflexivity|].
    split; vm_compute; reflexivity.
  - eexists; eexists.
    split; [vm_compute; reflexivity|].
    split; [vm_compute; reflexivity|].
    split; vm_compute; reflexivity.
Qed.

End RoundTrip.

(** ** The tabular example of the specification *)

Module TabularExample.
Import Decoder Json.

Definition text : string :=
  "[2,]{id,name}:" ++ nl ++ "1,Alice" ++ nl ++ "2,Bob" ++ nl.

Definition expected : ToonValue :=
  TTabular ["id"; "name"] [[num 1; TString "Alice"]; [num 2; TString "Bob"]].

Definition expected_json : string :=
  "[{" ++ q "id" ++ ":1," ++ q "name" ++ ":" ++ q "Alice" ++ "},{"
       ++ q "id" ++ ":2," ++ q "name" ++ ":" ++ q "Bob" ++ "}]".

(** The tabular parser itself reads the text as the specification says, and
    the JSON encoder prints that value as the specification says. *)
Lemma parse_value_reads_table :
  exists p, parse_value 1 (mkParser text text 1 0 None) = Done (PVal expected) p
            /\ Decoder.error p = None /\ Decoder.current p = EmptyString.
Proof. eexists. vm_compute. repeat split. Qed.

Lemma expected_to_json : toon_to_json expected = Some expected_json.
Proof. vm_compute. reflexivity. Qed.

(** C2. [toon_decode] does not reach the tabular parser on this text: the
    first line holds a colon behind a closing brace, the scan for a colon
    only skips a colon behind a closing bracket, and the text is read as an
    object with the header line as its one key and the number 1 as its
    value. No error is reported, and the JSON form is that of the object. *)
Theorem C2_tabular_text_decodes_as_object :
  toon_decode text = Ok (TObject [("[2,]{id,name}", num 1)]) /\
  toon_to_json (TObject [("[2,]{id,name}", num 1)])
    = Some ("{" ++ q "[2,]{id,name}" ++ ":1}") /\
  toon_decode text <> Ok expected.
Proof.
  split; [vm_compute; reflexivity|].
  split; [vm_compute; reflexivity|].
  vm_compute. discriminate.
Qed.

End TabularExample.


(** ** The path engine *)

Module PathProperties.
Import Path.

Lemma to_int_small (z : Z) : - 2 ^ 31 <= z < 2 ^ 31 -> to_int z = z.
Proof.
  intros H. unfold to_int.
  rewrite Z.mod_small; lia.
Qed.

Lemma to_int_range (z : Z) : - 2 ^ 31 <= to_int z < 2 ^ 31.
Proof.
  unfold to_int.
  pose proof (Z.mod_pos_bound (z + 2 ^ 31) (2 ^ 32) ltac:(lia)). lia.
Qed.

Lemma to_int_to_size_t (z : Z) : to_int (to_size_t z) = to_int z.
Proof.
  unfold to_int, to_size_t. f_equal.
  change (2 ^ 64) with (2 ^ 32 * 2 ^ 32).
  Z.div_mod_to_equations. lia.
Qed.

Lemma navigate_app (root : ToonValue) (a b : list string) :
  navigate root (a ++ b) =
  match navigate root a with
  | Some (l, v) =>
      match navigate v b with
      | Some (l', v') => Some ((l ++ l')%list, v')
      | None => None
      end
  | None => None
  end.
Proof.
  revert root. induction a as [|s a IH]; intros root; simpl.
  - destruct (navigate root b) as [[l v]|]; reflexivity.
  - destruct (first_char s =? "[")%char.
    + destruct root; try reflexivity.
      * destruct (streq s "[*]"); [reflexivity|].
        destruct (resolve_index s (length elements)) as [index|]; [|reflexivity].
        destruct (elements !! index) as [e|]; simpl; [|reflexivity].
        rewrite IH.
        destruct (navigate e a) as [[l v]|]; simpl; [|reflexivity].
        destruct (navigate v b) as [[l' v']|]; reflexivity.
      * destruct (streq s "[*]"); [reflexivity|].
        destruct (resolve_index s (length rows)); reflexivity.
    + destruct root; try reflexivity.
      destruct (find_key s 0 entries) as [[i e]|]; simpl; [|reflexivity].
      rewrite IH.
      destruct (navigate e a) as [[l v]|]; simpl; [|reflexivity].
      destruct (navigate v b) as [[l' v']|]; reflexivity.
Qed.

Lemma navigate_tabular (headers : list string) (rows : list (list ToonValue))
  (segment : string) (rest : list string) :
  navigate (TTabular headers rows) (segment :: rest) = None.
Proof.
  simpl. destruct (first_char segment =? "[")%char; [|reflexivity].
  destruct (streq segment "[*]"); [reflexivity|].
  destruct (resolve_index segment (length rows)); reflexivity.
Qed.

(** The element an index addresses in an array of [n] elements: a negative
    index counts from the end, and an index outside the array addresses
    nothing. *)
Definition normalized (n i : Z) : Z := if i <? 0 then n + i else i.

Definition addressed (elements : list ToonValue) (i : Z) : option ToonValue :=
  let k := normalized (Z.of_nat (length elements)) i in
  if (0 <=? k) && (k <? Z.of_nat (length elements))
  then elements !! Z.to_nat k else None.

Ltac zcases :=
  repeat match goal with
         | |- context [?a <? ?b] => destruct (Z.ltb_spec a b)
         | |- context [?a <=? ?b] => destruct (Z.leb_spec a b)
         end; simpl; try reflexivity; try lia.

Lemma resolve_index_spec (segment : string) (n : nat) :
  Z.of_nat n < 2 ^ 31 ->
  resolve_index segment n =
  let k := normalized (Z.of_nat n) (atoi (after_first segment)) in
  if (0 <=? k) && (k <? Z.of_nat n) then Some (Z.to_nat k) else None.
Proof.
  intros Hn. unfold resolve_index, normalized.
  pose proof (to_int_range (strtol10 (after_first segment))) as Hi.
  fold (atoi (after_first segment)) in Hi.
  generalize dependent (atoi (after_first segment)). intros i Hi.
  destruct (Z.ltb_spec i 0) as [Hneg|Hneg]; simpl.
  - rewrite to_int_to_size_t, to_int_small by lia.
    destruct (Z.ltb_spec (Z.of_nat n + i) 0) as [Hlt|Hlt]; simpl.
    + zcases.
    + assert (to_size_t (Z.of_nat n + i) = Z.of_nat n + i) as ->
          by (unfold to_size_t; apply Z.mod_small; lia).
      zcases.
  - assert (to_size_t i = i) as -> by (unfold to_size_t; apply Z.mod_small; lia).
    zcases.
Qed.


Lemma path_parse_not_root (path_str : string) (path : list string) :
  path_parse path_str = Ok (Some path) -> path <> [] -> streq path_str "$" = false.
Proof.
  intros Hp Hne. destruct (streq path_str "$") eqn:Hs; [|reflexivity].
  apply String.eqb_eq in Hs. subst. vm_compute in Hp. congruence.
Qed.

(** The document [{a: [1,2,3]}]. *)
Definition doc_a123 : ToonValue := TObject [("a", TArray [num 1; num 2; num 3])].



(** A change whose last step refuses a tabular array fails on every path
    that enters one. *)
Lemma change_through_tabular (change : string -> ToonValue -> option ToonValue)
  (root : ToonValue) (path_str : string) (prefix rest : list string)
  (at_ : location) (headers : list string) (rows : list (list ToonValue)) :
  (forall seg h r, change seg (TTabular h r) = None) ->
  path_parse path_str = Ok (Some (prefix ++ rest)%list) -> rest <> [] ->
  navigate root prefix = Some (at_, TTabular headers rows) ->
  change_at_path change root path_str = Ok (-1, root).
Proof.
  intros Hch Hp Hrest Hnav. unfold change_at_path.
  rewrite (path_parse_not_root _ _ Hp)
    by (destruct prefix; [destruct rest; [contradiction|discriminate]|discriminate]).
  rewrite Hp.
  destruct (last (prefix ++ rest)) as [last_segment|] eqn:Hlast; [|reflexivity].
  assert (navigate root (prefix ++ rest) = None) as Hfull.
  { rewrite navigate_app, Hnav. destruct rest as [|s rest']; [contradiction|].
    rewrite navigate_tabular. reflexivity. }
  destruct (length (prefix ++ rest) - 1)%nat as [|todo] eqn:Hlen.
  - assert (prefix = []) as ->.
    { destruct prefix as [|a prefix]; [reflexivity|].
      destruct rest; [contradiction|].
      simpl in Hlen. rewrite length_app in Hlen. simpl in Hlen. lia. }
    simpl in Hnav. injection Hnav as _ ->.
    simpl. rewrite Hch. reflexivity.
  - simpl. unfold path_navigate. rewrite drop_0, Hfull. reflexivity.
Qed.

(** C10. From a tabular array no segment leads anywhere: [navigate] gives
    nothing for every segment, index or name, in range or not. So for every
    path of which some segments lead to a tabular array and at least one
    segment is left, [toon_path_get] gives nothing, and [toon_path_set] and
    [toon_path_delete] return -1 and leave the tree as it is. *)
Theorem C10_tabular_rows_not_addressable :
  (forall (headers : list string) (rows : list (list ToonValue))
          (segment : string) (rest : list string),
      navigate (TTabular headers rows) (segment :: rest) = None) /\
  (forall (root : ToonValue) (path_str : string) (prefix rest : list string)
          (at_ : location) (headers : list string) (rows : list (list ToonValue))
          (value : ToonValue),
      path_parse path_str = Ok (Some (prefix ++ rest)%list) -> rest <> [] ->
      navigate root prefix = Some (at_, TTabular headers rows) ->
      toon_path_get root path_str = Ok None /\
      toon_path_set root path_str value = Ok (-1, root) /\
      toon_path_delete root path_str = Ok (-1, root)).
Proof.
  split; [apply navigate_tabular|].
  intros root path_str prefix rest at_ headers rows value Hp Hrest Hnav.
  split; [|split].
  - unfold toon_path_get.
    rewrite (path_parse_not_root _ _ Hp)
      by (destruct prefix; [destruct rest; [contradiction|discriminate]|discriminate]).
    rewrite Hp. unfold path_navigate. rewrite drop_0, navigate_app, Hnav.
    destruct rest as [|s rest']; [contradiction|].
    rewrite navigate_tabular. reflexivity.
  - unfold toon_path_set.
    eapply change_through_tabular; eauto.
    intros seg h r. unfold set_in_parent.
    destruct (first_char seg =? "[")%char; reflexivity.
  - unfold toon_path_delete.
    eapply change_through_tabular; eauto.
    intros seg h r. unfold delete_in_parent.
    destruct (first_char seg =? "[")%char; reflexivity.
Qed.

(** A document with a table. *)
Definition doc_users : ToonValue :=
  TObject [("users", TTabular ["id"; "name"] [[num 1; TString "Alice"];
                                               [num 2; TString "Bob"]])].

(** C10 on a document that holds a table under the key [users]. *)
Lemma C10_tabular_rows_not_addressable_witness :
  toon_path_get doc_users "$.users[0]" = Ok None /\
  toon_path_set doc_users "$.users[0].name" TNull = Ok (-1, doc_users) /\
  toon_path_delete doc_users "$.users[-1]" = Ok (-1, doc_users).
Proof.
  split; [|split].
  - refine (proj1 (proj2 C10_tabular_rows_not_addressable doc_users "$.users[0]"
                     ["users"] ["[0]"] [Entry 0] _ _ TNull _ _ _)).
    + vm_compute; reflexivity.
    + discriminate.
    + vm_compute; reflexivity.
  - refine (proj1 (proj2 (proj2 C10_tabular_rows_not_addressable doc_users
                     "$.users[0].name" ["users"] ["[0]"; "name"] [Entry 0] _ _ TNull
                     _ _ _))).
    + vm_compute; reflexivity.
    + discriminate.
    + vm_compute; reflexivity.
  - refine (proj2 (proj2 (proj2 C10_tabular_rows_not_addressable doc_users
                     "$.users[-1]" ["users"] ["[-1]"] [Entry 0] _ _ TNull
                     _ _ _))).
    + vm_compute; reflexivity.
    + discriminate.
    + vm_compute; reflexivity.
Defined.

(** *** Paths of one segment: the last step acts on the root *)

(** With one segment the loop that looks for the parent does not run, and
    the last step is applied to the root. *)
Lemma change_one_segment (change : string -> ToonValue -> option ToonValue)
  (root : ToonValue) (path_str segment : string) :
  path_parse path_str = Ok (Some [segment]) ->
  change_at_path change root path_str =
  match change segment root with
  | Some root' => Ok (0, root')
  | None => Ok (-1, root)
  end.
Proof.
  intros Hp. unfold change_at_path.
  rewrite (path_parse_not_root _ _ Hp) by discriminate.
  rewrite Hp. simpl. destruct (change segment root); reflexivity.
Qed.

(** The last step of a delete on an array: the element at the index goes,
    the elements before it stay, the elements behind it move down by one. *)
Lemma delete_in_array (segment : string) (elements : list ToonValue) (k : nat) :
  first_char segment = "["%char ->
  resolve_index segment (length elements) = Some k ->
  delete_in_parent segment (TArray elements) = Some (TArray (delete k elements)) /\
  (k < length elements)%nat /\
  length (delete k elements) = (length elements - 1)%nat /\
  (forall j, (j < k)%nat -> delete k elements !! j = elements !! j) /\
  (forall j, (k <= j)%nat -> delete k elements !! j = elements !! S j).
Proof.
  intros Hc Hk.
  assert (k < length elements)%nat as Hlt.
  { unfold resolve_index in Hk.
    set (i := atoi (after_first segment)) in Hk.
    set (index := if i <? 0 then _ else i) in Hk.
    assert (- 2 ^ 31 <= index < 2 ^ 31) as Hr.
    { subst index. destruct (i <? 0); [apply to_int_range|].
      subst i. apply to_int_range. }
    destruct ((index <? 0) || _) eqn:Hb; [discriminate|].
    injection Hk as <-.
    apply orb_false_iff in Hb as [H1 H2].
    apply Z.ltb_ge in H1. apply Z.leb_gt in H2.
    unfold to_size_t in H2. rewrite Z.mod_small in H2 by lia. lia. }
  split.
  { unfold delete_in_parent. rewrite Hc. simpl. rewrite Hk. reflexivity. }
  split; [exact Hlt|].
  split.
  { rewrite length_delete; [lia|]. apply lookup_lt_is_Some. exact Hlt. }
  split.
  - intros j Hj. apply list_lookup_delete_lt. exact Hj.
  - intros j Hj. apply list_lookup_delete_ge. exact Hj.
Qed.

(** The document [{a: [10,20,30]}]. *)
Definition doc_a : ToonValue := TObject [("a", TArray [num 10; num 20; num 30])].

(** The document [{a: [[1,2],[3,4]]}]. *)
Definition doc_nested : ToonValue :=
  TObject [("a", TArray [TArray [num 1; num 2]; TArray [num 3; num 4]])].

(** C6. Deleting index 1 from the array [[10,20,30]] at the root gives
    [[10,30]]. For an array below the root the element the path addresses is
    not the one that goes: the loop that looks for the parent calls
    [path_navigate], which follows the path to its end, so the last segment
    is applied to the addressed element and not to the array that holds it.
    On [{a: [10,20,30]}] the path [$.a[1]] reaches the number 20, which is no
    array: the call returns -1 and the array keeps its three elements. On
    [{a: [[1,2],[3,4]]}] the path [$.a[1]] addresses [[3,4]]; the call
    returns 0 and removes the 4 inside it. *)
Theorem C6_delete_reaches_only_the_root_array :
  toon_path_delete (TArray [num 10; num 20; num 30]) "$[1]"
    = Ok (0, TArray [num 10; num 30]) /\
  toon_path_delete doc_a "$.a[1]" = Ok (-1, doc_a) /\
  toon_path_delete doc_nested "$.a[1]"
    = Ok (0, TObject [("a", TArray [TArray [num 1; num 2]; TArray [num 3]])]).
Proof. repeat split; vm_compute; reflexivity. Qed.

(** The document [{a: {b: 1}}]. *)
Definition doc_ab : ToonValue := TObject [("a", TObject [("b", num 1)])].

(** C7. [toon_path_set] with a path of two segments does not act on the
    parent of the last segment. On [{a: {b: 1}}] the path [$.a.b] names an
    entry of the object under [a], and the call returns -1 with the tree
    unchanged, because the last segment is applied to the number 1; [$.a.c],
    a key not yet there, returns -1 as well because the whole path must
    already lead somewhere; an index in bounds, [$.a[0]] on
    [{a: [10,20,30]}], returns -1. Where the addressed value is itself an
    object with the key, [{a: {b: {b: 1}}}], the entry inside it is
    replaced instead. With one segment the call does what is described:
    [$.c] appends and [$.a] replaces. *)
Theorem C7_set_reaches_only_the_root :
  toon_path_set doc_ab "$.a.b" (num 2) = Ok (-1, doc_ab) /\
  toon_path_set doc_ab "$.a.c" (num 2) = Ok (-1, doc_ab) /\
  toon_path_set doc_a "$.a[0]" (num 2) = Ok (-1, doc_a) /\
  toon_path_set (TObject [("a", TObject [("b", TObject [("b", num 1)])])]) "$.a.b" (num 2)
    = Ok (0, TObject [("a", TObject [("b", TObject [("b", num 2)])])]) /\
  toon_path_set doc_ab "$.c" (num 2)
    = Ok (0, TObject [("a", TObject [("b", num 1)]); ("c", num 2)]) /\
  toon_path_set doc_ab "$.a" (num 2) = Ok (0, TObject [("a", num 2)]).
Proof. repeat split; vm_compute; reflexivity. Qed.

End PathProperties.

(** ** Merge *)

Module MergeProperties.
Import Path Operations.

(** Induction over a tree and the trees it holds. *)
Section Induction.
Variable P : ToonValue -> Prop.
Hypothesis Hnull : P TNull.
Hypothesis Hboolean : forall b, P (TBoolean b).
Hypothesis Hnumber : forall n, P (TNumber n).
Hypothesis Hstring : forall s, P (TString s).
Hypothesis Harray : forall elements, Forall P elements -> P (TArray elements).
Hypothesis Hobject :
  forall entries, Forall (fun entry => P (snd entry)) entries -> P (TObject entries).
Hypothesis Htabular :
  forall headers rows, Forall (Forall P) rows -> P (TTabular headers rows).

Fixpoint ToonValue_tree_ind (v : ToonValue) : P v :=
  match v with
  | TNull => Hnull
  | TBoolean b => Hboolean b
  | TNumber n => Hnumber n
  | TString s => Hstring s
  | TArray elements =>
      Harray elements
        ((fix go (l : list ToonValue) : Forall P l :=
            match l with
            | [] => Forall_nil_2 P
            | x :: l' => Forall_cons_2 P x l' (ToonValue_tree_ind x) (go l')
            end) elements)
  | TObject entries =>
      Hobject entries
        ((fix go (l : list (string * ToonValue)) : Forall (fun e => P (snd e)) l :=
            match l with
            | [] => Forall_nil_2 _
            | x :: l' => Forall_cons_2 _ x l' (ToonValue_tree_ind (snd x)) (go l')
            end) entries)
  | TTabular headers rows =>
      Htabular headers rows
        ((fix rows_go (l : list (list ToonValue)) : Forall (Forall P) l :=
            match l with
            | [] => Forall_nil_2 _
            | r :: l' =>
                Forall_cons_2 _ r l'
                  ((fix go (l : list ToonValue) : Forall P l :=
                      match l with
                      | [] => Forall_nil_2 P
                      | x :: t => Forall_cons_2 P x t (ToonValue_tree_ind x) (go t)
                      end) r)
                  (rows_go l')
            end) rows)
  end.
End Induction.

(** A map that fixes every element fixes the list. *)
Lemma map_id_Forall {A : Type} (f : A -> A) (l : list A) :
  Forall (fun x => f x = x) l -> map f l = l.
Proof. induction 1; simpl; congruence. Qed.

(** The deep copy is a tree equal to its source. *)
Lemma toon_value_copy_equal (v : ToonValue) : toon_value_copy v = v.
Proof.
  induction v using ToonValue_tree_ind; simpl; try reflexivity.
  - f_equal. apply map_id_Forall. assumption.
  - f_equal. apply map_id_Forall.
    eapply Forall_impl; [eassumption|].
    intros [k x] Hx; simpl in *. congruence.
  - f_equal. apply map_id_Forall.
    eapply Forall_impl; [eassumption|].
    intros r Hr. apply map_id_Forall. assumption.
Qed.

(** What [find_key] finds is the first entry of that name. *)
Lemma find_key_lookup (key : string) (entries : list (string * ToonValue))
  (i j : nat) (v : ToonValue) :
  find_key key i entries = Some (j, v) ->
  (i <= j)%nat /\ entries !! (j - i)%nat = Some (key, v) /\
  forall m k x, (m < j - i)%nat -> entries !! m = Some (k, x) -> k <> key.
Proof.
  revert i. induction entries as [|[k x] entries IH]; intros i H; simpl in H.
  - discriminate.
  - destruct (streq k key) eqn:Hk.
    + injection H as <- <-. apply String.eqb_eq in Hk. subst k.
      split; [lia|]. rewrite Nat.sub_diag. split; [reflexivity|].
      intros m k' x' Hm. lia.
    + apply IH in H as (Hle & Hlook & Hbefore).
      split; [lia|].
      replace (j - i)%nat with (S (j - S i)) by lia.
      split; [exact Hlook|].
      intros [|m] k' x' Hm Hl; simpl in Hl.
      * injection Hl as <- <-. intros ->.
        unfold streq in Hk. rewrite String.eqb_refl in Hk. discriminate.
      * eapply Hbefore; [|exact Hl]. lia.
Qed.

Lemma find_key_none (key : string) (entries : list (string * ToonValue)) (i : nat) :
  find_key key i entries = None ->
  forall m k x, entries !! m = Some (k, x) -> k <> key.
Proof.
  revert i. induction entries as [|[k x] entries IH]; intros i H m k' x' Hl.
  - destruct m; discriminate.
  - simpl in H. destruct (streq k key) eqn:Hk; [discriminate|].
    destruct m as [|m]; simpl in Hl.
    + injection Hl as <- <-. intros ->.
      unfold streq in Hk. rewrite String.eqb_refl in Hk. discriminate.
    + eapply IH; eauto.
Qed.

Lemma alter_as_insert {A : Type} (f : A -> A) (l : list A) (i : nat) (x : A) :
  l !! i = Some x -> alter f i l = <[i := f x]> l.
Proof.
  revert i. induction l as [|y l IH]; intros [|i] H; simpl in *; try discriminate.
  - injection H as ->. reflexivity.
  - f_equal. apply IH. exact H.
Qed.

(** The entries of the target after one entry of the source, in the words
    of the specification: the first entry of that name takes the merge of
    the two values when both are objects and the source value otherwise; with
    no entry of that name, the source entry is added at the end. *)
Definition merged_entry (entries : list (string * ToonValue)) (key : string)
  (src_value : ToonValue) : list (string * ToonValue) :=
  match find_key key O entries with
  | Some (j, target_value) =>
      <[j := (key, if is_object target_value && is_object src_value
                   then snd (toon_merge target_value src_value)
                   else src_value)]> entries
  | None => (entries ++ [(key, src_value)])%list
  end.

Lemma merge_entry_merged (key : string) (src_value : ToonValue)
  (entries : list (string * ToonValue)) :
  merge_entry (fun t => snd (toon_merge t src_value)) key src_value entries
  = merged_entry entries key src_value.
Proof.
  unfold merge_entry, merged_entry.
  destruct (find_key key 0 entries) as [[j tv]|] eqn:Hf.
  - apply find_key_lookup in Hf as (_ & Hl & _). rewrite Nat.sub_0_r in Hl.
    destruct (is_object tv && is_object src_value);
      rewrite (alter_as_insert _ _ _ _ Hl); simpl;
      rewrite ?toon_value_copy_equal; reflexivity.
  - rewrite toon_value_copy_equal. reflexivity.
Qed.

Lemma fold_left_ext {A B : Type} (f g : A -> B -> A) (l : list B) (a : A) :
  (forall a b, f a b = g a b) -> fold_left f l a = fold_left g l a.
Proof.
  intros H. revert a. induction l as [|b l IH]; intros a; simpl; [reflexivity|].
  rewrite H. apply IH.
Qed.

(** The example of the specification. *)
Definition merge_target : ToonValue :=
  TObject [("a", TObject [("y", num 2)]); ("b", num 3)].
Definition merge_source : ToonValue := TObject [("a", TObject [("x", num 1)])].
Definition merge_result : ToonValue :=
  TObject [("a", TObject [("y", num 2); ("x", num 1)]); ("b", num 3)].

(** C4. [toon_merge] returns -1 and leaves the target as it is when the
    target or the source is not an object. For two objects it returns 0 and
    goes through the source entries in their order, each time changing the
    target entries as [merged_entry] says: when [find_key] finds an entry of
    the same name (the first one), that entry keeps its place and its name,
    its value becomes the recursive merge when both values are objects and a
    deep copy of the source value otherwise, and every other entry and the
    number of entries stay as they are; when there is none, an entry with
    the key and a deep copy of the source value is added at the end. A deep
    copy is a tree equal to its source ([toon_value_copy_equal]). Merging
    [{a: {x: 1}}] into [{a: {y: 2}, b: 3}] gives [{a: {y: 2, x: 1}, b: 3}]. *)
Theorem C4_merge :
  (forall target source : ToonValue,
      is_object target && is_object source = false ->
      toon_merge target source = (-1, target)) /\
  (forall target_entries source_entries : list (string * ToonValue),
      toon_merge (TObject target_entries) (TObject source_entries)
      = (0, TObject (fold_left (fun entries entry =>
                                  merged_entry entries (fst entry) (snd entry))
                               source_entries target_entries))) /\
  (forall (entries : list (string * ToonValue)) (key : string)
          (src_value target_value : ToonValue) (j : nat),
      find_key key O entries = Some (j, target_value) ->
      entries !! j = Some (key, target_value) /\
      (forall m k x, (m < j)%nat -> entries !! m = Some (k, x) -> k <> key) /\
      length (merged_entry entries key src_value) = length entries /\
      merged_entry entries key src_value !! j
      = Some (key, if is_object target_value && is_object src_value
                   then snd (toon_merge target_value src_value)
                   else toon_value_copy src_value) /\
      (forall m, m <> j ->
                 merged_entry entries key src_value !! m = entries !! m)) /\
  (forall (entries : list (string * ToonValue)) (key : string) (src_value : ToonValue),
      find_key key O entries = None ->
      (forall m k x, entries !! m = Some (k, x) -> k <> key) /\
      merged_entry entries key src_value
      = (entries ++ [(key, toon_value_copy src_value)])%list) /\
  toon_merge merge_target merge_source = (0, merge_result).
Proof.
  split; [|split; [|split; [|split]]].
  - intros target source H.
    destruct target; destruct source; simpl in *; try reflexivity; discriminate.
  - intros te se. simpl. f_equal. f_equal.
    apply fold_left_ext. intros es [k v]. simpl. apply merge_entry_merged.
  - intros entries key sv tv j Hf.
    pose proof (find_key_lookup _ _ _ _ _ Hf) as (_ & Hl & Hb).
    rewrite Nat.sub_0_r in Hl, Hb.
    unfold merged_entry. rewrite Hf. rewrite toon_value_copy_equal.
    split; [exact Hl|]. split; [exact Hb|].
    split; [apply length_insert|].
    split.
    + apply list_lookup_insert_eq. apply lookup_lt_is_Some. eauto.
    + intros m Hm. apply list_lookup_insert_ne. congruence.
  - intros entries key sv Hf.
    split; [eapply find_key_none; eauto|].
    unfold merged_entry. rewrite Hf, toon_value_copy_equal. reflexivity.
  - vm_compute. reflexivity.
Qed.

(** The parts of C4 that have a premise, at concrete values. *)
Lemma C4_merge_witness :
  toon_merge (num 1) merge_source = (-1, num 1) /\
  merged_entry [("a", TObject [("y", num 2)]); ("b", num 3)] "b" TNull !! 1%nat
  = Some ("b", TNull) /\
  merged_entry [("a", num 1)] "c" TNull = [("a", num 1); ("c", TNull)].
Proof.
  split; [|split].
  - apply (proj1 C4_merge). reflexivity.
  - refine (proj1 (proj2 (proj2 (proj2 (proj1 (proj2 (proj2 C4_merge))
             [("a", TObject [("y", num 2)]); ("b", num 3)] "b" TNull (num 3) 1%nat _))))).
    vm_compute; reflexivity.
  - refine (proj2 (proj1 (proj2 (proj2 (proj2 C4_merge))) [("a", num 1)] "c" TNull _)).
    vm_compute; reflexivity.
Defined.

End MergeProperties.

(** ** Promotion of a JSON array to a tabular array *)

Module PromotionProperties.
Import Json.

(** The entries of an object; none for another value. *)
Definition entries_of (v : ToonValue) : list (string * ToonValue) :=
  match v with
  | TObject entries => entries
  | _ => []
  end.

Definition entry_count (v : ToonValue) : nat := length (entries_of v).

(** The condition of the claim: two or more elements, all of them objects,
    all with as many entries as the first. *)
Definition uniform_rows (elements : list ToonValue) : bool :=
  match elements with
  | first :: _ :: _ =>
      forallb is_object elements
      && forallb (fun e => (entry_count e =? entry_count first)%nat) elements
  | _ => false
  end.

(** The condition of the code: that, and a first object that is not
    empty. *)
Definition promoted (elements : list ToonValue) : bool :=
  uniform_rows elements
  && match elements with
     | first :: _ => (0 <? entry_count first)%nat
     | [] => false
     end.

(** The table made of the elements: the keys of the first object, and for
    every object its values in their order. *)
Definition table_of (elements : list ToonValue) : ToonValue :=
  TTabular (match elements with
            | first :: _ => map fst (entries_of first)
            | [] => []
            end)
           (map (fun e => map snd (entries_of e)) elements).

Lemma all_vals_PVal (l : list ToonValue) : all_vals (map PVal l) = Some l.
Proof. induction l as [|v l IH]; simpl; [reflexivity|]. rewrite IH. reflexivity. Qed.

Lemma make_array_PVal (l : list ToonValue) : make_array (map PVal l) = PVal (TArray l).
Proof. unfold make_array. rewrite all_vals_PVal. reflexivity. Qed.

Lemma uniform_objects_PVal (first_len : nat) (rest : list ToonValue) :
  uniform_objects first_len (map PVal rest)
  = Some (forallb (fun e => is_object e && (entry_count e =? first_len)%nat) rest).
Proof.
  induction rest as [|e rest IH]; simpl; [reflexivity|].
  destruct e; simpl; try reflexivity.
  unfold entry_count; simpl.
  destruct (length entries =? first_len)%nat; simpl; [exact IH|reflexivity].
Qed.

Lemma tabular_row_object (first_len : nat) (e : ToonValue) :
  is_object e = true -> entry_count e = first_len ->
  all_vals (tabular_row first_len (PVal e)) = Some (map snd (entries_of e)).
Proof.
  destruct e; try discriminate. intros _ <-. unfold entry_count. simpl.
  rewrite firstn_all.
  induction entries as [|[k v] entries IH]; simpl; [reflexivity|].
  rewrite IH. reflexivity.
Qed.

Lemma all_rows_objects (first_len : nat) (l : list ToonValue) :
  forallb (fun e => is_object e && (entry_count e =? first_len)%nat) l = true ->
  all_rows (map (tabular_row first_len) (map PVal l))
  = Some (map (fun e => map snd (entries_of e)) l).
Proof.
  induction l as [|e l IH]; [reflexivity|].
  intros H. cbn [forallb] in H. apply andb_true_iff in H as [He Hl].
  apply andb_true_iff in He as [Ho Hc]. apply Nat.eqb_eq in Hc.
  cbn [map all_rows].
  rewrite (tabular_row_object _ _ Ho Hc). rewrite (IH Hl). reflexivity.
Qed.

Lemma forallb_split {A : Type} (f g : A -> bool) (l : list A) :
  forallb (fun x => f x && g x) l = forallb f l && forallb g l.
Proof.
  induction l as [|x l IH]; simpl; [reflexivity|]. rewrite IH.
  destruct (f x), (g x), (forallb f l), (forallb g l); reflexivity.
Qed.

(** The choice at the end of [parse_json_array], for elements that were
    parsed without an error. *)
Theorem finish_json_array_spec (elements : list ToonValue) :
  finish_json_array (map PVal elements)
  = Some (PVal (if promoted elements then table_of elements else TArray elements)).
Proof.
  destruct elements as [|e0 [|e1 rest]].
  { reflexivity. }
  { destruct e0; reflexivity. }
  assert (forall l, make_array (PVal e0 :: map PVal l) = PVal (TArray (e0 :: l))) as Harr.
  { intros l. apply (make_array_PVal (e0 :: l)). }
  remember (e1 :: rest) as l eqn:Hl.
  assert ((1 <? length (PVal e0 :: map PVal l))%nat = true) as Hlen.
  { subst l. reflexivity. }
  assert (promoted (e0 :: l)
          = is_object e0
            && forallb (fun e => is_object e && (entry_count e =? entry_count e0)%nat) l
            && (0 <? entry_count e0)%nat) as Hp.
  { subst l. unfold promoted, uniform_rows.
    rewrite forallb_split.
    cbn [forallb]. rewrite Nat.eqb_refl.
    destruct (is_object e0), (is_object e1), (forallb is_object rest); reflexivity. }
  rewrite Hp. clear Hp.
  cbn [map]. unfold finish_json_array. rewrite Hlen.
  destruct e0 as [| | | | |entries|]; cbn [ptype type_of is_type is_object andb];
    rewrite ?Harr; try reflexivity.
  cbn [pobject_length]. change (length entries) with (entry_count (TObject entries)).
  rewrite uniform_objects_PVal.
  set (u := forallb _ l).
  destruct u eqn:Hu; cbn [andb]; [|reflexivity].
  destruct (0 <? entry_count (TObject entries))%nat eqn:Hpos; [|reflexivity].
  unfold make_tabular.
  change (PVal (TObject entries) :: map PVal l)
    with (map PVal (TObject entries :: l)).
  rewrite all_rows_objects; [reflexivity|].
  cbn [forallb is_object andb]. rewrite Nat.eqb_refl. exact Hu.
Qed.

(** Two objects without entries. *)
Definition two_empty_objects : list ToonValue := [TObject []; TObject []].

(** The array [[{},{}]] has two elements, both objects, both with as many
    entries as the first, and it stays a simple array. *)
Lemma C3_counterexample :
  uniform_rows two_empty_objects = true /\
  json_to_toon "[{},{}]" = Ok (TArray two_empty_objects).
Proof. split; vm_compute; reflexivity. Qed.

(** Two objects of two entries with different keys; two objects with one
    and two entries. *)
Definition rows_with_other_keys : string :=
  "[{" ++ q "id" ++ ":1," ++ q "name" ++ ":" ++ q "Alice" ++ "},{"
       ++ q "x" ++ ":2," ++ q "y" ++ ":null}]".

Definition rows_of_other_sizes : string :=
  "[{" ++ q "a" ++ ":1},{" ++ q "a" ++ ":1," ++ q "b" ++ ":2}]".

(** C3, amended. The array that [parse_json_array] has read becomes a
    tabular array exactly when it has two or more elements, every element is
    an object, every element has as many entries as the first one, and the
    first one has at least one entry; the keys are not compared. The headers
    are then the keys of the first object and every row holds the values of
    one object in their order. Otherwise the array stays a simple array. Two
    objects with the keys [id, name] and [x, y] become a table with the
    headers [id, name]; objects with one and with two entries, and a single
    object, stay an array. *)
Theorem C3_promotion :
  (forall elements : list ToonValue,
      finish_json_array (map PVal elements)
      = Some (PVal (if promoted elements then table_of elements
                    else TArray elements))) /\
  (forall elements : list ToonValue,
      promoted elements = true <->
      (2 <= length elements)%nat /\
      (forall e, In e elements -> is_object e = true) /\
      (forall e, In e elements -> entry_count e = entry_count (hd TNull elements)) /\
      (0 < entry_count (hd TNull elements))%nat) /\
  json_to_toon rows_with_other_keys
  = Ok (TTabular ["id"; "name"] [[num 1; TString "Alice"]; [num 2; TNull]]) /\
  json_to_toon rows_of_other_sizes
  = Ok (TArray [TObject [("a", num 1)]; TObject [("a", num 1); ("b", num 2)]]) /\
  json_to_toon ("[{" ++ q "a" ++ ":1}]") = Ok (TArray [TObject [("a", num 1)]]).
Proof.
  split; [exact finish_json_array_spec|].
  split.
  - intros elements. unfold promoted, uniform_rows.
    destruct elements as [|e0 [|e1 rest]].
    + split; [discriminate|]. simpl. lia.
    + split; [discriminate|]. simpl. lia.
    + remember (e0 :: e1 :: rest) as l eqn:Hl.
      assert (hd TNull l = e0) as Hhd by (subst l; reflexivity).
      rewrite Hhd.
      rewrite !andb_true_iff, !forallb_forall, Nat.ltb_lt.
      split.
      * intros [[H1 H2] H3]. split; [subst l; simpl; lia|].
        split; [exact H1|]. split; [|exact H3].
        intros e He. apply Nat.eqb_eq. apply H2. exact He.
      * intros (_ & H1 & H2 & H3). split; [split|]; [exact H1| |exact H3].
        intros e He. apply Nat.eqb_eq. apply H2. exact He.
  - split; [vm_compute; reflexivity|].
    split; vm_compute; reflexivity.
Qed.

End PromotionProperties.

(** ** Quoting of strings *)

Module QuotingProperties.
Import Encoder.

(** The conditions of the specification, in its words. *)
Definition is_keyword (s : string) : Prop := s = "null" \/ s = "true" \/ s = "false".

(** [strtod] reads the string up to its end. *)
Definition parses_fully_as_number (s : string) : Prop :=
  at_end (snd (strtod s)) = true.

(** The first character; NUL for the empty string. *)
Definition first_of (s : string) : ascii :=
  match s with
  | String c _ => c
  | EmptyString => NUL
  end.

Definition outer_whitespace (s : string) : Prop :=
  isspace (first_of s) = true \/ isspace (last_char s) = true.

(** The structural characters, the control characters (the bytes below
    32), and the bytes above 0x7F. *)
Definition structural (c : ascii) : Prop :=
  c = ","%char \/ c = ":"%char \/ c = LF \/ c = CR \/ c = "{"%char \/ c = "}"%char
  \/ c = "["%char \/ c = "]"%char.

Definition control (c : ascii) : Prop := code c < 32.

Definition high_byte (c : ascii) : Prop := 128 <= code c.

(** A string needs quoting: it is empty, is a keyword, parses fully as a
    number, has white space at its start or end, or holds a structural or a
    control character. *)
Definition must_quote (s : string) : Prop :=
  s = EmptyString \/ is_keyword s \/ parses_fully_as_number s \/ outer_whitespace s
  \/ exists c, In c (list_ascii_of_string s) /\ (structural c \/ control c).

(** The test of the loop in [needs_quoting]. *)
Definition special (signed_char : bool) (c : ascii) : bool :=
  (c =? ",")%char || (c =? ":")%char || (c =? LF)%char || (c =? CR)%char
  || (c =? "{")%char || (c =? "}")%char || (c =? "[")%char || (c =? "]")%char
  || (char_value signed_char c <? 32).

Lemma code_bound (c : ascii) : 0 <= code c < 256.
Proof.
  unfold code. pose proof (N_ascii_bounded c). lia.
Qed.


Lemma special_signed (c : ascii) :
  special true c = true <-> structural c \/ control c \/ high_byte c.
Proof.
  unfold special, structural, control, high_byte, char_value. cbn [andb].
  pose proof (code_bound c) as Hc.
  rewrite !orb_true_iff, !Ascii.eqb_eq, Z.ltb_lt.
  destruct (Z.leb_spec 128 (code c)); intuition lia.
Qed.

Lemma has_special_spec (signed_char : bool) (s : string) :
  has_special signed_char s = true
  <-> exists c, In c (list_ascii_of_string s) /\ special signed_char c = true.
Proof.
  induction s as [|c s IH]; simpl.
  - split; [discriminate|]. intros (c & [] & _).
  - fold (special signed_char c). destruct (special signed_char c) eqn:Hc.
    + split; [|reflexivity]. intros _. exists c. split; [left; reflexivity|exact Hc].
    + rewrite IH. split.
      * intros (d & Hin & Hd). exists d. split; [right; exact Hin|exact Hd].
      * intros (d & [<-|Hin] & Hd); [congruence|]. exists d. split; assumption.
Qed.

(** The chain of early returns is a disjunction. *)
Lemma needs_quoting_unfold (signed_char : bool) (s : string) :
  needs_quoting signed_char s =
  at_end s
  || (streq s "null" || streq s "true" || streq s "false")
  || at_end (snd (strtod s))
  || (isspace (first_of s) || isspace (last_char s))
  || has_special signed_char s.
Proof.
  unfold needs_quoting.
  destruct (at_end s) eqn:H1; [reflexivity|].
  destruct (streq s "null" || streq s "true" || streq s "false"); [reflexivity|].
  destruct (at_end (snd (strtod s))); [reflexivity|].
  destruct s as [|c0 s']; [discriminate|].
  cbn [first_of orb].
  destruct (isspace c0 || isspace (last_char (String c0 s'))); reflexivity.
Qed.

Lemma at_end_spec (s : string) :
  at_end s = true <-> s = EmptyString \/ first_of s = NUL.
Proof.
  destruct s as [|c s]; simpl.
  - tauto.
  - rewrite Ascii.eqb_eq. split; [tauto|]. intros [H|H]; [discriminate|exact H].
Qed.

(** A string that starts with NUL holds a control character. *)
Lemma nul_first_control (s : string) :
  s <> EmptyString -> first_of s = NUL ->
  exists c, In c (list_ascii_of_string s) /\ (structural c \/ control c).
Proof.
  destruct s as [|c s]; [contradiction|]. simpl. intros _ ->.
  exists NUL. split; [left; reflexivity|]. right. unfold control. vm_compute. reflexivity.
Qed.


(** X21. Where plain [char] is signed, the strings with a byte above 0x7F need
    quoting as well, and no others. *)
Theorem needs_quoting_signed_char (s : string) :
  needs_quoting true s = true
  <-> must_quote s \/ exists c, In c (list_ascii_of_string s) /\ high_byte c.
Proof.
  rewrite needs_quoting_unfold. unfold must_quote, is_keyword, parses_fully_as_number,
    outer_whitespace, streq.
  rewrite !orb_true_iff, !String.eqb_eq, has_special_spec, at_end_spec.
  setoid_rewrite special_signed.
  split.
  - intros [[[[[H|H]|H]|H]|H]|H]; try tauto.
    + destruct (string_dec s EmptyString) as [He|He]; [tauto|].
      left. do 4 right. apply nul_first_control; assumption.
    + destruct H as (c & Hin & [Hc|[Hc|Hc]]).
      * left. do 4 right. exists c. tauto.
      * left. do 4 right. exists c. tauto.
      * right. exists c. tauto.
  - intros [[H|[H|[H|[H|(c & Hin & Hc)]]]]|(c & Hin & Hc)]; try tauto.
    + right. exists c. tauto.
    + right. exists c. tauto.
Qed.

Lemma length_escape_chars (s : string) :
  (String.length s <= String.length (escape_chars s))%nat.
Proof.
  induction s as [|c s IH]; simpl; [lia|].
  repeat match goal with |- context [if ?b then _ else _] => destruct b end;
    simpl; lia.
Qed.

Lemma length_append (a b : string) :
  String.length (a ++ b) = (String.length a + String.length b)%nat.
Proof. induction a as [|c a IH]; simpl; [reflexivity|]. rewrite IH. reflexivity. Qed.

Lemma length_escape_string (s : string) :
  String.length (escape_string s) = (2 + String.length (escape_chars s))%nat.
Proof.
  unfold escape_string. simpl. rewrite length_append. simpl. lia.
Qed.





End QuotingProperties.

(** ** The limit of 256 children *)

Module LimitProperties.





Section ToonObject.
Import Decoder.








End ToonObject.

Section JsonContainers.
Import Json.












End JsonContainers.




End LimitProperties.

(* ------------------------------------------------------------------ *)
(** ** The recursion budget is enough *)

Section Steady.
Context {S : Type}.
Variable left : S -> nat.

(** From a state with at most [n] characters left, [m] does not exhaust its
    budget, and it leaves no more characters than it found. *)
Definition steady_on {A : Type} (n : nat) (m : M S A) : Prop :=
  forall s, (left s <= n)%nat ->
    match m s with
    | Done _ s' => (left s' <= left s)%nat
    | Fault => True
    | OutOfFuel => False
    end.

Definition steady {A : Type} (m : M S A) : Prop := forall n, steady_on n m.


Lemma steady_on_ret {A : Type} (n : nat) (a : A) : steady_on n (ret a).
Proof. intros s _. simpl. lia. Qed.

Lemma steady_on_bind {A B : Type} (n : nat) (m : M S A) (k : A -> M S B) :
  steady_on n m -> (forall a, steady_on n (k a)) -> steady_on n (bind m k).
Proof.
  intros Hm Hk s Hs. unfold bind. specialize (Hm s Hs).
  destruct (m s) as [a s'| |]; [|exact I|contradiction].
  specialize (Hk a s' ltac:(lia)).
  destruct (k a s') as [b s''| |]; [lia|exact I|contradiction].
Qed.

Lemma steady_on_gets {A : Type} (n : nat) (f : S -> A) : steady_on n (gets f).
Proof. intros s _. simpl. lia. Qed.

Lemma steady_on_get (n : nat) : steady_on n (@get S).
Proof. intros s _. simpl. lia. Qed.

Lemma steady_on_modify (n : nat) (f : S -> S) :
  (forall s, (left (f s) <= left s)%nat) -> steady_on n (modify f).
Proof. intros Hf s _. simpl. apply Hf. Qed.

Lemma steady_on_fault {A : Type} (n : nat) : steady_on n (@fault S A).
Proof. intros s _. exact I. Qed.

(** A computation that depends on what is left: it is enough to look at the
    states one by one. *)
Lemma steady_on_state {A : Type} (n : nat) (m : M S A) :
  (forall s, (left s <= n)%nat -> steady_on (left s) m) -> steady_on n m.
Proof. intros H s Hs. apply (H s Hs s). lia. Qed.

End Steady.

Create HintDb steady.

#[local] Hint Resolve steady_on_ret steady_on_gets steady_on_get steady_on_fault : steady.

(** Splits a computation into its steps, by its syntax. *)
Ltac steady_steps :=
  repeat first
    [ progress intros
    | match goal with
      | |- steady_on _ _ (bind _ _) => apply steady_on_bind
      | |- steady_on _ _ (ret _) => apply steady_on_ret
      | |- steady_on _ _ (gets _) => apply steady_on_gets
      | |- steady_on _ _ get => apply steady_on_get
      | |- steady_on _ _ fault => apply steady_on_fault
      | |- steady_on _ _ (if ?b then _ else _) => destruct b
      | |- steady_on _ _ (match ?x with _ => _ end) => destruct x
      end
    | solve [auto with steady] ].

(** [toon_decode]: every loop of the parser either counts down or reads a
    character, and [parse_value] is entered again only after a character was
    read, so a budget of one more than the length of the text is enough. *)
Module DecoderProgress.
Import Decoder.

Definition left (p : Parser) : nat := String.length (current p).

Abbreviation steady_on := (steady_on left).

Lemma steady_on_peek (n : nat) : steady_on n peek.
Proof. apply steady_on_gets. Qed.

Lemma steady_on_input_left (n : nat) : steady_on n input_left.
Proof. apply steady_on_gets. Qed.

Lemma steady_on_advance (n : nat) : steady_on n advance.
Proof.
  apply steady_on_modify. intros [i c l k e]. unfold left. destruct c; simpl; lia.
Qed.

Lemma steady_on_position (n : nat) (f : Parser -> Parser) :
  (forall p, current (f p) = current p) -> steady_on n (modify f).
Proof. intros H. apply steady_on_modify. intros p. unfold left. rewrite H. lia. Qed.

Lemma steady_on_set_error (n : nat) (message : string) : steady_on n (set_error message).
Proof.
  apply steady_on_position. intros p. destruct (error p); reflexivity.
Qed.

#[local] Hint Resolve steady_on_peek steady_on_input_left steady_on_advance
  steady_on_set_error : steady.

Lemma steady_on_bump_column (n : nat) :
  steady_on n (modify (fun p => with_column (column p + 1) p)).
Proof. apply steady_on_position. reflexivity. Qed.

Lemma steady_on_new_line (n : nat) :
  steady_on n (modify (fun p => with_column 0 (with_line (line p + 1) p))).
Proof. apply steady_on_position. reflexivity. Qed.

#[local] Hint Resolve steady_on_bump_column steady_on_new_line : steady.

Lemma steady_on_skip_whitespace_loop (n fuel : nat) :
  steady_on n (skip_whitespace_loop fuel).
Proof. induction fuel; cbn [skip_whitespace_loop]; steady_steps. Qed.
#[local] Hint Resolve steady_on_skip_whitespace_loop : steady.

Lemma steady_on_skip_whitespace (n : nat) : steady_on n skip_whitespace.
Proof. unfold skip_whitespace. steady_steps. Qed.
#[local] Hint Resolve steady_on_skip_whitespace : steady.

Lemma steady_on_consume (n : nat) : steady_on n consume.
Proof. unfold consume. steady_steps. Qed.
#[local] Hint Resolve steady_on_consume : steady.




#[local] Hint Resolve steady_on_consume : steady.

Lemma steady_on_quoted_loop (n fuel : nat) (buf : string) (remaining : nat) :
  steady_on n (quoted_loop fuel buf remaining).
Proof.
  revert buf remaining. induction fuel; intros buf remaining; cbn [quoted_loop]; steady_steps.
Qed.
#[local] Hint Resolve steady_on_quoted_loop : steady.

Lemma steady_on_parse_quoted_string (n : nat) : steady_on n parse_quoted_string.
Proof. unfold parse_quoted_string. steady_steps. Qed.
#[local] Hint Resolve steady_on_parse_quoted_string : steady.

Lemma steady_on_unquoted_loop (n fuel : nat) (delimiters buf : string) (remaining : nat) :
  steady_on n (unquoted_loop fuel delimiters buf remaining).
Proof.
  revert buf remaining. induction fuel; intros buf remaining; cbn [unquoted_loop]; steady_steps.
Qed.
#[local] Hint Resolve steady_on_unquoted_loop : steady.

Lemma steady_on_parse_unquoted_string (n : nat) (delimiters : string) :
  steady_on n (parse_unquoted_string delimiters).
Proof. unfold parse_unquoted_string. steady_steps. Qed.
#[local] Hint Resolve steady_on_parse_unquoted_string : steady.

Lemma steady_on_number_loop (n remaining : nat) (buf : string) :
  steady_on n (number_loop remaining buf).
Proof. revert buf. induction remaining; intros buf; cbn [number_loop]; steady_steps. Qed.
#[local] Hint Resolve steady_on_number_loop : steady.

Lemma steady_on_parse_number (n : nat) : steady_on n parse_number.
Proof. unfold parse_number. steady_steps. Qed.
#[local] Hint Resolve steady_on_parse_number : steady.

Lemma steady_on_count_loop (n room : nat) (buf : string) :
  steady_on n (count_loop room buf).
Proof. revert buf. induction room; intros buf; cbn [count_loop]; steady_steps. Qed.
#[local] Hint Resolve steady_on_count_loop : steady.

Lemma steady_on_header_loop (n room : nat) (buf : string) :
  steady_on n (header_loop room buf).
Proof. revert buf. induction room; intros buf; cbn [header_loop]; steady_steps. Qed.
#[local] Hint Resolve steady_on_header_loop : steady.

Lemma steady_on_headers_loop (n room : nat) (headers : list string) :
  steady_on n (headers_loop room headers).
Proof. revert headers. induction room; intros headers; cbn [headers_loop]; steady_steps. Qed.
#[local] Hint Resolve steady_on_headers_loop : steady.

Lemma steady_on_parse_cell (n : nat) : steady_on n parse_cell.
Proof. unfold parse_cell. steady_steps. Qed.
#[local] Hint Resolve steady_on_parse_cell : steady.

Lemma steady_on_cells_loop (n todo : nat) (col num_headers : Z) (cells : list pval) :
  steady_on n (cells_loop todo col num_headers cells).
Proof.
  revert col cells. induction todo; intros col cells; cbn [cells_loop]; steady_steps.
Qed.
#[local] Hint Resolve steady_on_cells_loop : steady.

Lemma steady_on_rows_loop (n todo : nat) (num_headers : Z) (rows : list (list pval)) :
  steady_on n (rows_loop todo num_headers rows).
Proof. revert rows. induction todo; intros rows; cbn [rows_loop]; steady_steps. Qed.
#[local] Hint Resolve steady_on_rows_loop : steady.

Lemma steady_on_parse_tabular_array (n : nat) : steady_on n parse_tabular_array.
Proof. unfold parse_tabular_array. steady_steps. Qed.
#[local] Hint Resolve steady_on_parse_tabular_array : steady.



Lemma steady_on_key_loop (n room : nat) (buf : string) :
  steady_on n (key_loop room buf).
Proof. revert buf. induction room; intros buf; cbn [key_loop]; steady_steps. Qed.
#[local] Hint Resolve steady_on_key_loop : steady.







End DecoderProgress.

(** [json_to_toon]: the same for the JSON parser, whose recursion goes
    through [parse_json_array] and [parse_json_object], each entered by
    reading its opening bracket. *)
Module JsonProgress.
Import Json.

Definition left (jp : JsonParser) : nat := String.length (current jp).

Abbreviation steady_on := (steady_on left).

Lemma steady_on_json_peek (n : nat) : steady_on n json_peek.
Proof. apply steady_on_gets. Qed.

Lemma steady_on_json_input_left (n : nat) : steady_on n json_input_left.
Proof. apply steady_on_gets. Qed.

Lemma steady_on_json_advance (n : nat) : steady_on n json_advance.
Proof.
  apply steady_on_modify. intros [i c e]. unfold left. destruct c; simpl; lia.
Qed.

Lemma steady_on_json_error (n : nat) (message : string) :
  steady_on n (json_error message).
Proof. apply steady_on_modify. intros jp. unfold left. simpl. lia. Qed.

#[local] Hint Resolve steady_on_json_peek steady_on_json_input_left
  steady_on_json_advance steady_on_json_error : steady.

Lemma steady_on_json_consume (n : nat) : steady_on n json_consume.
Proof. unfold json_consume. steady_steps. Qed.
#[local] Hint Resolve steady_on_json_consume : steady.

Lemma steady_on_skip_json_whitespace_loop (n fuel : nat) :
  steady_on n (skip_json_whitespace_loop fuel).
Proof. induction fuel; cbn [skip_json_whitespace_loop]; steady_steps. Qed.
#[local] Hint Resolve steady_on_skip_json_whitespace_loop : steady.

Lemma steady_on_skip_json_whitespace (n : nat) : steady_on n skip_json_whitespace.
Proof. unfold skip_json_whitespace. steady_steps. Qed.
#[local] Hint Resolve steady_on_skip_json_whitespace : steady.

Lemma strip_prefix_length (str s rest : string) :
  strip_prefix str s = Some rest -> (String.length rest <= String.length s)%nat.
Proof.
  revert s. induction str as [|a str IH]; intros s H; simpl in H.
  - injection H as <-. lia.
  - destruct s as [|b s]; [discriminate|].
    destruct (a =? b)%char; [|discriminate].
    apply IH in H. simpl. lia.
Qed.

Lemma steady_on_json_match (n : nat) (str : string) : steady_on n (json_match str).
Proof.
  intros jp Hjp. unfold json_match, bind, get.
  destruct (strip_prefix str (current jp)) as [rest|] eqn:Hs; simpl; [|lia].
  apply strip_prefix_length in Hs. unfold left. simpl. exact Hs.
Qed.
#[local] Hint Resolve steady_on_json_match : steady.



Lemma steady_on_json_string_loop (n fuel : nat) (buf : string) (remaining : nat) :
  steady_on n (json_string_loop fuel buf remaining).
Proof.
  revert buf remaining.
  induction fuel; intros buf remaining; cbn [json_string_loop]; steady_steps.
Qed.
#[local] Hint Resolve steady_on_json_string_loop : steady.

Lemma steady_on_parse_json_string (n : nat) : steady_on n parse_json_string.
Proof. unfold parse_json_string. steady_steps. Qed.
#[local] Hint Resolve steady_on_parse_json_string : steady.

Lemma steady_on_json_number_loop (n remaining : nat) (buf : string) :
  steady_on n (json_number_loop remaining buf).
Proof.
  revert buf. induction remaining; intros buf; cbn [json_number_loop]; steady_steps.
Qed.
#[local] Hint Resolve steady_on_json_number_loop : steady.

Lemma steady_on_parse_json_number (n : nat) : steady_on n parse_json_number.
Proof. unfold parse_json_number. steady_steps. Qed.
#[local] Hint Resolve steady_on_parse_json_number : steady.








End JsonProgress.

(** ** Strings *)

(** A condition on every character of a string. *)
Fixpoint string_forall (f : ascii -> bool) (s : string) : bool :=
  match s with
  | EmptyString => true
  | String c s' => f c && string_forall f s'
  end.

Lemma append_empty (s : string) : s ++ "" = s.
Proof. induction s as [|c s IH]; simpl; [reflexivity|]. rewrite IH. reflexivity. Qed.

Lemma append_assoc (a b c : string) : (a ++ b) ++ c = a ++ (b ++ c).
Proof. induction a as [|x a IH]; simpl; [reflexivity|]. rewrite IH. reflexivity. Qed.

(** ** Array operations *)

Module ArrayProperties.
Import Path ArrayOperations PathProperties.

Lemma toon_path_get_target (root : ToonValue) (path_str : string) :
  toon_path_get root path_str =
  match path_target root path_str with
  | Ok r => Ok (snd <$> r)
  | Err e => Err e
  | Undefined => Undefined
  | Exhausted => Exhausted
  end.
Proof.
  unfold toon_path_get, path_target.
  destruct (streq path_str "$"); [reflexivity|].
  destruct (path_parse path_str) as [[path|]| | |]; reflexivity.
Qed.

(** A pointer that [toon_path_get] returned, for a value of the tree. *)
Lemma path_target_get (root : ToonValue) (path_str : string) (v : ToonValue) :
  toon_path_get root path_str = Ok (Some v) ->
  exists at_, path_target root path_str = Ok (Some (at_, v)).
Proof.
  rewrite toon_path_get_target.
  destruct (path_target root path_str) as [[[at_ w]|]| | |]; simpl; try discriminate.
  intros [= ->]. exists at_. reflexivity.
Qed.

Lemma find_key_alter (g : ToonValue -> ToonValue) (key : string)
  (entries : list (string * ToonValue)) (n i : nat) (e : ToonValue) :
  find_key key n entries = Some (i, e) ->
  (n <= i)%nat /\
  find_key key n (alter (fun entry => (fst entry, g (snd entry))) (i - n)%nat entries)
  = Some (i, g e).
Proof.
  revert n. induction entries as [|[k v] entries IH]; intros n; simpl; [discriminate|].
  destruct (streq k key) eqn:Hk.
  - intros [= <- <-]. split; [lia|]. rewrite Nat.sub_diag. simpl. rewrite Hk. reflexivity.
  - intros H. destruct (IH _ H) as [Hle Hf]. split; [lia|].
    replace (i - n)%nat with (S (i - S n)) by lia. simpl. rewrite Hk. exact Hf.
Qed.

(** Writing through a pointer and reading along the same path. *)
Lemma navigate_update (segments : list string) (root : ToonValue) (l : location)
  (v v' : ToonValue) :
  navigate root segments = Some (l, v) ->
  navigate (update_at l (fun _ => v') root) segments = Some (l, v').
Proof.
  revert root l. induction segments as [|s rest IH]; intros root l; simpl.
  - intros [= <- <-]. reflexivity.
  - destruct (first_char s =? "[")%char.
    + destruct root; try discriminate.
      * destruct (streq s "[*]"); [discriminate|].
        destruct (resolve_index s (length elements)) as [index|] eqn:Hi; [|discriminate].
        destruct (elements !! index) as [e|] eqn:He; simpl; [|discriminate].
        destruct (navigate e rest) as [[l' w]|] eqn:Hn; simpl; [|discriminate].
        intros [= <- <-]. simpl.
        rewrite length_alter, Hi, list_lookup_alter_eq, He. simpl.
        rewrite (IH _ _ Hn). reflexivity.
      * destruct (streq s "[*]"); [discriminate|].
        destruct (resolve_index s (length rows)); discriminate.
    + destruct root; try discriminate.
      destruct (find_key s 0 entries) as [[i e]|] eqn:Hf; simpl; [|discriminate].
      destruct (navigate e rest) as [[l' w]|] eqn:Hn; simpl; [|discriminate].
      intros [= <- <-]. simpl.
      destruct (find_key_alter (update_at l' (fun _ => v')) _ _ _ _ _ Hf) as [_ Hf'].
      rewrite Nat.sub_0_r in Hf'. rewrite Hf'. simpl.
      rewrite (IH _ _ Hn). reflexivity.
Qed.

Lemma path_target_update (root : ToonValue) (path_str : string) (at_ : location)
  (v v' : ToonValue) :
  path_target root path_str = Ok (Some (at_, v)) ->
  path_target (update_at at_ (fun _ => v') root) path_str = Ok (Some (at_, v')).
Proof.
  unfold path_target. destruct (streq path_str "$").
  - intros [= <- <-]. reflexivity.
  - destruct (path_parse path_str) as [[path|]| | |]; try discriminate.
    unfold path_navigate. intros [= H]. rewrite (navigate_update _ _ _ _ _ H). reflexivity.
Qed.


Lemma alter_fixed {A : Type} (f : A -> A) (l : list A) (i : nat) (x : A) :
  l !! i = Some x -> f x = x -> alter f i l = l.
Proof.
  intros Hl Hf. rewrite <- (list_alter_id id l i) at 2 by reflexivity.
  apply list_alter_ext; [|reflexivity].
  intros y Hy. rewrite Hl in Hy. injection Hy as <-. exact Hf.
Qed.

Lemma find_key_lookup_entry (key : string) (entries : list (string * ToonValue))
  (n i : nat) (e : ToonValue) :
  find_key key n entries = Some (i, e) ->
  exists k, entries !! (i - n)%nat = Some (k, e).
Proof.
  revert n. induction entries as [|[k v] entries IH]; intros n; simpl; [discriminate|].
  destruct (streq k key).
  - intros [= <- <-]. rewrite Nat.sub_diag. exists k. reflexivity.
  - intros H. destruct (find_key_alter id _ _ _ _ _ H) as [Hle _].
    destruct (IH _ H) as [k' Hk'].
    replace (i - n)%nat with (S (i - S n)) by lia. exists k'. exact Hk'.
Qed.

(** Writing back what a pointer points to changes nothing. *)
Lemma update_at_same (segments : list string) (root : ToonValue) (l : location)
  (v : ToonValue) :
  navigate root segments = Some (l, v) -> update_at l (fun _ => v) root = root.
Proof.
  revert root l. induction segments as [|s rest IH]; intros root l; simpl.
  - intros [= <- <-]. reflexivity.
  - destruct (first_char s =? "[")%char.
    + destruct root; try discriminate.
      * destruct (streq s "[*]"); [discriminate|].
        destruct (resolve_index s (length elements)) as [index|] eqn:Hi; [|discriminate].
        destruct (elements !! index) as [e|] eqn:He; simpl; [|discriminate].
        destruct (navigate e rest) as [[l' w]|] eqn:Hn; simpl; [|discriminate].
        intros [= <- <-]. simpl. f_equal.
        apply (alter_fixed _ _ _ e He). apply (IH _ _ Hn).
      * destruct (streq s "[*]"); [discriminate|].
        destruct (resolve_index s (length rows)); discriminate.
    + destruct root; try discriminate.
      destruct (find_key s 0 entries) as [[i e]|] eqn:Hf; simpl; [|discriminate].
      destruct (navigate e rest) as [[l' w]|] eqn:Hn; simpl; [|discriminate].
      intros [= <- <-]. simpl. f_equal.
      destruct (find_key_lookup_entry _ _ _ _ _ Hf) as [k Hk].
      rewrite Nat.sub_0_r in Hk.
      apply (alter_fixed _ _ _ (k, e) Hk). simpl. rewrite (IH _ _ Hn). reflexivity.
Qed.

(** The second of two writes through the same pointer is the one that
    stays. *)
Lemma update_at_twice (l : location) (a b root : ToonValue) :
  update_at l (fun _ => b) (update_at l (fun _ => a) root)
  = update_at l (fun _ => b) root.
Proof.
  revert root. induction l as [|[i|i] l IH]; intros root; [reflexivity| |];
    destruct root; try reflexivity; simpl; f_equal;
    rewrite list_alter_alter_eq; apply list_alter_ext; try reflexivity;
    intros x _; simpl; rewrite IH; reflexivity.
Qed.

Lemma path_target_same (root : ToonValue) (path_str : string) (at_ : location)
  (v : ToonValue) :
  path_target root path_str = Ok (Some (at_, v)) ->
  update_at at_ (fun _ => v) root = root.
Proof.
  unfold path_target. destruct (streq path_str "$").
  - intros [= <- <-]. reflexivity.
  - destruct (path_parse path_str) as [[path|]| | |]; try discriminate.
    unfold path_navigate. intros [= H]. apply (update_at_same _ _ _ _ H).
Qed.

Lemma to_long_small (z : Z) : LONG_MIN <= z <= LONG_MAX -> to_long z = z.
Proof.
  unfold LONG_MIN, LONG_MAX, to_long. intros H. rewrite Z.mod_small; lia.
Qed.

Lemma to_long_to_size_t (z : Z) : to_long (to_size_t z) = to_long z.
Proof.
  unfold to_long, to_size_t. f_equal.
  Z.div_mod_to_equations. lia.
Qed.

Lemma to_size_t_small (z : Z) : 0 <= z < 2 ^ 64 -> to_size_t z = z.
Proof. intros H. unfold to_size_t. apply Z.mod_small. exact H. Qed.

(** The index after [from_end], for an array that fits the memory. *)
Lemma from_end_normalized (len index : Z) :
  0 <= len < 2 ^ 62 -> LONG_MIN <= index <= LONG_MAX ->
  from_end len index = normalized len index.
Proof.
  unfold LONG_MIN, LONG_MAX. intros Hl Hi. unfold from_end, normalized.
  destruct (index <? 0) eqn:Hneg; [|reflexivity].
  apply Z.ltb_lt in Hneg.
  rewrite to_long_to_size_t. apply to_long_small. unfold LONG_MIN, LONG_MAX. lia.
Qed.

Lemma from_end_nonneg (len index : Z) : 0 <= index -> from_end len index = index.
Proof. intros H. unfold from_end. destruct (Z.ltb_spec index 0); [lia|reflexivity]. Qed.

Lemma lookup_insertion {A : Type} (l : list A) (i : nat) (x : A) :
  (i <= length l)%nat -> (take i l ++ x :: drop i l)%list !! i = Some x.
Proof.
  intros H. rewrite lookup_app_r by (rewrite length_take; lia).
  rewrite length_take. replace (i - i `min` length l)%nat with O by lia. reflexivity.
Qed.

Lemma delete_insertion {A : Type} (l : list A) (i : nat) (x : A) :
  (i <= length l)%nat -> delete i (take i l ++ x :: drop i l)%list = l.
Proof.
  intros H. rewrite delete_take_drop.
  rewrite take_app_le by (rewrite length_take; lia).
  rewrite take_take. replace (i `min` i)%nat with i by lia.
  rewrite drop_app_ge by (rewrite length_take; lia).
  rewrite length_take. replace (S i - i `min` length l)%nat with 1%nat by lia.
  simpl. rewrite drop_0. apply take_drop.
Qed.


(** X1. [toon_array_append] on a path that leads to an array: the values are
    put behind the elements in their order, the call returns the new length,
    and [toon_path_get] and [toon_array_length] on the same path then see
    the longer array. *)
Theorem append_then_read (root : ToonValue) (path_str : string)
  (elements values : list ToonValue) :
  toon_path_get root path_str = Ok (Some (TArray elements)) ->
  values <> [] ->
  Z.of_nat (length elements + length values) < 2 ^ 31 ->
  exists root',
    toon_array_append root path_str values
      = Ok (Z.of_nat (length elements + length values), root') /\
    toon_path_get root' path_str = Ok (Some (TArray (elements ++ values))) /\
    toon_array_length root' path_str
      = Ok (Z.of_nat (length elements + length values)).
Proof.
  intros Hget Hne Hlen.
  destruct (path_target_get _ _ _ Hget) as [at_ Ht].
  exists (update_at at_ (fun _ => TArray (elements ++ values)) root).
  assert (toon_path_get (update_at at_ (fun _ => TArray (elements ++ values)) root)
            path_str = Ok (Some (TArray (elements ++ values)))) as Hget'.
  { rewrite toon_path_get_target, (path_target_update _ _ _ _ _ Ht). reflexivity. }
  split; [|split; [exact Hget'|]].
  - unfold toon_array_append. rewrite Ht.
    destruct values as [|v values]; [contradiction|].
    rewrite <- Nat2Z.inj_add.
    rewrite to_size_t_small by lia. rewrite to_int_small by lia. reflexivity.
  - unfold toon_array_length. rewrite Hget'.
    rewrite length_app. rewrite to_long_small; [reflexivity|].
    unfold LONG_MIN, LONG_MAX. lia.
Qed.

(** X1 on the array [[1]] under the key [a]. *)
Lemma append_then_read_witness :
  exists root',
    toon_array_append (TObject [("a", TArray [num 1])]) "$.a" [num 2; num 3]
      = Ok (3, root') /\
    toon_path_get root' "$.a" = Ok (Some (TArray [num 1; num 2; num 3])) /\
    toon_array_length root' "$.a" = Ok 3.
Proof.
  apply (append_then_read (TObject [("a", TArray [num 1])]) "$.a" [num 1]
           [num 2; num 3]).
  - vm_compute; reflexivity.
  - discriminate.
  - simpl; lia.
Defined.

(** X2. [toon_array_insert] on a path that leads to an array of [len]
    elements, with [k] the index counted from the end when it is negative:
    for [0 <= k <= len] the value is put before the element [k] (behind
    the last one for [k = len]) and the call returns [len + 1]; for every
    other index the call returns -1 and the tree stays as it is. So the
    index -1 puts the value before the last element, not behind it. *)
Theorem insert_places_value (root : ToonValue) (path_str : string)
  (elements : list ToonValue) (index : Z) (value : ToonValue) :
  toon_path_get root path_str = Ok (Some (TArray elements)) ->
  LONG_MIN <= index <= LONG_MAX ->
  Z.of_nat (length elements) < 2 ^ 31 - 1 ->
  let len := Z.of_nat (length elements) in
  let k := normalized len index in
  (0 <= k <= len ->
   exists root',
     toon_array_insert root path_str index value = Ok (len + 1, root') /\
     toon_path_get root' path_str
     = Ok (Some (TArray (take (Z.to_nat k) elements
                         ++ value :: drop (Z.to_nat k) elements)))) /\
  (~ 0 <= k <= len ->
   toon_array_insert root path_str index value = Ok (-1, root)).
Proof.
  intros Hget Hi Hlen len k.
  destruct (path_target_get _ _ _ Hget) as [at_ Ht].
  assert (from_end len index = k) as Hk.
  { apply from_end_normalized; [subst len; lia|exact Hi]. }
  assert (LONG_MIN <= k <= LONG_MAX) as Hkr.
  { subst k. unfold normalized, LONG_MIN, LONG_MAX in *.
    destruct (index <? 0) eqn:Hneg; [apply Z.ltb_lt in Hneg; subst len|]; lia. }
  unfold LONG_MIN, LONG_MAX in Hkr.
  split.
  - intros Hin. eexists. split.
    + unfold toon_array_insert. rewrite Ht. fold len. rewrite Hk.
      rewrite (to_size_t_small k) by lia.
      destruct (Z.ltb_spec k 0); [lia|]. destruct (Z.ltb_spec len k); [lia|].
      simpl. rewrite to_size_t_small by (subst len; lia).
      rewrite to_int_small by (subst len; lia). reflexivity.
    + rewrite toon_path_get_target, (path_target_update _ _ _ _ _ Ht). reflexivity.
  - intros Hout. unfold toon_array_insert. rewrite Ht. fold len. rewrite Hk.
    destruct (Z.ltb_spec k 0); [reflexivity|].
    rewrite (to_size_t_small k) by lia.
    destruct (Z.ltb_spec len k); [reflexivity|]. lia.
Qed.

(** X2 at the index -1 of [[1,2,3]], and at the index 4. *)
Lemma insert_places_value_witness :
  (exists root',
     toon_array_insert (TArray [num 1; num 2; num 3]) "$" (-1) TNull = Ok (4, root') /\
     toon_path_get root' "$" = Ok (Some (TArray [num 1; num 2; TNull; num 3]))) /\
  toon_array_insert (TArray [num 1; num 2; num 3]) "$" 4 TNull
  = Ok (-1, TArray [num 1; num 2; num 3]).
Proof.
  split.
  - apply (proj1 (insert_places_value (TArray [num 1; num 2; num 3]) "$"
                    [num 1; num 2; num 3] (-1) TNull eq_refl
                    ltac:(unfold LONG_MIN, LONG_MAX; lia) ltac:(simpl; lia))).
    vm_compute. split; discriminate.
  - apply (proj2 (insert_places_value (TArray [num 1; num 2; num 3]) "$"
                    [num 1; num 2; num 3] 4 TNull eq_refl
                    ltac:(unfold LONG_MIN, LONG_MAX; lia) ltac:(simpl; lia))).
    vm_compute. intros [_ H]. apply H. reflexivity.
Defined.

(** X3. [toon_array_pop] on a path that leads to an array hands back the
    element the index addresses, counted from the end when negative, and
    takes it out of the array, the later elements moving down by one; for an
    index that addresses nothing, and so for every index on an empty array,
    it hands back NULL and the tree stays as it is. *)
Theorem pop_takes_addressed (root : ToonValue) (path_str : string)
  (elements : list ToonValue) (index : Z) :
  toon_path_get root path_str = Ok (Some (TArray elements)) ->
  LONG_MIN <= index <= LONG_MAX ->
  Z.of_nat (length elements) < 2 ^ 62 ->
  let k := normalized (Z.of_nat (length elements)) index in
  (forall e, addressed elements index = Some e ->
   exists root',
     toon_array_pop root path_str index = Ok (Some e, root') /\
     toon_path_get root' path_str
     = Ok (Some (TArray (delete (Z.to_nat k) elements)))) /\
  (addressed elements index = None ->
   toon_array_pop root path_str index = Ok (None, root)).
Proof.
  intros Hget Hi Hlen k.
  destruct (path_target_get _ _ _ Hget) as [at_ Ht].
  assert (from_end (Z.of_nat (length elements)) index = k) as Hk.
  { apply from_end_normalized; [lia|exact Hi]. }
  assert (LONG_MIN <= k <= LONG_MAX) as Hkr.
  { subst k. unfold normalized, LONG_MIN, LONG_MAX in *.
    destruct (index <? 0) eqn:Hneg; [apply Z.ltb_lt in Hneg|]; lia. }
  unfold LONG_MIN, LONG_MAX in Hkr.
  unfold addressed. fold k.
  split.
  - intros e He.
    destruct (Z.leb_spec 0 k); [|discriminate].
    destruct (Z.ltb_spec k (Z.of_nat (length elements))); [|discriminate].
    simpl in He. eexists. split.
    + unfold toon_array_pop. rewrite Ht. rewrite Hk.
      destruct (Z.eqb_spec (Z.of_nat (length elements)) 0); [lia|].
      rewrite (to_size_t_small k) by lia.
      destruct (Z.ltb_spec k 0); [lia|].
      destruct (Z.leb_spec (Z.of_nat (length elements)) k); [lia|].
      simpl. rewrite He. reflexivity.
    + rewrite toon_path_get_target, (path_target_update _ _ _ _ _ Ht). reflexivity.
  - intros Hnone. unfold toon_array_pop. rewrite Ht. rewrite Hk.
    destruct (Z.eqb_spec (Z.of_nat (length elements)) 0); [reflexivity|].
    destruct (Z.ltb_spec k 0); [reflexivity|].
    rewrite (to_size_t_small k) by lia.
    destruct (Z.leb_spec (Z.of_nat (length elements)) k); [reflexivity|].
    exfalso.
    destruct (Z.leb_spec 0 k); [|lia].
    destruct (Z.ltb_spec k (Z.of_nat (length elements))); [|lia].
    simpl in Hnone. apply lookup_ge_None in Hnone. lia.
Qed.

(** X3 at the index -1 of [[1,2,3]] under the key [a], and at the index 3. *)
Lemma pop_takes_addressed_witness :
  (exists root',
     toon_array_pop (TObject [("a", TArray [num 1; num 2; num 3])]) "$.a" (-1)
       = Ok (Some (num 3), root') /\
     toon_path_get root' "$.a" = Ok (Some (TArray [num 1; num 2]))) /\
  toon_array_pop (TObject [("a", TArray [num 1; num 2; num 3])]) "$.a" 3
  = Ok (None, TObject [("a", TArray [num 1; num 2; num 3])]).
Proof.
  split.
  - apply (proj1 (pop_takes_addressed (TObject [("a", TArray [num 1; num 2; num 3])])
                    "$.a" [num 1; num 2; num 3] (-1) ltac:(vm_compute; reflexivity)
                    ltac:(unfold LONG_MIN, LONG_MAX; lia) ltac:(simpl; lia))).
    vm_compute. reflexivity.
  - apply (proj2 (pop_takes_addressed (TObject [("a", TArray [num 1; num 2; num 3])])
                    "$.a" [num 1; num 2; num 3] 3 ltac:(vm_compute; reflexivity)
                    ltac:(unfold LONG_MIN, LONG_MAX; lia) ltac:(simpl; lia))).
    vm_compute. reflexivity.
Defined.

(** X4. A pop undoes an insert: after [toon_array_insert] at an index from 0
    to the length, [toon_array_pop] at the same index hands back the
    inserted value and the tree is what it was before. The same holds for
    an append of one value and a pop at the index -1. *)
Theorem pop_undoes_insert (root : ToonValue) (path_str : string)
  (elements : list ToonValue) (index : Z) (value : ToonValue) :
  toon_path_get root path_str = Ok (Some (TArray elements)) ->
  0 <= index <= Z.of_nat (length elements) ->
  Z.of_nat (length elements) < 2 ^ 31 - 1 ->
  (exists root',
     toon_array_insert root path_str index value
       = Ok (Z.of_nat (length elements) + 1, root') /\
     toon_array_pop root' path_str index = Ok (Some value, root)) /\
  (exists root',
     toon_array_append root path_str [value]
       = Ok (Z.of_nat (length elements) + 1, root') /\
     toon_array_pop root' path_str (-1) = Ok (Some value, root)).
Proof.
  intros Hget Hi Hlen.
  destruct (path_target_get _ _ _ Hget) as [at_ Ht].
  pose proof (path_target_same _ _ _ _ Ht) as Hsame.
  split.
  - eexists. split.
    + unfold toon_array_insert. rewrite Ht. rewrite from_end_nonneg by lia.
      rewrite (to_size_t_small index) by lia.
      destruct (Z.ltb_spec index 0); [lia|].
      destruct (Z.ltb_spec (Z.of_nat (length elements)) index); [lia|].
      simpl. rewrite to_size_t_small by lia. rewrite to_int_small by lia.
      reflexivity.
    + unfold toon_array_pop. rewrite (path_target_update _ _ _ _ _ Ht).
      rewrite length_app, length_take. simpl. rewrite length_drop.
      rewrite from_end_nonneg by lia.
      rewrite (to_size_t_small index) by lia.
      destruct (Z.ltb_spec index 0); [lia|].
      match goal with |- context [?a =? 0] => destruct (Z.eqb_spec a 0); [lia|] end.
      match goal with |- context [?a <=? index] => destruct (Z.leb_spec a index); [lia|] end.
      simpl. rewrite lookup_insertion by lia.
      rewrite delete_insertion by lia.
      rewrite update_at_twice, Hsame. reflexivity.
  - eexists. split.
    + unfold toon_array_append. rewrite Ht. simpl length.
      rewrite to_size_t_small by lia. rewrite to_int_small by lia. reflexivity.
    + unfold toon_array_pop. rewrite (path_target_update _ _ _ _ _ Ht).
      rewrite length_app. simpl length.
      assert (from_end (Z.of_nat (length elements + 1)) (-1)
              = Z.of_nat (length elements)) as ->.
      { rewrite from_end_normalized; unfold normalized, LONG_MIN, LONG_MAX; simpl; lia. }
      rewrite (to_size_t_small (Z.of_nat (length elements))) by lia.
      destruct (Z.eqb_spec (Z.of_nat (length elements + 1)) 0); [lia|].
      destruct (Z.ltb_spec (Z.of_nat (length elements)) 0); [lia|].
      destruct (Z.leb_spec (Z.of_nat (length elements + 1)) (Z.of_nat (length elements)));
        [lia|].
      simpl. rewrite Nat2Z.id.
      rewrite lookup_app_r by lia. rewrite Nat.sub_diag. simpl.
      rewrite delete_take_drop, take_app_length.
      rewrite drop_app_ge by lia.
      replace (S (length elements) - length elements)%nat with 1%nat by lia.
      simpl. rewrite app_nil_r.
      rewrite update_at_twice, Hsame. reflexivity.
Qed.

(** X4 at the index 1 of the array [[1,2]] under the key [a]. *)
Lemma pop_undoes_insert_witness :
  (exists root',
     toon_array_insert (TObject [("a", TArray [num 1; num 2])]) "$.a" 1 TNull
       = Ok (2 + 1, root') /\
     toon_array_pop root' "$.a" 1
       = Ok (Some TNull, TObject [("a", TArray [num 1; num 2])])) /\
  (exists root',
     toon_array_append (TObject [("a", TArray [num 1; num 2])]) "$.a" [TNull]
       = Ok (2 + 1, root') /\
     toon_array_pop root' "$.a" (-1)
       = Ok (Some TNull, TObject [("a", TArray [num 1; num 2])])).
Proof.
  apply (pop_undoes_insert (TObject [("a", TArray [num 1; num 2])]) "$.a"
           [num 1; num 2] 1 TNull).
  - vm_compute; reflexivity.
  - simpl; lia.
  - simpl; lia.
Defined.

(** X5. A tabular array counts as an array for [toon_array_length], which
    returns its number of rows, and for nothing else: on a path that leads to
    a tabular array [toon_array_append] and [toon_array_insert] return -1
    and [toon_array_pop] hands back NULL, with the tree as it was. *)
Theorem tabular_array_has_length_only (root : ToonValue) (path_str : string)
  (headers : list string) (rows : list (list ToonValue))
  (values : list ToonValue) (index : Z) (value : ToonValue) :
  toon_path_get root path_str = Ok (Some (TTabular headers rows)) ->
  Z.of_nat (length rows) <= LONG_MAX ->
  toon_array_length root path_str = Ok (Z.of_nat (length rows)) /\
  toon_array_append root path_str values = Ok (-1, root) /\
  toon_array_insert root path_str index value = Ok (-1, root) /\
  toon_array_pop root path_str index = Ok (None, root).
Proof.
  intros Hget Hlen.
  destruct (path_target_get _ _ _ Hget) as [at_ Ht].
  repeat split.
  - unfold toon_array_length. rewrite Hget. rewrite to_long_small; [reflexivity|].
    unfold LONG_MIN. lia.
  - unfold toon_array_append. rewrite Ht. destruct values; reflexivity.
  - unfold toon_array_insert. rewrite Ht. reflexivity.
  - unfold toon_array_pop. rewrite Ht. reflexivity.
Qed.

(** X5 on the table of two users. *)
Lemma tabular_array_has_length_only_witness :
  toon_array_length doc_users "$.users" = Ok 2 /\
  toon_array_append doc_users "$.users" [TNull] = Ok (-1, doc_users) /\
  toon_array_insert doc_users "$.users" 0 TNull = Ok (-1, doc_users) /\
  toon_array_pop doc_users "$.users" 0 = Ok (None, doc_users).
Proof.
  apply (tabular_array_has_length_only doc_users "$.users" ["id"; "name"]
           [[num 1; TString "Alice"]; [num 2; TString "Bob"]] [TNull] 0 TNull).
  - vm_compute; reflexivity.
  - vm_compute; discriminate.
Defined.

End ArrayProperties.

(** ** The token estimate *)

Module EstimateProperties.
Import Memory MergeProperties PromotionProperties.

Definition zsum (l : list Z) : Z := fold_right Z.add 0 l.

Definition sum_first {A : Type} (f : A -> Z) : nat -> list A -> Z :=
  fix go (n : nat) (l : list A) {struct l} : Z :=
    match l, n with
    | x :: l', S n' => f x + go n' l'
    | _, _ => 0
    end.

(** The sum that [toon_estimate_tokens] computes, over the integers. *)
Fixpoint token_sum (value : ToonValue) : Z :=
  match value with
  | TNull => 1
  | TBoolean _ => 1
  | TNumber _ => 1
  | TString s => strlen s / 4 + 1
  | TArray elements => 2 + zsum (map token_sum elements)
  | TObject entries =>
      zsum (map (fun entry : string * ToonValue =>
                   strlen (fst entry) / 4 + 2 + token_sum (snd entry)) entries)
  | TTabular headers rows =>
      3 + zsum (map (fun h => strlen h / 4 + 1) headers)
        + zsum (map (sum_first token_sum (length headers)) rows)
  end.

Lemma to_size_t_add_l (a b : Z) : to_size_t (to_size_t a + b) = to_size_t (a + b).
Proof. unfold to_size_t. apply Zplus_mod_idemp_l. Qed.

Lemma to_size_t_add_r (a b : Z) : to_size_t (a + to_size_t b) = to_size_t (a + b).
Proof. unfold to_size_t. apply Zplus_mod_idemp_r. Qed.

Lemma to_size_t_idemp (a : Z) : to_size_t (to_size_t a) = to_size_t a.
Proof. unfold to_size_t. apply Z.mod_mod. lia. Qed.

(** A loop that adds to a [size_t] what [G] gives. *)
Lemma fold_left_sum {A : Type} (f : Z -> A -> Z) (G : A -> Z) (l : list A) (a : Z) :
  Forall (fun x => forall t, to_size_t t = t -> f t x = to_size_t (t + G x)) l ->
  to_size_t a = a ->
  fold_left f l a = to_size_t (a + zsum (map G l)).
Proof.
  intros H. revert a. induction H as [|x l Hx _ IH]; intros a Ha; simpl.
  - rewrite Z.add_0_r. symmetry. exact Ha.
  - rewrite (Hx a Ha). rewrite IH by apply to_size_t_idemp.
    rewrite to_size_t_add_l. f_equal. lia.
Qed.

Lemma fold_first_sum {A : Type} (f : Z -> A -> Z) (G : A -> Z) (l : list A)
  (n : nat) (a : Z) :
  Forall (fun x => forall t, to_size_t t = t -> f t x = to_size_t (t + G x)) l ->
  to_size_t a = a ->
  fold_first f n l a = to_size_t (a + sum_first G n l).
Proof.
  intros H. revert n a. induction H as [|x l Hx _ IH]; intros n a Ha; simpl.
  - rewrite Z.add_0_r. symmetry. exact Ha.
  - destruct n as [|n]; [rewrite Z.add_0_r; symmetry; exact Ha|].
    rewrite (Hx a Ha). rewrite IH by apply to_size_t_idemp.
    rewrite to_size_t_add_l. f_equal. lia.
Qed.

(** The estimate is the sum modulo 2^64. *)
Lemma toon_estimate_tokens_sum (v : ToonValue) :
  toon_estimate_tokens v = to_size_t (token_sum v).
Proof.
  induction v as [| | | |elements IH|entries IH|headers rows IH]
    using ToonValue_tree_ind; try reflexivity;
    cbn [toon_estimate_tokens token_sum].
  - apply fold_left_sum; [|reflexivity].
    eapply Forall_impl; [exact IH|]. intros e He t _. simpl in He.
    rewrite He, to_size_t_add_r. reflexivity.
  - rewrite <- (Z.add_0_l (zsum _)).
    apply fold_left_sum; [|reflexivity].
    eapply Forall_impl; [exact IH|]. intros [k e] He t _. simpl in *.
    rewrite He, to_size_t_add_l, to_size_t_add_r. f_equal. lia.
  - rewrite (fold_left_sum _ (fun h => strlen h / 4 + 1) headers 3);
      [|apply Forall_forall; intros h _ t _; reflexivity|reflexivity].
    rewrite (fold_left_sum _ (sum_first token_sum (length headers)) rows);
      [|clear -IH|apply to_size_t_idemp].
    + rewrite to_size_t_add_l. reflexivity.
    + eapply Forall_impl; [exact IH|]. intros row Hrow t Ht. simpl in Hrow.
      apply fold_first_sum; [|exact Ht].
      eapply Forall_impl; [exact Hrow|]. intros e He t' _. simpl in He.
      rewrite He, to_size_t_add_r. reflexivity.
Qed.


Lemma zsum_nonneg (l : list Z) : Forall (fun z => 0 <= z) l -> 0 <= zsum l.
Proof. induction 1; simpl; lia. Qed.

Lemma sum_first_nonneg {A : Type} (f : A -> Z) (n : nat) (l : list A) :
  Forall (fun x => 0 <= f x) l -> 0 <= sum_first f n l.
Proof.
  intros H. revert n. induction H as [|x l Hx _ IH]; intros n; simpl; [lia|].
  destruct n; [lia|]. specialize (IH n). lia.
Qed.

Lemma strlen_quarter (s : string) : 0 <= strlen s / 4.
Proof. unfold strlen. apply Z.div_pos; lia. Qed.

Lemma token_sum_nonneg (v : ToonValue) : 0 <= token_sum v.
Proof.
  induction v as [| | |s|elements IH|entries IH|headers rows IH]
    using ToonValue_tree_ind; cbn [token_sum]; try lia.
  - pose proof (strlen_quarter s). lia.
  - assert (0 <= zsum (map token_sum elements)); [|lia].
    apply zsum_nonneg, Forall_map. exact IH.
  - apply zsum_nonneg, Forall_map.
    eapply Forall_impl; [exact IH|]. intros [k e] He. simpl in *.
    pose proof (strlen_quarter k). lia.
  - assert (0 <= zsum (map (fun h => strlen h / 4 + 1) headers)).
    { apply zsum_nonneg, Forall_map, Forall_forall. intros h _. simpl.
      pose proof (strlen_quarter h). lia. }
    assert (0 <= zsum (map (sum_first token_sum (length headers)) rows)); [|lia].
    apply zsum_nonneg, Forall_map.
    eapply Forall_impl; [exact IH|]. intros row Hrow. simpl.
    apply sum_first_nonneg. exact Hrow.
Qed.

(** The part of an object's sum that its keys give, and the part that its
    values give. *)
Definition key_cost (entries : list (string * ToonValue)) : Z :=
  zsum (map (fun entry => strlen (fst entry) / 4 + 2) entries).

Definition value_sum (entries : list (string * ToonValue)) : Z :=
  zsum (map (fun entry => token_sum (snd entry)) entries).

Lemma token_sum_object (entries : list (string * ToonValue)) :
  token_sum (TObject entries) = key_cost entries + value_sum entries.
Proof.
  cbn [token_sum]. unfold key_cost, value_sum.
  induction entries as [|[k v] entries IH]; simpl; [reflexivity|].
  rewrite IH. lia.
Qed.

Lemma key_cost_lower (entries : list (string * ToonValue)) :
  2 * Z.of_nat (length entries) <= key_cost entries.
Proof.
  unfold key_cost. induction entries as [|[k v] entries IH]; simpl length; simpl zsum; [lia|].
  pose proof (strlen_quarter k). simpl fst. lia.
Qed.

Lemma header_cost (entries : list (string * ToonValue)) :
  zsum (map (fun h => strlen h / 4 + 1) (map fst entries))
  = key_cost entries - Z.of_nat (length entries).
Proof.
  unfold key_cost. induction entries as [|[k v] entries IH]; simpl length; simpl zsum; [lia|].
  simpl in IH. rewrite IH. simpl fst. lia.
Qed.

Lemma row_sum (entries : list (string * ToonValue)) (n : nat) :
  (length entries <= n)%nat ->
  sum_first token_sum n (map snd entries) = value_sum entries.
Proof.
  unfold value_sum. revert n.
  induction entries as [|[k v] entries IH]; intros n Hn; simpl; [reflexivity|].
  destruct n as [|n]; [simpl in Hn; lia|].
  rewrite IH by (simpl in Hn; lia). reflexivity.
Qed.

(** The sums over objects that all have [h] entries. *)
Lemma sums_of_objects (h : nat) (l : list ToonValue) :
  Forall (fun e => is_object e = true /\ entry_count e = h) l ->
  zsum (map token_sum l)
  = zsum (map (fun e => key_cost (entries_of e)) l)
    + zsum (map (sum_first token_sum h) (map (fun e => map snd (entries_of e)) l)) /\
  2 * Z.of_nat h * Z.of_nat (length l) <= zsum (map (fun e => key_cost (entries_of e)) l).
Proof.
  induction 1 as [|e l [Ho Hc] _ [IH1 IH2]]; simpl length; simpl zsum; [lia|].
  destruct e as [| | | | |entries|]; try discriminate.
  cbn [map zsum fold_right]. simpl entries_of in *. unfold entry_count in Hc. simpl in Hc.
  rewrite token_sum_object. rewrite row_sum by lia.
  pose proof (key_cost_lower entries). subst h.
  cbn [map zsum fold_right] in IH1. split; [lia|]. nia.
Qed.

(** X6. The estimate of a table is smaller than the estimate of the array
    of objects it was made of: for the elements that [parse_json_array]
    turns into a tabular array, whatever their keys are,
    [toon_estimate_tokens] gives at least 2 less for the table than for the
    simple array of the same elements, as long as the sum for the array
    stays below 2^64. *)
Theorem table_estimate_is_smaller (elements : list ToonValue) :
  promoted elements = true ->
  token_sum (TArray elements) < 2 ^ 64 ->
  toon_estimate_tokens (table_of elements) + 2
  <= toon_estimate_tokens (TArray elements).
Proof.
  intros Hp Hbound.
  rewrite !toon_estimate_tokens_sum.
  pose proof (token_sum_nonneg (table_of elements)) as Hnn.
  assert (token_sum (table_of elements) + 2 <= token_sum (TArray elements)) as Hle.
  { unfold promoted, uniform_rows in Hp.
    destruct elements as [|first [|second rest]]; try discriminate.
    remember (second :: rest) as others eqn:Ho.
    apply andb_true_iff in Hp as [Hu Hpos].
    apply andb_true_iff in Hu as [Hobj Hcnt].
    apply Nat.ltb_lt in Hpos.
    assert (Forall (fun e => is_object e = true /\ entry_count e = entry_count first)
                   (first :: others)) as Hall.
    { apply Forall_forall. intros e He.
      apply list_elem_of_In in He.
      rewrite forallb_forall in Hobj, Hcnt. split; [apply Hobj, He|].
      apply Nat.eqb_eq, Hcnt, He. }
    destruct (sums_of_objects _ _ Hall) as [Hsum _].
    inversion Hall as [|? ? _ Hothers]; subst.
    destruct (sums_of_objects _ _ Hothers) as [_ Hkeys].
    cbn [token_sum table_of]. rewrite Hsum. rewrite header_cost.
    rewrite length_map. fold (entry_count first).
    cbn [map zsum fold_right]. cbn [map zsum fold_right] in Hkeys.
    simpl length in Hkeys. unfold entry_count in *. nia. }
  unfold to_size_t. rewrite !Z.mod_small; lia.
Qed.

(** X6 on two objects with the keys [id] and [name]. *)
Lemma table_estimate_is_smaller_witness :
  toon_estimate_tokens
    (table_of [TObject [("id", num 1); ("name", TString "Alice")];
               TObject [("id", num 2); ("name", TString "Bob")]]) + 2
  <= toon_estimate_tokens
       (TArray [TObject [("id", num 1); ("name", TString "Alice")];
                TObject [("id", num 2); ("name", TString "Bob")]]).
Proof.
  apply table_estimate_is_smaller.
  - vm_compute; reflexivity.
  - vm_compute; reflexivity.
Defined.

(** X7. [toon_estimate_tokens] gives 0 for the object without entries and
    for no other value, where the sum stays below 2^64. *)
Theorem estimate_zero_only_for_empty_object (v : ToonValue) :
  token_sum v < 2 ^ 64 ->
  (toon_estimate_tokens v = 0 <-> v = TObject []).
Proof.
  intros Hbound. split; [|intros ->; reflexivity].
  rewrite toon_estimate_tokens_sum.
  pose proof (token_sum_nonneg v) as Hnn.
  unfold to_size_t. rewrite Z.mod_small by lia.
  destruct v as [| | |s|elements|entries|headers rows]; cbn [token_sum]; try discriminate.
  - pose proof (strlen_quarter s). lia.
  - pose proof (token_sum_nonneg (TArray elements)) as H. cbn [token_sum] in H.
    assert (0 <= zsum (map token_sum elements)); [|lia].
    apply zsum_nonneg, Forall_map, Forall_forall. intros e _. apply token_sum_nonneg.
  - destruct entries as [|[k e] entries]; [reflexivity|].
    intros H. exfalso. cbn [map zsum fold_right] in H. simpl fst in H. simpl snd in H.
    pose proof (strlen_quarter k). pose proof (token_sum_nonneg e).
    pose proof (token_sum_nonneg (TObject entries)) as Ho. cbn [token_sum] in Ho.
    unfold zsum in *. lia.
  - assert (0 <= zsum (map (fun h => strlen h / 4 + 1) headers)).
    { apply zsum_nonneg, Forall_map, Forall_forall. intros h _. simpl.
      pose proof (strlen_quarter h). lia. }
    assert (0 <= zsum (map (sum_first token_sum (length headers)) rows)); [|lia].
    apply zsum_nonneg, Forall_map, Forall_forall. intros row _.
    apply sum_first_nonneg, Forall_forall. intros e _. apply token_sum_nonneg.
Qed.

(** X7 on the number 7. *)
Lemma estimate_zero_only_for_empty_object_witness :
  toon_estimate_tokens (num 7) = 0 <-> num 7 = TObject [].
Proof.
  apply estimate_zero_only_for_empty_object. vm_compute; reflexivity.
Defined.

End EstimateProperties.

(** ** What a computation returns *)

Section Returns.
Context {S : Type}.

(** Every result of [m] satisfies [P]. *)
Definition returns {A : Type} (P : A -> Prop) (m : M S A) : Prop :=
  forall s, match m s with
            | Done a _ => P a
            | Fault | OutOfFuel => True
            end.

Lemma returns_ret {A : Type} (P : A -> Prop) (a : A) : P a -> returns P (ret a).
Proof. intros H s. exact H. Qed.

Lemma returns_bind {A B : Type} (P : A -> Prop) (Q : B -> Prop) (m : M S A)
  (k : A -> M S B) :
  returns P m -> (forall a, P a -> returns Q (k a)) -> returns Q (bind m k).
Proof.
  intros Hm Hk s. unfold bind. specialize (Hm s).
  destruct (m s) as [a s'| |]; [|exact I|exact I]. apply (Hk a Hm).
Qed.

Lemma returns_bind_any {A B : Type} (Q : B -> Prop) (m : M S A) (k : A -> M S B) :
  (forall a, returns Q (k a)) -> returns Q (bind m k).
Proof.
  intros Hk. apply (returns_bind (fun _ => True)); [|intros a _; apply Hk].
  intros s. destruct (m s); exact I.
Qed.

Lemma returns_fault {A : Type} (P : A -> Prop) : returns P (@fault S A).
Proof. intros s. exact I. Qed.

Lemma returns_out_of_fuel {A : Type} (P : A -> Prop) : returns P (@out_of_fuel S A).
Proof. intros s. exact I. Qed.

End Returns.

Create HintDb returns.

(** Splits a computation into its steps; a step with a known result is
    taken from the hints, the result of any other step is left open. *)
Ltac returns_steps :=
  repeat first
    [ progress intros
    | match goal with
      | |- returns _ (bind _ _) =>
          first [ eapply returns_bind; [solve [eauto with returns]|]
                | apply returns_bind_any ]
      | |- returns _ (ret _) => apply returns_ret
      | |- returns _ fault => apply returns_fault
      | |- returns _ out_of_fuel => apply returns_out_of_fuel
      | |- returns _ (if ?b then _ else _) => destruct b
      | |- returns _ (match ?x with _ => _ end) => destruct x eqn:?
      end ].

(** ** Validation *)

Module ValidationProperties.
Import Json Validation.

(** A value a parser holds passes [toon_validate], where it is complete. *)
Definition valid_pval (pv : pval) : Prop :=
  match pv with
  | PVal v => toon_validate v = None
  | _ => True
  end.

Lemma all_vals_valid (l : list pval) (vs : list ToonValue) :
  all_vals l = Some vs -> Forall valid_pval l -> first_error toon_validate vs = None.
Proof.
  revert vs. induction l as [|pv l IH]; intros vs; simpl.
  - intros [= <-] _. reflexivity.
  - destruct pv as [v| |]; try discriminate.
    destruct (all_vals l) as [vs'|]; [|discriminate]. simpl.
    intros [= <-] H. inversion H as [|? ? Hv Hl]; subst. simpl in *.
    rewrite Hv. apply IH; [reflexivity|exact Hl].
Qed.

Lemma make_array_valid (l : list pval) : Forall valid_pval l -> valid_pval (make_array l).
Proof.
  intros H. unfold make_array. destruct (all_vals l) as [vs|] eqn:Hvs; [|exact I].
  simpl. apply (all_vals_valid _ _ Hvs H).
Qed.

Lemma make_object_valid (l : list (string * pval)) :
  Forall (fun entry => valid_pval (snd entry)) l -> valid_pval (make_object l).
Proof.
  intros H. unfold make_object.
  destruct (all_vals (map snd l)) as [vs|] eqn:Hvs; [|exact I]. simpl.
  revert vs Hvs. induction H as [|[k pv] l Hpv _ IH]; intros vs; simpl.
  - intros [= <-]. reflexivity.
  - destruct pv as [v| |]; try discriminate.
    destruct (all_vals (map snd l)) as [vs'|]; [|discriminate]. simpl.
    intros [= <-]. simpl in *. rewrite Hpv. apply IH. reflexivity.
Qed.

Lemma make_string_valid (s : option string) : valid_pval (make_string s).
Proof. destruct s; simpl; [reflexivity|exact I]. Qed.

Lemma row_valid (entries : list (string * ToonValue)) (n h : nat) :
  first_error (fun entry => toon_validate (snd entry)) entries = None ->
  first_error_among toon_validate h (map snd (take n entries)) = None.
Proof.
  revert n h. induction entries as [|[k v] entries IH]; intros n h; simpl.
  - intros _. destruct n; reflexivity.
  - destruct (toon_validate v) eqn:Hv; [discriminate|]. intros H.
    destruct n as [|n]; simpl; [reflexivity|].
    destruct h as [|h]; [reflexivity|]. rewrite Hv. apply IH. exact H.
Qed.

Lemma tabular_row_vals (n : nat) (e : pval) (r : list ToonValue) :
  all_vals (tabular_row n e) = Some r ->
  exists entries, e = PVal (TObject entries) /\ r = map snd (take n entries).
Proof.
  destruct e as [v| |]; try discriminate.
  destruct v; try discriminate. simpl. intros H. exists entries. split; [reflexivity|].
  revert r H. generalize (take n entries). intros l.
  induction l as [|[k v] l IH]; intros r; simpl.
  - intros [= <-]. reflexivity.
  - destruct (all_vals _) as [vs|] eqn:Hvs; [|discriminate]. simpl.
    intros [= <-]. f_equal. apply IH. reflexivity.
Qed.

Lemma rows_valid (n h : nat) (l : list pval) (rs : list (list ToonValue)) :
  all_rows (map (tabular_row n) l) = Some rs -> Forall valid_pval l ->
  first_error (first_error_among toon_validate h) rs = None.
Proof.
  revert rs. induction l as [|e l IH]; intros rs; simpl.
  - intros [= <-] _. reflexivity.
  - destruct (all_vals (tabular_row n e)) as [r|] eqn:Hr; [|discriminate].
    destruct (all_rows (map (tabular_row n) l)) as [rs'|]; [|discriminate].
    intros [= <-] H. inversion H as [|? ? He Hl]; subst.
    destruct (tabular_row_vals _ _ _ Hr) as (entries & -> & ->).
    simpl in *. rewrite (row_valid _ _ _ He). apply IH; [reflexivity|exact Hl].
Qed.

(** The array or the table that [parse_json_array] makes of valid elements
    is valid: a table is only made of objects that have an entry, and so it
    has a header. *)
Lemma finish_json_array_valid (elements : list pval) (v : pval) :
  Forall valid_pval elements -> finish_json_array elements = Some v -> valid_pval v.
Proof.
  intros H. unfold finish_json_array.
  destruct elements as [|e0 rest]; [intros [= <-]; reflexivity|].
  destruct (ptype e0) as [t0|]; [|discriminate].
  destruct (is_type TOON_OBJECT (Some t0) && (1 <? length (e0 :: rest))%nat);
    [|intros [= <-]; apply make_array_valid, H].
  destruct (uniform_objects (pobject_length e0) rest) as [u|]; [|discriminate].
  destruct (u && (0 <? pobject_length e0)%nat) eqn:Hu;
    [|intros [= <-]; apply make_array_valid, H].
  intros [= <-]. apply andb_true_iff in Hu as [_ Hpos]. apply Nat.ltb_lt in Hpos.
  unfold make_tabular.
  destruct (all_rows _) as [rs|] eqn:Hrs; [|exact I].
  simpl.
  assert (exists entries, e0 = PVal (TObject entries)) as [entries ->].
  { simpl in Hrs. destruct (all_vals (tabular_row (pobject_length e0) e0)) as [r|] eqn:Hr;
      [|discriminate].
    destruct (tabular_row_vals _ _ _ Hr) as (entries & -> & _). exists entries. reflexivity. }
  simpl in Hpos. simpl tabular_headers. rewrite length_map.
  destruct (length entries =? 0)%nat eqn:Hz; [apply Nat.eqb_eq in Hz; lia|].
  apply (rows_valid (length entries) _ (PVal (TObject entries) :: rest) _ Hrs H).
Qed.

Section Parser.
Variable parse_json_value : M JsonParser pval.
Hypothesis parse_json_value_valid : returns valid_pval parse_json_value.
#[local] Hint Resolve parse_json_value_valid : returns.

Lemma json_elements_loop_valid (room : nat) (elements : list pval) :
  Forall valid_pval elements ->
  returns (Forall valid_pval) (json_elements_loop parse_json_value room elements).
Proof.
  revert elements. induction room as [|r IH]; intros elements H;
    cbn [json_elements_loop]; returns_steps; try assumption;
    apply IH, Forall_app; split; [assumption|]; apply Forall_singleton; assumption.
Qed.

#[local] Hint Resolve json_elements_loop_valid Forall_nil_2 : returns.

Lemma parse_json_array_valid : returns valid_pval (parse_json_array parse_json_value).
Proof.
  unfold parse_json_array. returns_steps; try exact I.
  eapply finish_json_array_valid; eassumption.
Qed.

Lemma json_entries_loop_valid (room : nat) (entries : list (string * pval)) :
  Forall (fun entry => valid_pval (snd entry)) entries ->
  returns (fun r => match r with
                    | Some entries => Forall (fun entry => valid_pval (snd entry)) entries
                    | None => True
                    end)
          (json_entries_loop parse_json_value room entries).
Proof.
  revert entries. induction room as [|r IH]; intros entries H;
    cbn [json_entries_loop]; returns_steps; try assumption; try exact I;
    apply IH, Forall_app; split; [assumption|]; apply Forall_singleton; assumption.
Qed.

#[local] Hint Resolve json_entries_loop_valid : returns.

Lemma parse_json_object_valid : returns valid_pval (parse_json_object parse_json_value).
Proof.
  unfold parse_json_object. returns_steps; try exact I.
  apply make_object_valid. assumption.
Qed.

End Parser.

Lemma parse_json_value_valid (fuel : nat) : returns valid_pval (parse_json_value fuel).
Proof.
  induction fuel as [|fuel IH]; cbn [parse_json_value]; [apply returns_out_of_fuel|].
  returns_steps; try exact I; try reflexivity.
  - apply make_string_valid.
  - apply parse_json_object_valid, IH.
  - apply parse_json_array_valid, IH.
  - unfold parse_json_number. returns_steps. reflexivity.
Qed.

(** The text [a: [1,]{}:], a table without a header under the key [a]. *)
Definition headerless : string := "a: [1,]{}:".

(** X8. Every value that [json_to_toon] returns passes [toon_validate]: the
    only check of [toon_validate] that a tree without null pointers can
    fail is the one for a table without headers, and [parse_json_array]
    makes a table only of objects that have an entry. [toon_decode] gives no
    such guarantee: it reads a table without a header where the text has
    one, and that value does not pass. *)
Theorem json_to_toon_validates :
  (forall (json_string : string) (v : ToonValue),
      json_to_toon json_string = Ok v -> toon_validate v = None) /\
  Decoder.toon_decode headerless = Ok (TObject [("a", TTabular [] [[]])]) /\
  toon_validate (TObject [("a", TTabular [] [[]])])
  = Some "Tabular array has no headers".
Proof.
  split; [|split; vm_compute; reflexivity].
  intros json_string v. unfold json_to_toon.
  pose proof (parse_json_value_valid (Datatypes.S (String.length json_string))
                (mkJsonParser json_string json_string None)) as H.
  destruct (parse_json_value _ _) as [r jp| |]; try discriminate.
  destruct (error jp); [discriminate|].
  destruct r; try discriminate. intros [= <-]. exact H.
Qed.

(** X8 for the array of two objects with the key [id]. *)
Lemma json_to_toon_validates_witness :
  toon_validate (TTabular ["id"] [[num 1]; [num 2]]) = None.
Proof.
  apply (proj1 json_to_toon_validates ("[{" ++ q "id" ++ ":1},{" ++ q "id" ++ ":2}]")).
  vm_compute; reflexivity.
Defined.

End ValidationProperties.

(** ** Paths as texts *)

Module PathTextProperties.
Import Path PathProperties QuotingProperties.

(** The two kinds of segment of a path: [.key] and [[index]]. *)
Inductive segment : Type :=
| Key (key : string)
| Index (body : string).

(** The text of a segment in a path, and the string that [path_parse]
    stores for it. *)
Definition segment_text (s : segment) : string :=
  match s with
  | Key key => "." ++ key
  | Index body => "[" ++ body ++ "]"
  end.

Definition stored (s : segment) : string :=
  match s with
  | Key key => key
  | Index body => "[" ++ body ++ "]"
  end.

Definition path_text (segments : list segment) : string :=
  "$" ++ concat_strings (map segment_text segments).

Definition key_char (c : ascii) : bool :=
  negb (c =? NUL)%char && negb ((c =? ".")%char || (c =? "[")%char).

Definition index_char (c : ascii) : bool :=
  negb (c =? NUL)%char && negb (c =? "]")%char.

(** A key is not empty and has no point and no opening bracket in it; the
    text between the brackets of an index is not empty and has no closing
    bracket in it; either has at most 255 characters. *)
Definition well_formed (s : segment) : bool :=
  match s with
  | Key key =>
      negb (key =? "")%string && string_forall key_char key
      && (String.length key <=? 255)%nat
  | Index body =>
      negb (body =? "")%string && string_forall index_char body
      && (String.length body <=? 255)%nat
  end.

(** [segment_chars] reads a segment to its end. *)
Lemma segment_chars_exact (stop : ascii -> bool) (room : nat) (k rest : string) :
  string_forall (fun c => negb (c =? NUL)%char && negb (stop c)) k = true ->
  (String.length k <= room)%nat ->
  match rest with
  | EmptyString => True
  | String c _ => stop c = true
  end ->
  segment_chars stop room (k ++ rest) = (k, rest).
Proof.
  revert room. induction k as [|c k IH]; intros room Hk Hroom Hrest; simpl.
  - destruct room as [|r]; [reflexivity|].
    destruct rest as [|c rest]; [reflexivity|].
    simpl. rewrite Hrest, andb_false_r. reflexivity.
  - destruct room as [|r]; [simpl in Hroom; lia|].
    simpl in Hk. apply andb_true_iff in Hk as [Hc Hk]. simpl. rewrite Hc.
    rewrite IH; [reflexivity|exact Hk|simpl in Hroom; lia|exact Hrest].
Qed.

Lemma text_starts_with_stop (segments : list segment) :
  match concat_strings (map segment_text segments) with
  | EmptyString => True
  | String c _ => ((c =? ".")%char || (c =? "[")%char) = true
  end.
Proof. destruct segments as [|[key|body] l]; simpl; [exact I|reflexivity|reflexivity]. Qed.

Lemma not_empty (s : string) : negb (s =? "")%string = true -> s <> "".
Proof. intros H ->. discriminate. Qed.

Lemma path_segments_text (segments : list segment) (fuel : nat) :
  forallb well_formed segments = true ->
  (String.length (concat_strings (map segment_text segments)) <= fuel)%nat ->
  path_segments fuel (concat_strings (map segment_text segments))
  = map stored segments.
Proof.
  revert fuel. induction segments as [|s l IH]; intros fuel Hwf Hfuel.
  - destruct fuel; reflexivity.
  - cbn [forallb] in Hwf. apply andb_true_iff in Hwf as [Hs Hl].
    cbn [map concat_strings fold_right] in *.
    fold (concat_strings (map segment_text l)) in *.
    set (rest := concat_strings (map segment_text l)) in *.
    destruct s as [key|body]; cbn [segment_text stored well_formed] in *;
      apply andb_true_iff in Hs as [Hs Hlen]; apply andb_true_iff in Hs as [Hne Hchars];
      apply not_empty in Hne; apply Nat.leb_le in Hlen.
    + change (("." ++ key) ++ rest) with (String "." (key ++ rest)) in *.
      destruct fuel as [|fuel]; [simpl in Hfuel; lia|].
      cbn [path_segments].
      rewrite (segment_chars_exact _ 255 key rest);
        [|exact Hchars|exact Hlen|apply text_starts_with_stop].
      simpl in Hfuel. rewrite length_append in Hfuel.
      rewrite IH by (try assumption; lia).
      destruct key; [contradiction|reflexivity].
    + replace (("[" ++ body ++ "]") ++ rest)
        with (String "[" (body ++ String "]" rest)) in *
        by (simpl; f_equal; rewrite append_assoc; reflexivity).
      destruct fuel as [|fuel]; [simpl in Hfuel; lia|].
      cbn [path_segments].
      rewrite (segment_chars_exact _ 255 body (String "]" rest));
        [|exact Hchars|exact Hlen|reflexivity].
      simpl in Hfuel. rewrite length_append in Hfuel. simpl in Hfuel.
      rewrite IH by (try assumption; lia).
      destruct body; [contradiction|reflexivity].
Qed.

(** X9. [path_parse] splits a path into its segments: for a path written as
    [$] followed by parts [.key] and [[index]], it stores the keys as they
    are and the indices with their brackets, in the order of the path. The
    table it stores them in has room for 64 segments and is filled without
    a check: a path of more segments makes it write behind the table. *)
Theorem path_parse_text (segments : list segment) :
  forallb well_formed segments = true ->
  path_parse (path_text segments)
  = if (64 <? length segments)%nat then Undefined
    else Ok (Some (map stored segments)).
Proof.
  intros Hwf. unfold path_parse, path_text.
  change ("$" ++ ?s) with (String "$" s). cbv beta iota.
  rewrite path_segments_text by (try assumption; lia).
  rewrite length_map. reflexivity.
Qed.


(** X9 for the path [$.users[0].name], and for a path of 65 segments. *)
Lemma path_parse_text_witness :
  path_parse "$.users[0].name" = Ok (Some ["users"; "[0]"; "name"]) /\
  path_parse (path_text (repeat (Key "a") 65)) = Undefined.
Proof.
  split.
  - apply (path_parse_text [Key "users"; Index "0"; Key "name"]). reflexivity.
  - apply (path_parse_text (repeat (Key "a") 65)). reflexivity.
Defined.

Lemma text_not_root (s : segment) (l : list segment) :
  streq (path_text (s :: l)) "$" = false.
Proof. destruct s; reflexivity. Qed.

(** [toon_path_get] follows the segments of the path. *)
Lemma toon_path_get_text (root : ToonValue) (segments : list segment) :
  forallb well_formed segments = true -> (length segments <= 64)%nat ->
  toon_path_get root (path_text segments)
  = Ok (snd <$> navigate root (map stored segments)).
Proof.
  intros Hwf Hlen. destruct segments as [|s l]; [reflexivity|].
  unfold toon_path_get. rewrite text_not_root, (path_parse_text _ Hwf).
  destruct (Nat.ltb_spec 64 (length (s :: l))); [lia|].
  unfold path_navigate. rewrite drop_0. reflexivity.
Qed.

(** X10. A path can be followed in two steps: [toon_path_get] with the path
    of the segments [a] and then [b] gives what [toon_path_get] with the
    path of [b] gives on the value at the path of [a], and nothing when
    there is no value at the path of [a]. *)
Theorem get_in_two_steps (root : ToonValue) (a b : list segment) :
  forallb well_formed a = true -> forallb well_formed b = true ->
  (length (a ++ b) <= 64)%nat ->
  toon_path_get root (path_text (a ++ b))
  = match toon_path_get root (path_text a) with
    | Ok (Some v) => toon_path_get v (path_text b)
    | r => r
    end.
Proof.
  intros Ha Hb Hlen. rewrite length_app in Hlen.
  rewrite !toon_path_get_text by (rewrite ?forallb_app, ?length_app, ?Ha, ?Hb; try lia; reflexivity).
  rewrite map_app, navigate_app.
  destruct (navigate root (map stored a)) as [[l v]|]; simpl; [|reflexivity].
  rewrite toon_path_get_text by (try assumption; lia).
  destruct (navigate v (map stored b)) as [[l' v']|]; reflexivity.
Qed.

(** X10 on the document that holds the array [[1,2,3]] under the key [a]. *)
Lemma get_in_two_steps_witness :
  toon_path_get doc_a123 "$.a[-1]"
  = match toon_path_get doc_a123 "$.a" with
    | Ok (Some v) => toon_path_get v "$[-1]"
    | r => r
    end.
Proof.
  apply (get_in_two_steps doc_a123 [Key "a"] [Index "-1"]).
  - reflexivity.
  - reflexivity.
  - simpl; lia.
Defined.

Lemma resolve_index_bound (s : string) (n k : nat) :
  resolve_index s n = Some k -> (k < n)%nat.
Proof.
  unfold resolve_index.
  set (i := atoi (after_first s)).
  set (index := if i <? 0 then _ else i).
  assert (- 2 ^ 31 <= index < 2 ^ 31) as Hr.
  { subst index. destruct (i <? 0); [apply to_int_range|].
    subst i. apply to_int_range. }
  destruct ((index <? 0) || _) eqn:Hb; [discriminate|].
  intros [= <-].
  apply orb_false_iff in Hb as [H1 H2].
  apply Z.ltb_ge in H1. apply Z.leb_gt in H2.
  unfold to_size_t in H2. rewrite Z.mod_small in H2 by lia. lia.
Qed.

Lemma find_key_bound (key : string) (entries : list (string * ToonValue))
  (n i : nat) (e : ToonValue) :
  find_key key n entries = Some (i, e) ->
  (n <= i)%nat /\ exists k, entries !! (i - n)%nat = Some (k, e) /\ streq k key = true.
Proof.
  revert n. induction entries as [|[k v] entries IH]; intros n; simpl; [discriminate|].
  destruct (streq k key) eqn:Hk.
  - intros [= <- <-]. split; [lia|]. rewrite Nat.sub_diag. exists k. split; [reflexivity|exact Hk].
  - intros H. destruct (IH _ H) as [Hle (k' & Hk' & Heq)]. split; [lia|].
    replace (i - n)%nat with (S (i - S n)) by lia. exists k'. split; assumption.
Qed.

Lemma find_key_replaced (key : string) (value : ToonValue)
  (entries : list (string * ToonValue)) (n i : nat) (e : ToonValue) :
  find_key key n entries = Some (i, e) ->
  find_key key n (alter (fun entry => (fst entry, value)) (i - n)%nat entries)
  = Some (i, value).
Proof.
  revert n. induction entries as [|[k v] entries IH]; intros n; simpl; [discriminate|].
  destruct (streq k key) eqn:Hk.
  - intros [= <- <-]. rewrite Nat.sub_diag. simpl. rewrite Hk. reflexivity.
  - intros H. destruct (find_key_bound _ _ _ _ _ H) as [Hle _].
    replace (i - n)%nat with (S (i - S n)) by lia. simpl. rewrite Hk. apply IH, H.
Qed.

Lemma find_key_appended (key : string) (value : ToonValue)
  (entries : list (string * ToonValue)) (n : nat) :
  find_key key n entries = None ->
  find_key key n (entries ++ [(key, value)]) = Some ((n + length entries)%nat, value).
Proof.
  revert n. induction entries as [|[k v] entries IH]; intros n; simpl.
  - intros _. unfold streq. rewrite String.eqb_refl. f_equal. f_equal. lia.
  - destruct (streq k key); [discriminate|]. intros H. rewrite (IH _ H).
    f_equal. f_equal. lia.
Qed.

(** The last step of [toon_path_set], and the same segment read
    afterwards. *)
Lemma set_in_parent_read (s : string) (value parent parent' : ToonValue) :
  s <> "[*]" ->
  set_in_parent s value parent = Some parent' ->
  snd <$> navigate parent' [s] = Some value.
Proof.
  intros Hstar. unfold set_in_parent. simpl.
  destruct (first_char s =? "[")%char eqn:Hc.
  - destruct parent; try discriminate.
    destruct (resolve_index s (length elements)) as [index|] eqn:Hi; [|discriminate].
    simpl. intros [= <-].
    destruct (streq s "[*]") eqn:Hw.
    { apply String.eqb_eq in Hw. contradiction. }
    rewrite length_insert, Hi.
    rewrite list_lookup_insert_eq by (apply (resolve_index_bound _ _ _ Hi)).
    reflexivity.
  - destruct parent; try discriminate.
    destruct (find_key s 0 entries) as [[i e]|] eqn:Hf; intros [= <-].
    + pose proof (find_key_replaced s value _ _ _ _ Hf) as H.
      rewrite Nat.sub_0_r in H. rewrite H. reflexivity.
    + rewrite (find_key_appended _ _ _ _ Hf). reflexivity.
Qed.


(** X11. What [toon_path_set] has stored with a path of one segment,
    [toon_path_get] reads with the same path: after a call that returned 0
    the value at the path is the given value. The wildcard [[*]] is set
    apart: as the last segment of [toon_path_set] and [toon_path_delete] it
    is read as the index 0 and so stands for the first element of an array,
    while [toon_path_get] gives nothing for it. *)
Theorem set_then_get (root root' : ToonValue) (s : segment) (value : ToonValue) :
  well_formed s = true -> s <> Index "*" ->
  toon_path_set root (path_text [s]) value = Ok (0, root') ->
  toon_path_get root' (path_text [s]) = Ok (Some value).
Proof.
  intros Hwf Hstar Hset.
  assert (forallb well_formed [s] = true) as Hwfs by (simpl; rewrite Hwf; reflexivity).
  rewrite toon_path_get_text by (try assumption; simpl; lia).
  unfold toon_path_set in Hset.
  rewrite (change_one_segment _ _ _ (stored s)) in Hset
    by (rewrite (path_parse_text _ Hwfs); reflexivity).
  destruct (set_in_parent (stored s) value root) as [r|] eqn:Hs; [|discriminate].
  injection Hset as <-.
  assert (stored s <> "[*]") as Hne.
  { destruct s as [k|b]; simpl.
    - intros Hk. rewrite Hk in Hwf. discriminate.
    - intros [= Hb]. destruct b as [|c b]; [discriminate|].
      injection Hb as -> Hb. destruct b; [|destruct b; discriminate].
      apply Hstar. reflexivity. }
  cbn [map]. rewrite (set_in_parent_read _ _ _ _ Hne Hs). reflexivity.
Qed.

(** X11 for the key [b] on [{a: 1}] and for the index -1 on [[1,2]]. *)
Lemma set_then_get_witness :
  toon_path_get (TObject [("a", num 1); ("b", num 2)]) "$.b" = Ok (Some (num 2)) /\
  toon_path_get (TArray [num 1; TNull]) "$[-1]" = Ok (Some TNull).
Proof.
  split.
  - apply (set_then_get (TObject [("a", num 1)]) _ (Key "b") (num 2)).
    + reflexivity.
    + discriminate.
    + vm_compute; reflexivity.
  - apply (set_then_get (TArray [num 1; num 2]) _ (Index "-1") TNull).
    + reflexivity.
    + discriminate.
    + vm_compute; reflexivity.
Defined.

(** X12. The wildcard [[*]] as the last segment: [toon_path_get] gives
    nothing for it, but [toon_path_set] and [toon_path_delete] read it with
    [atoi] as the index 0, and so replace and remove the first element of
    an array at the root. *)
Theorem wildcard_is_first_element (e value : ToonValue) (elements : list ToonValue) :
  toon_path_get (TArray (e :: elements)) "$[*]" = Ok None /\
  toon_path_set (TArray (e :: elements)) "$[*]" value
  = Ok (0, TArray (value :: elements)) /\
  toon_path_delete (TArray (e :: elements)) "$[*]" = Ok (0, TArray elements).
Proof.
  assert (resolve_index "[*]" (length (e :: elements)) = Some O) as Hi.
  { unfold resolve_index.
    change (atoi (after_first "[*]")) with 0.
    change (0 <? 0) with false. cbv iota.
    change (to_size_t 0) with 0.
    simpl length. destruct (Z.leb_spec (Z.of_nat (S (length elements))) 0); [lia|].
    reflexivity. }
  split; [reflexivity|]. split.
  - unfold toon_path_set.
    rewrite (change_one_segment _ _ _ "[*]") by reflexivity.
    unfold set_in_parent. change (first_char "[*]" =? "[")%char with true.
    cbv iota. rewrite Hi. reflexivity.
  - unfold toon_path_delete.
    rewrite (change_one_segment _ _ _ "[*]") by reflexivity.
    unfold delete_in_parent. change (first_char "[*]" =? "[")%char with true.
    cbv iota. rewrite Hi. reflexivity.
Qed.


(** X13. [toon_path_delete] with a path of one index segment on an array at
    the root: with [k] the index that [atoi] reads, counted from the end
    when it is negative, the element [k] is removed and the elements behind
    it move down by one when [k] is inside the array, and the call returns
    -1 and leaves the array as it is when it is not. *)
Theorem delete_at_root (elements : list ToonValue) (body : string) :
  well_formed (Index body) = true ->
  Z.of_nat (length elements) < 2 ^ 31 ->
  let k := normalized (Z.of_nat (length elements)) (atoi (body ++ "]")) in
  (0 <= k < Z.of_nat (length elements) ->
   toon_path_delete (TArray elements) (path_text [Index body])
   = Ok (0, TArray (delete (Z.to_nat k) elements))) /\
  (~ 0 <= k < Z.of_nat (length elements) ->
   toon_path_delete (TArray elements) (path_text [Index body])
   = Ok (-1, TArray elements)).
Proof.
  intros Hwf Hlen k.
  assert (forallb well_formed [Index body] = true) as Hwfs
      by (cbn [forallb]; rewrite Hwf; reflexivity).
  unfold toon_path_delete.
  rewrite (change_one_segment _ _ _ (stored (Index body)))
    by (rewrite (path_parse_text _ Hwfs); reflexivity).
  unfold delete_in_parent.
  change (first_char (stored (Index body)) =? "[")%char with true. cbv iota.
  rewrite resolve_index_spec by exact Hlen.
  change (after_first (stored (Index body))) with (body ++ "]").
  cbv zeta. fold k.
  split; intros Hk.
  - destruct (Z.leb_spec 0 k); [|lia].
    destruct (Z.ltb_spec k (Z.of_nat (length elements))); [|lia]. reflexivity.
  - destruct (Z.leb_spec 0 k); [|reflexivity].
    destruct (Z.ltb_spec k (Z.of_nat (length elements))); [lia|reflexivity].
Qed.

(** X13 at the indices 1 and -4 of [[10,20,30]]. *)
Lemma delete_at_root_witness :
  toon_path_delete (TArray [num 10; num 20; num 30]) "$[1]"
  = Ok (0, TArray [num 10; num 30]) /\
  toon_path_delete (TArray [num 10; num 20; num 30]) "$[-4]"
  = Ok (-1, TArray [num 10; num 20; num 30]).
Proof.
  split.
  - apply (proj1 (delete_at_root [num 10; num 20; num 30] "1" eq_refl
                    ltac:(simpl; lia))).
    vm_compute. split; [discriminate|reflexivity].
  - apply (proj2 (delete_at_root [num 10; num 20; num 30] "-4" eq_refl
                    ltac:(simpl; lia))).
    vm_compute. intros [H _]. apply H. reflexivity.
Defined.

End PathTextProperties.

(** ** Round trips of strings and numbers *)

Module StringProperties.
Import QuotingProperties.

(** A C string has no NUL inside. *)
Definition c_string (s : string) : bool := string_forall (fun c => negb (c =? NUL)%char) s.

(** The first [n] characters of a string. *)
Fixpoint string_take (n : nat) (s : string) : string :=
  match n, s with
  | S n', String c s' => String c (string_take n' s')
  | _, _ => EmptyString
  end.

Lemma string_take_all (n : nat) (s : string) :
  (String.length s <= n)%nat -> string_take n s = s.
Proof.
  revert n. induction s as [|c s IH]; intros n H; destruct n; simpl in *;
    try reflexivity; try lia.
  rewrite IH by lia. reflexivity.
Qed.

Lemma push_char (buf : string) (c : ascii) :
  (c =? NUL)%char = false -> push buf c = buf ++ String c "".
Proof. intros H. unfold push. rewrite H. reflexivity. Qed.

(** The character that an escape of [escape_chars] stands for, and the
    character behind the backslash. *)
Definition escape_letter (c : ascii) : option ascii :=
  if (c =? DQUOTE)%char then Some DQUOTE
  else if (c =? BACKSLASH)%char then Some BACKSLASH
  else if (c =? LF)%char then Some "n"%char
  else if (c =? CR)%char then Some "r"%char
  else if (c =? TAB)%char then Some "t"%char
  else None.

Lemma escape_chars_cons (c : ascii) (s : string) :
  escape_chars (String c s) =
  match escape_letter c with
  | Some l => String BACKSLASH (String l (escape_chars s))
  | None => String c (escape_chars s)
  end.
Proof.
  unfold escape_letter. simpl.
  destruct (c =? DQUOTE)%char; [reflexivity|].
  destruct (c =? BACKSLASH)%char; [reflexivity|].
  destruct (c =? LF)%char; [reflexivity|].
  destruct (c =? CR)%char; [reflexivity|].
  destruct (c =? TAB)%char; reflexivity.
Qed.

Lemma escape_letter_Some (c l : ascii) :
  escape_letter c = Some l ->
  (l =? NUL)%char = false /\ Json.json_unescape l = c /\ Decoder.unescape l = Some c.
Proof.
  unfold escape_letter.
  destruct (c =? DQUOTE)%char eqn:H1.
  { apply Ascii.eqb_eq in H1. subst c. intros [= <-]. repeat split. }
  destruct (c =? BACKSLASH)%char eqn:H2.
  { apply Ascii.eqb_eq in H2. subst c. intros [= <-]. repeat split. }
  destruct (c =? LF)%char eqn:H3.
  { apply Ascii.eqb_eq in H3. subst c. intros [= <-]. repeat split. }
  destruct (c =? CR)%char eqn:H4.
  { apply Ascii.eqb_eq in H4. subst c. intros [= <-]. repeat split. }
  destruct (c =? TAB)%char eqn:H5; [|discriminate].
  apply Ascii.eqb_eq in H5. subst c. intros [= <-]. repeat split.
Qed.

Lemma escape_letter_None (c : ascii) :
  escape_letter c = None ->
  (c =? DQUOTE)%char = false /\ (c =? BACKSLASH)%char = false.
Proof.
  unfold escape_letter.
  destruct (c =? DQUOTE)%char; [discriminate|].
  destruct (c =? BACKSLASH)%char; [discriminate|]. split; reflexivity.
Qed.


Lemma string_take_empty (n : nat) : string_take n "" = "".
Proof. destruct n; reflexivity. Qed.

Section JsonString.
Import Json.

(** One round of the loop of [parse_json_string], for a character that is
    not written as an escape and for one that is. *)
Lemma json_string_loop_plain (fuel : nat) (buf : string) (remaining : nat)
  (j cur : string) (e : option string) (c : ascii) :
  (c =? NUL)%char = false -> (c =? DQUOTE)%char = false ->
  (c =? BACKSLASH)%char = false ->
  json_string_loop (S fuel) buf remaining (mkJsonParser j (String c cur) e)
  = match remaining with
    | S r => json_string_loop fuel (push buf c) r (mkJsonParser j cur e)
    | O => json_string_loop fuel buf O (mkJsonParser j cur e)
    end.
Proof.
  intros H0 H1 H2. cbn [json_string_loop].
  cbv beta iota delta [bind json_peek json_consume json_advance gets modify ret
                         current json error].
  rewrite H0, H1. cbv beta iota delta [negb andb]. rewrite H0.
  cbv beta iota. rewrite H2.
  destruct remaining; reflexivity.
Qed.

Lemma json_string_loop_escape (fuel : nat) (buf : string) (remaining : nat)
  (j cur : string) (e : option string) (l : ascii) :
  (l =? NUL)%char = false ->
  json_string_loop (S fuel) buf remaining
    (mkJsonParser j (String BACKSLASH (String l cur)) e)
  = match remaining with
    | S r => json_string_loop fuel (push buf (json_unescape l)) r (mkJsonParser j cur e)
    | O => json_string_loop fuel buf O (mkJsonParser j cur e)
    end.
Proof.
  intros H0. cbn [json_string_loop].
  repeat first
    [ progress cbv beta iota delta [bind json_peek json_consume json_advance gets
                                      modify ret current json error negb andb]
    | progress change (BACKSLASH =? DQUOTE)%char with false
    | progress change (BACKSLASH =? NUL)%char with false
    | progress change (BACKSLASH =? BACKSLASH)%char with true
    | rewrite H0 ].
  destruct remaining; reflexivity.
Qed.

Lemma json_string_loop_end (fuel : nat) (buf : string) (remaining : nat)
  (j rest : string) (e : option string) :
  json_string_loop fuel buf remaining (mkJsonParser j (String DQUOTE rest) e)
  = Done buf (mkJsonParser j (String DQUOTE rest) e).
Proof. destruct fuel; reflexivity. Qed.

(** The loop reads the escaped form of a string back, up to the room of
    its buffer. *)
Lemma json_string_loop_reads (s : string) :
  forall (fuel : nat) (buf : string) (remaining : nat) (j rest : string)
         (e : option string),
    c_string s = true -> (String.length s <= fuel)%nat ->
    json_string_loop fuel buf remaining
      (mkJsonParser j (escape_chars s ++ String DQUOTE rest) e)
    = Done (buf ++ string_take remaining s) (mkJsonParser j (String DQUOTE rest) e).
Proof.
  induction s as [|c s IH]; intros fuel buf remaining j rest e Hs Hfuel.
  - simpl. rewrite json_string_loop_end, string_take_empty, append_empty. reflexivity.
  - simpl in Hs. apply andb_true_iff in Hs as [Hc Hs]. apply negb_true_iff in Hc.
    destruct fuel as [|fuel]; [simpl in Hfuel; lia|]. simpl in Hfuel.
    rewrite escape_chars_cons.
    destruct (escape_letter c) as [l|] eqn:Hl.
    + destruct (escape_letter_Some _ _ Hl) as (Hl0 & Hun & _).
      change ((String BACKSLASH (String l (escape_chars s))) ++ String DQUOTE rest)
        with (String BACKSLASH (String l (escape_chars s ++ String DQUOTE rest))).
      rewrite json_string_loop_escape by exact Hl0. rewrite Hun.
      destruct remaining as [|r]; rewrite IH by (try assumption; lia).
      * reflexivity.
      * rewrite push_char by exact Hc. rewrite append_assoc. reflexivity.
    + destruct (escape_letter_None _ Hl) as [Hq Hb].
      change ((String c (escape_chars s)) ++ String DQUOTE rest)
        with (String c (escape_chars s ++ String DQUOTE rest)).
      rewrite json_string_loop_plain by assumption.
      destruct remaining as [|r]; rewrite IH by (try assumption; lia).
      * reflexivity.
      * rewrite push_char by exact Hc. rewrite append_assoc. reflexivity.
Qed.


Lemma parse_json_string_reads (s j rest : string) (e : option string) :
  c_string s = true ->
  parse_json_string
    (mkJsonParser j (String DQUOTE (escape_chars s ++ String DQUOTE rest)) e)
  = Done (Some (string_take 4095 s)) (mkJsonParser j rest e).
Proof.
  intros Hs. unfold parse_json_string.
  repeat first
    [ progress cbv beta iota delta [bind json_peek json_consume json_advance gets
                                      modify ret current json error negb
                                      json_input_left]
    | progress change (DQUOTE =? DQUOTE)%char with true
    | progress change (DQUOTE =? NUL)%char with false ].
  rewrite json_string_loop_reads;
    [|exact Hs|rewrite length_append; pose proof (length_escape_chars s); lia].
  repeat first
    [ progress cbv beta iota delta [bind json_peek json_consume json_advance gets
                                      modify ret current json error negb]
    | progress change (DQUOTE =? DQUOTE)%char with true
    | progress change (DQUOTE =? NUL)%char with false ].
  reflexivity.
Qed.

(** X14. A string goes through [toon_to_json] and [json_to_toon] unchanged
    when it has at most 4095 bytes. A longer one, which [toon_to_json]
    still writes as long as it fits its buffer of 65536 bytes, comes back cut
    to its first 4095 bytes, without an error: [parse_json_string] reads on
    to the closing quote and drops what its buffer has no room for. *)
Theorem json_string_round_trip (s text : string) :
  c_string s = true ->
  toon_to_json (TString s) = Some text ->
  json_to_toon text = Ok (TString (string_take 4095 s)) /\
  ((String.length s <= 4095)%nat -> json_to_toon text = Ok (TString s)).
Proof.
  intros Hs Htext.
  assert (json_to_toon text = Ok (TString (string_take 4095 s))) as H.
  { simpl in Htext. unfold fits in Htext.
    destruct (_ <? _); [|discriminate]. injection Htext as <-.
    unfold json_to_toon, json_quoted.
    set (body := escape_chars s ++ String DQUOTE "").
    cbn [parse_json_value].
    unfold skip_json_whitespace.
    repeat first
      [ progress cbv beta iota delta [bind json_peek gets ret current json error
                                        json_input_left String.length
                                        skip_json_whitespace_loop negb andb]
      | progress change (DQUOTE =? DQUOTE)%char with true
      | progress change (DQUOTE =? NUL)%char with false
      | progress change (isspace DQUOTE) with false ].
    subst body. rewrite parse_json_string_reads by exact Hs.
    reflexivity. }
  split; [exact H|].
  intros Hlen. rewrite H, string_take_all by exact Hlen. reflexivity.
Qed.

(** X14 for a string of 4100 zeros, and for a string with a quote in it. *)
Lemma json_string_round_trip_witness :
  (json_to_toon (q (zeros 4100)) = Ok (TString (string_take 4095 (zeros 4100))) /\
   ((String.length (zeros 4100) <= 4095)%nat ->
    json_to_toon (q (zeros 4100)) = Ok (TString (zeros 4100)))) /\
  (json_to_toon (q (escape_chars (String DQUOTE "a")))
   = Ok (TString (string_take 4095 (String DQUOTE "a"))) /\
   ((String.length (String DQUOTE "a") <= 4095)%nat ->
    json_to_toon (q (escape_chars (String DQUOTE "a"))) = Ok (TString (String DQUOTE "a")))).
Proof.
  split.
  - apply (json_string_round_trip (zeros 4100) (q (zeros 4100))).
    + vm_compute; reflexivity.
    + vm_compute; reflexivity.
  - apply (json_string_round_trip (String DQUOTE "a")).
    + reflexivity.
    + vm_compute; reflexivity.
Defined.

End JsonString.


Section ToonString.
Import Decoder Encoder.

Ltac run_parser :=
  repeat first
    [ progress cbv beta iota delta [bind peek consume advance gets modify ret
                                      input_left with_current with_line with_column
                                      Decoder.current Decoder.input Decoder.line
                                      Decoder.column Decoder.error negb andb]
    | progress change (DQUOTE =? DQUOTE)%char with true
    | progress change (DQUOTE =? NUL)%char with false
    | progress change (DQUOTE =? LF)%char with false
    | progress change (BACKSLASH =? DQUOTE)%char with false
    | progress change (BACKSLASH =? NUL)%char with false
    | progress change (BACKSLASH =? LF)%char with false
    | progress change (BACKSLASH =? BACKSLASH)%char with true
    | progress change (isspace DQUOTE) with false ].

(** [consume] takes the character at the cursor; the line and the column
    move on. *)
Lemma consume_char (i cur : string) (l k : Z) (e : option string) (c : ascii) :
  (c =? NUL)%char = false ->
  exists l' k', consume (mkParser i (String c cur) l k e)
                = Done c (mkParser i cur l' k' e).
Proof.
  intros H0. run_parser. rewrite H0. run_parser.
  destruct (c =? LF)%char; run_parser; eexists; eexists; reflexivity.
Qed.

Lemma quoted_loop_plain (fuel : nat) (buf : string) (remaining : nat)
  (i cur : string) (l k : Z) (e : option string) (c : ascii) :
  (c =? NUL)%char = false -> (c =? DQUOTE)%char = false ->
  (c =? BACKSLASH)%char = false ->
  exists l' k',
    quoted_loop (S fuel) buf remaining (mkParser i (String c cur) l k e)
    = match remaining with
      | S r => quoted_loop fuel (push buf c) r (mkParser i cur l' k' e)
      | O => quoted_loop fuel buf O (mkParser i cur l' k' e)
      end.
Proof.
  intros H0 H1 H2.
  destruct (consume_char i cur l k e c H0) as (l' & k' & Hc).
  exists l', k'. cbn [quoted_loop].
  unfold bind at 1. unfold peek at 1. unfold gets. cbv beta iota delta [Decoder.current].
  rewrite H0, H1. cbv beta iota delta [negb andb].
  unfold bind at 1. rewrite Hc. rewrite H2.
  destruct remaining; reflexivity.
Qed.

Lemma quoted_loop_escape (fuel : nat) (buf : string) (remaining : nat)
  (i cur : string) (l k : Z) (e : option string) (x c : ascii) :
  (x =? NUL)%char = false -> unescape x = Some c ->
  exists l' k',
    quoted_loop (S fuel) buf remaining
      (mkParser i (String BACKSLASH (String x cur)) l k e)
    = match remaining with
      | S r => quoted_loop fuel (push buf c) r (mkParser i cur l' k' e)
      | O => quoted_loop fuel buf O (mkParser i cur l' k' e)
      end.
Proof.
  intros H0 Hx.
  destruct (consume_char i (String x cur) l k e BACKSLASH eq_refl) as (l1 & k1 & Hc1).
  destruct (consume_char i cur l1 k1 e x H0) as (l' & k' & Hc2).
  exists l', k'. cbn [quoted_loop].
  unfold bind at 1. unfold peek at 1. unfold gets. cbv beta iota delta [Decoder.current].
  change (BACKSLASH =? DQUOTE)%char with false.
  change (BACKSLASH =? NUL)%char with false.
  cbv beta iota delta [negb andb].
  unfold bind at 1. rewrite Hc1.
  change (BACKSLASH =? BACKSLASH)%char with true. cbv beta iota.
  unfold bind at 1. rewrite Hc2. rewrite Hx.
  destruct remaining; reflexivity.
Qed.

Lemma quoted_loop_end (fuel : nat) (buf : string) (remaining : nat)
  (i rest : string) (l k : Z) (e : option string) :
  quoted_loop fuel buf remaining (mkParser i (String DQUOTE rest) l k e)
  = Done (Some buf) (mkParser i (String DQUOTE rest) l k e).
Proof. destruct fuel; reflexivity. Qed.

Lemma quoted_loop_reads (s : string) :
  forall (fuel : nat) (buf : string) (remaining : nat) (i rest : string)
         (l k : Z) (e : option string),
    c_string s = true -> (String.length s <= fuel)%nat ->
    exists l' k',
      quoted_loop fuel buf remaining
        (mkParser i (escape_chars s ++ String DQUOTE rest) l k e)
      = Done (Some (buf ++ string_take remaining s))
             (mkParser i (String DQUOTE rest) l' k' e).
Proof.
  induction s as [|c s IH]; intros fuel buf remaining i rest l k e Hs Hfuel.
  - exists l, k. simpl.
    rewrite quoted_loop_end, string_take_empty, append_empty. reflexivity.
  - simpl in Hs. apply andb_true_iff in Hs as [Hc Hs]. apply negb_true_iff in Hc.
    destruct fuel as [|fuel]; [simpl in Hfuel; lia|]. simpl in Hfuel.
    rewrite escape_chars_cons.
    destruct (escape_letter c) as [x|] eqn:Hx.
    + destruct (escape_letter_Some _ _ Hx) as (Hx0 & _ & Hun).
      change ((String BACKSLASH (String x (escape_chars s))) ++ String DQUOTE rest)
        with (String BACKSLASH (String x (escape_chars s ++ String DQUOTE rest))).
      destruct (quoted_loop_escape fuel buf remaining i
                  (escape_chars s ++ String DQUOTE rest) l k e x c Hx0 Hun)
        as (l1 & k1 & ->).
      destruct remaining as [|r].
      * destruct (IH fuel buf O i rest l1 k1 e Hs ltac:(lia)) as (l' & k' & ->).
        exists l', k'. reflexivity.
      * destruct (IH fuel (push buf c) r i rest l1 k1 e Hs ltac:(lia)) as (l' & k' & ->).
        exists l', k'. rewrite push_char by exact Hc. rewrite append_assoc. reflexivity.
    + destruct (escape_letter_None _ Hx) as [Hq Hb].
      change ((String c (escape_chars s)) ++ String DQUOTE rest)
        with (String c (escape_chars s ++ String DQUOTE rest)).
      destruct (quoted_loop_plain fuel buf remaining i
                  (escape_chars s ++ String DQUOTE rest) l k e c Hc Hq Hb)
        as (l1 & k1 & ->).
      destruct remaining as [|r].
      * destruct (IH fuel buf O i rest l1 k1 e Hs ltac:(lia)) as (l' & k' & ->).
        exists l', k'. reflexivity.
      * destruct (IH fuel (push buf c) r i rest l1 k1 e Hs ltac:(lia)) as (l' & k' & ->).
        exists l', k'. rewrite push_char by exact Hc. rewrite append_assoc. reflexivity.
Qed.

Lemma parse_quoted_string_reads (s i rest : string) (l k : Z) (e : option string) :
  c_string s = true ->
  exists l' k',
    parse_quoted_string
      (mkParser i (String DQUOTE (escape_chars s ++ String DQUOTE rest)) l k e)
    = Done (Some (string_take 4095 s)) (mkParser i rest l' k' e).
Proof.
  intros Hs. unfold parse_quoted_string.
  destruct (consume_char i (escape_chars s ++ String DQUOTE rest) l k e DQUOTE eq_refl)
    as (l1 & k1 & Hc1).
  unfold bind at 1. rewrite Hc1.
  change (DQUOTE =? DQUOTE)%char with true. cbv beta iota delta [negb].
  unfold bind at 1. unfold input_left at 1. unfold gets.
  cbv beta iota delta [Decoder.current].
  destruct (quoted_loop_reads s (String.length (escape_chars s ++ String DQUOTE rest))
              "" 4095 i rest l1 k1 e Hs) as (l2 & k2 & Hq).
  { rewrite length_append. pose proof (length_escape_chars s). lia. }
  unfold bind at 1. rewrite Hq.
  destruct (consume_char i rest l2 k2 e DQUOTE eq_refl) as (l' & k' & Hc2).
  unfold bind at 1. rewrite Hc2.
  change (DQUOTE =? DQUOTE)%char with true. cbv beta iota delta [negb].
  exists l', k'. reflexivity.
Qed.


(** The delimiters of an unquoted value. *)
Definition value_delimiters : string :=
  String "," (String LF (String CR (String ":" EmptyString))).

Definition plain_char (c : ascii) : bool :=
  negb (c =? NUL)%char && negb (strchr value_delimiters c).

Lemma unquoted_loop_plain (fuel : nat) (buf : string) (remaining : nat)
  (i cur : string) (l k : Z) (e : option string) (c : ascii) :
  plain_char c = true ->
  exists l' k',
    unquoted_loop (S fuel) value_delimiters buf remaining
      (mkParser i (String c cur) l k e)
    = match remaining with
      | S r => unquoted_loop fuel value_delimiters (push buf c) r
                 (mkParser i cur l' k' e)
      | O => unquoted_loop fuel value_delimiters buf O (mkParser i cur l' k' e)
      end.
Proof.
  intros Hp. pose proof Hp as Hp'. unfold plain_char in Hp'.
  apply andb_true_iff in Hp' as [H0 _]. apply negb_true_iff in H0.
  destruct (consume_char i cur l k e c H0) as (l' & k' & Hc).
  exists l', k'. cbn [unquoted_loop].
  unfold bind at 1. unfold peek at 1. unfold gets. cbv beta iota delta [Decoder.current].
  fold (plain_char c). rewrite Hp.
  unfold bind at 1. rewrite Hc.
  destruct remaining; reflexivity.
Qed.

Lemma unquoted_loop_end (fuel : nat) (buf : string) (remaining : nat)
  (i : string) (l k : Z) (e : option string) :
  unquoted_loop fuel value_delimiters buf remaining (mkParser i "" l k e)
  = Done buf (mkParser i "" l k e).
Proof. destruct fuel; reflexivity. Qed.

Lemma unquoted_loop_reads (s : string) :
  forall (fuel : nat) (buf : string) (remaining : nat) (i : string)
         (l k : Z) (e : option string),
    string_forall plain_char s = true -> (String.length s <= fuel)%nat ->
    exists l' k',
      unquoted_loop fuel value_delimiters buf remaining (mkParser i s l k e)
      = Done (buf ++ string_take remaining s) (mkParser i "" l' k' e).
Proof.
  induction s as [|c s IH]; intros fuel buf remaining i l k e Hs Hfuel.
  - exists l, k. rewrite unquoted_loop_end, string_take_empty, append_empty. reflexivity.
  - simpl in Hs. apply andb_true_iff in Hs as [Hc Hs].
    destruct fuel as [|fuel]; [simpl in Hfuel; lia|]. simpl in Hfuel.
    destruct (unquoted_loop_plain fuel buf remaining i s l k e c Hc) as (l1 & k1 & ->).
    assert ((c =? NUL)%char = false) as H0.
    { unfold plain_char in Hc. apply andb_true_iff in Hc as [H0 _].
      apply negb_true_iff in H0. exact H0. }
    destruct remaining as [|r].
    + destruct (IH fuel buf O i l1 k1 e Hs ltac:(lia)) as (l' & k' & ->).
      exists l', k'. reflexivity.
    + destruct (IH fuel (push buf c) r i l1 k1 e Hs ltac:(lia)) as (l' & k' & ->).
      exists l', k'. rewrite push_char by exact H0. rewrite append_assoc. reflexivity.
Qed.

Lemma rtrim_unchanged (s : string) : isspace (last_char s) = false -> rtrim s = s.
Proof.
  induction s as [|c s IH]; [reflexivity|].
  destruct s as [|d s].
  - simpl. intros ->. reflexivity.
  - intros H. change (last_char (String c (String d s))) with (last_char (String d s)) in H.
    change (rtrim (String c (String d s)))
      with (match rtrim (String d s) with
            | EmptyString => if isspace c then EmptyString else String c EmptyString
            | t => String c t
            end).
    rewrite (IH H). reflexivity.
Qed.

Lemma skip_whitespace_none (i cur : string) (l k : Z) (e : option string) (c : ascii) :
  isspace c = false ->
  skip_whitespace (mkParser i (String c cur) l k e)
  = Done tt (mkParser i (String c cur) l k e).
Proof.
  intros H. unfold skip_whitespace, bind, input_left, gets.
  cbv beta iota delta [Decoder.current String.length].
  cbn [skip_whitespace_loop]. unfold bind, peek, gets.
  cbv beta iota delta [Decoder.current]. rewrite H, andb_false_r. reflexivity.
Qed.

Definition no_colon (c : ascii) : bool := negb (c =? ":")%char.

Lemma looks_like_object_none (t : string) (prev : option ascii) :
  string_forall no_colon t = true -> looks_like_object prev t = Some false.
Proof.
  revert prev. induction t as [|c t IH]; intros prev H; simpl; [reflexivity|].
  simpl in H. apply andb_true_iff in H as [Hc Ht].
  unfold no_colon in Hc. apply negb_true_iff in Hc. rewrite Hc.
  destruct ((c =? NUL)%char || (c =? LF)%char); [reflexivity|].
  apply IH, Ht.
Qed.

Lemma string_forall_append (f : ascii -> bool) (a b : string) :
  string_forall f (a ++ b) = string_forall f a && string_forall f b.
Proof.
  induction a as [|c a IH]; simpl; [reflexivity|]. rewrite IH, andb_assoc. reflexivity.
Qed.

Lemma escape_chars_no_colon (s : string) :
  string_forall no_colon s = true -> string_forall no_colon (escape_chars s) = true.
Proof.
  induction s as [|c s IH]; [reflexivity|].
  intros H. simpl in H. apply andb_true_iff in H as [Hc Hs].
  rewrite escape_chars_cons.
  destruct (escape_letter c) as [x|] eqn:Hx.
  - unfold escape_letter in Hx.
    repeat match type of Hx with
           | (if ?b then _ else _) = _ => destruct b
           end; try discriminate; injection Hx as <-; simpl; apply IH, Hs.
  - simpl. rewrite Hc. apply IH, Hs.
Qed.

(** A string that is written without quotes is read back as a string when
    it does not start like a quoted string or a number. *)
Definition plain_start (s : string) : bool :=
  match s with
  | String c _ => negb (c =? DQUOTE)%char && negb (isdigit c || (c =? "-")%char)
  | EmptyString => true
  end.

(** The facts in [needs_quoting s = false]. *)
Lemma unquoted_facts (s : string) :
  needs_quoting plain_char_signed s = false ->
  (exists c s', s = String c s' /\ isspace c = false /\ (c =? "[")%char = false) /\
  isspace (last_char s) = false /\
  keyword_or_string s = PVal (TString s) /\
  string_forall plain_char s = true /\
  string_forall no_colon s = true.
Proof.
  rewrite needs_quoting_unfold. unfold plain_char_signed.
  rewrite !orb_false_iff. intros [[[[H1 H2] H3] [H4 H5]] H6].
  assert (string_forall plain_char s = true /\ string_forall no_colon s = true
          /\ (first_of s =? "[")%char = false) as (Hp & Hn & Hb).
  { clear -H6. induction s as [|c s IH]; [repeat split|].
    simpl in H6.
    destruct ((c =? ",")%char || (c =? ":")%char || (c =? LF)%char || (c =? CR)%char
              || (c =? "{")%char || (c =? "}")%char || (c =? "[")%char
              || (c =? "]")%char || (char_value false c <? 32)) eqn:Hc;
      [discriminate|].
    destruct (IH H6) as (IH1 & IH2 & _).
    rewrite !orb_false_iff in Hc.
    destruct Hc as [[[[[[[[Ha Hb] Hc] Hd] _] _] He] _] Hf].
    assert ((c =? NUL)%char = false) as H0.
    { destruct (c =? NUL)%char eqn:Hz; [|reflexivity].
      apply Ascii.eqb_eq in Hz. subst c. discriminate. }
    assert (plain_char c = true) as Hpc.
    { unfold plain_char, value_delimiters. cbn [strchr].
      rewrite (Ascii.eqb_sym "," c), (Ascii.eqb_sym LF c), (Ascii.eqb_sym CR c),
        (Ascii.eqb_sym ":" c).
      rewrite H0, Ha, Hb, Hc, Hd. reflexivity. }
    cbn [string_forall first_of]. unfold no_colon at 1.
    rewrite Hpc, Hb, IH1, IH2, He. repeat split. }
  destruct s as [|c s']; [discriminate|].
  simpl in H4, Hb.
  split; [exists c, s'; repeat split; assumption|].
  split; [exact H5|].
  split; [|split; assumption].
  unfold keyword_or_string.
  destruct H2 as [[-> ->] ->]. reflexivity.
Qed.


Lemma char_before_start (text : string) (l k : Z) (e : option string) :
  char_before (mkParser text text l k e) = None.
Proof. unfold char_before. simpl. rewrite Nat.sub_diag. reflexivity. Qed.

(** The quoted form is read back. *)
Lemma toon_decode_quoted (s : string) :
  c_string s = true -> string_forall no_colon s = true ->
  toon_decode (escape_string s) = Ok (TString (string_take 4095 s)).
Proof.
  intros Hs Hn. unfold toon_decode, toon_decode_run, escape_string.
  set (body := escape_chars s ++ String DQUOTE "").
  unfold bind at 1. rewrite skip_whitespace_none by reflexivity.
  unfold bind at 1. unfold get at 1.
  rewrite char_before_start. cbv beta iota delta [Decoder.current].
  rewrite looks_like_object_none.
  2:{ subst body. cbn [string_forall]. rewrite string_forall_append.
      rewrite (escape_chars_no_colon _ Hn). reflexivity. }
  cbn [parse_value].
  unfold bind at 1. rewrite skip_whitespace_none by reflexivity.
  unfold bind at 1. unfold peek at 1. unfold gets. cbv beta iota delta [Decoder.current].
  change (DQUOTE =? DQUOTE)%char with true. cbv beta iota.
  subst body.
  destruct (parse_quoted_string_reads s
              (String DQUOTE (escape_chars s ++ String DQUOTE "")) "" 1 0 None Hs)
    as (l' & k' & Hq).
  unfold bind at 1. rewrite Hq. reflexivity.
Qed.

(** The bare form is read back. *)
Lemma toon_decode_bare (s : string) :
  needs_quoting plain_char_signed s = false -> plain_start s = true ->
  toon_decode s = Ok (TString (string_take 4095 s)) \/
  (4095 < String.length s)%nat.
Proof.
  intros Hq Hstart.
  destruct (Nat.le_gt_cases (String.length s) 4095) as [Hlen|Hlen]; [left|right; lia].
  destruct (unquoted_facts s Hq) as ((c & s' & -> & Hsp & Hbr) & Hlast & Hkw & Hp & Hn).
  simpl in Hstart. apply andb_true_iff in Hstart as [Hdq Hnum].
  apply negb_true_iff in Hdq. apply negb_true_iff in Hnum.
  unfold toon_decode, toon_decode_run.
  unfold bind at 1. rewrite skip_whitespace_none by exact Hsp.
  unfold bind at 1. unfold get at 1.
  rewrite char_before_start. cbv beta iota delta [Decoder.current].
  rewrite looks_like_object_none by exact Hn.
  cbn [parse_value].
  unfold bind at 1. rewrite skip_whitespace_none by exact Hsp.
  unfold bind at 1. unfold peek at 1. unfold gets. cbv beta iota delta [Decoder.current].
  rewrite Hdq, Hnum, Hbr.
  unfold parse_unquoted_string.
  unfold bind at 1. unfold bind at 1. unfold input_left at 1. unfold gets.
  cbv beta iota delta [Decoder.current].
  destruct (unquoted_loop_reads (String c s') (String.length (String c s')) "" 4095
              (String c s') 1 0 None Hp ltac:(lia)) as (l' & k' & Hu).
  fold value_delimiters. unfold bind at 1. rewrite Hu.
  cbv beta iota delta [ret].
  change ("" ++ string_take 4095 (String c s')) with (string_take 4095 (String c s')).
  rewrite string_take_all by exact Hlen.
  rewrite (rtrim_unchanged _ Hlast), Hkw. reflexivity.
Qed.

(** X15. The round trip of a string through [toon_encode] and [toon_decode]:
    a string without a colon that the encoder writes between quotes comes
    back as it was, and so does a string that the encoder writes bare,
    unless it starts with a double quote, a digit or a minus sign. Strings
    of the other kinds do not come back: [a:b] is written between quotes
    and read as an object, a double quote followed by [x] is written bare and
    rejected for its missing closing quote, and [1x] is written bare and read
    as the number 1. *)
Theorem string_round_trip :
  (forall s text : string,
      c_string s = true ->
      toon_encode (TString s) 0 = Some text ->
      string_forall no_colon s = true ->
      (needs_quoting plain_char_signed s = false -> plain_start s = true) ->
      toon_decode text = Ok (TString s)) /\
  toon_decode (escape_string "a:b")
  = Ok (TObject [(String DQUOTE "a", TString (String "b" (String DQUOTE "")))]) /\
  toon_decode (String DQUOTE "x") = Err "Line 1, Column 2: Expected closing quote" /\
  toon_decode "1x" = Ok (num 1).
Proof.
  split; [|repeat split; vm_compute; reflexivity].
  intros s text Hs Henc Hn Hstart.
  unfold toon_encode in Henc. simpl in Henc. unfold encode_string, fits in Henc.
  destruct (needs_quoting plain_char_signed s) eqn:Hq.
  - destruct (Z.ltb_spec (Z.of_nat (String.length (escape_string s))) 4096);
      [|discriminate].
    injection Henc as <-. rewrite (toon_decode_quoted s Hs Hn).
    rewrite string_take_all; [reflexivity|].
    rewrite length_escape_string in *. pose proof (length_escape_chars s). lia.
  - destruct (Z.ltb_spec (Z.of_nat (String.length s)) 4096); [|discriminate].
    injection Henc as <-.
    destruct (toon_decode_bare s Hq (Hstart eq_refl)) as [->|Hlong]; [|lia].
    rewrite string_take_all by lia. reflexivity.
Qed.

(** X15 at a string with a quote and a line feed in it, and at a bare one. *)
Lemma string_round_trip_witness :
  toon_decode (escape_string (String DQUOTE (String LF "a, b")))
  = Ok (TString (String DQUOTE (String LF "a, b"))) /\
  toon_decode "hello world" = Ok (TString "hello world").
Proof.
  split.
  - apply (proj1 string_round_trip (String DQUOTE (String LF "a, b"))).
    + reflexivity.
    + vm_compute; reflexivity.
    + reflexivity.
    + vm_compute; discriminate.
  - apply (proj1 string_round_trip "hello world").
    + reflexivity.
    + vm_compute; reflexivity.
    + reflexivity.
    + reflexivity.
Defined.

(** X17. A text that starts with a colon makes [toon_decode] read the byte
    before the text: the scan of the first line looks at the character before
    every colon, and for a colon at the start of the text that character is
    outside the buffer. *)
Theorem colon_at_start_reads_before_text (rest : string) :
  toon_decode (String ":" rest) = Undefined.
Proof.
  unfold toon_decode, toon_decode_run.
  unfold bind at 1. rewrite skip_whitespace_none by reflexivity.
  unfold bind at 1. unfold get at 1.
  rewrite char_before_start. reflexivity.
Qed.

End ToonString.

End StringProperties.

Module NumberProperties.
Import StringProperties Decoder.

(** The value of a decimal numeral, read from the left with an
    accumulator. *)
Fixpoint uint_value (d : Decimal.uint) (acc : Z) : Z :=
  match d with
  | Decimal.Nil => acc
  | Decimal.D0 l => uint_value l (acc * 10 + 0)
  | Decimal.D1 l => uint_value l (acc * 10 + 1)
  | Decimal.D2 l => uint_value l (acc * 10 + 2)
  | Decimal.D3 l => uint_value l (acc * 10 + 3)
  | Decimal.D4 l => uint_value l (acc * 10 + 4)
  | Decimal.D5 l => uint_value l (acc * 10 + 5)
  | Decimal.D6 l => uint_value l (acc * 10 + 6)
  | Decimal.D7 l => uint_value l (acc * 10 + 7)
  | Decimal.D8 l => uint_value l (acc * 10 + 8)
  | Decimal.D9 l => uint_value l (acc * 10 + 9)
  end.

Lemma digits_value_uint (d : Decimal.uint) (acc : Z) :
  digits_value 10 digit_val (NilEmpty.string_of_uint d) acc = uint_value d acc.
Proof. revert acc. induction d; intros acc; simpl; [reflexivity|..]; apply IHd. Qed.

Lemma uint_value_acc (d : Decimal.uint) (acc : positive) :
  uint_value d (Zpos acc) = Zpos (Pos.of_uint_acc d acc).
Proof.
  revert acc. induction d; intros acc; simpl; [reflexivity|..];
    match goal with
    | |- uint_value _ ?a = _ =>
        match goal with
        | |- _ = Zpos (Pos.of_uint_acc _ ?b) =>
            replace a with (Zpos b) by lia; apply IHd
        end
    end.
Qed.

Lemma uint_value_of_uint (d : Decimal.uint) : uint_value d 0 = Z.of_N (Pos.of_uint d).
Proof.
  induction d; simpl; try reflexivity; try exact IHd;
    match goal with
    | |- uint_value _ ?a = Zpos (Pos.of_uint_acc _ ?b) =>
        change a with (Zpos b); apply uint_value_acc
    end.
Qed.

Lemma digits_of_positive (p : positive) :
  digits_value 10 digit_val (NilZero.string_of_uint (Pos.to_uint p)) 0 = Zpos p.
Proof.
  assert (NilZero.string_of_uint (Pos.to_uint p) = NilEmpty.string_of_uint (Pos.to_uint p))
    as ->.
  { pose proof (Unsigned.to_uint_nonnil p) as H.
    destruct (Pos.to_uint p); [contradiction|..]; reflexivity. }
  rewrite digits_value_uint, uint_value_of_uint, DecimalPos.Unsigned.of_to. reflexivity.
Qed.

Lemma string_of_uint_digits (d : Decimal.uint) :
  string_forall isdigit (NilEmpty.string_of_uint d) = true.
Proof. induction d; simpl; [reflexivity|..]; exact IHd. Qed.

Lemma positive_text (p : positive) :
  exists c s, NilZero.string_of_uint (Pos.to_uint p) = String c s /\
              string_forall isdigit (String c s) = true.
Proof.
  pose proof (Unsigned.to_uint_nonnil p) as H.
  pose proof (string_of_uint_digits (Pos.to_uint p)) as Hd.
  destruct (Pos.to_uint p); [contradiction|..]; simpl in *; eexists; eexists;
    split; try reflexivity; exact Hd.
Qed.


Lemma digit_facts (c : ascii) :
  isdigit c = true ->
  (c =? NUL)%char = false /\ isspace c = false /\ (c =? "-")%char = false /\
  (c =? "+")%char = false /\ (c =? DQUOTE)%char = false /\ no_colon c = true /\
  (tolower c =? "x")%char = false /\ (c =? ".")%char = false /\
  ("i" =? tolower c)%char = false /\ ("n" =? tolower c)%char = false.
Proof.
  destruct c as [[] [] [] [] [] [] [] []]; intros H; try discriminate H;
    repeat split; reflexivity.
Qed.

Lemma span_digits (s rest : string) :
  string_forall isdigit s = true ->
  match rest with
  | EmptyString => True
  | String c _ => isdigit c = false
  end ->
  span isdigit (s ++ rest) = (s, rest).
Proof.
  intros Hs Hrest. induction s as [|c s IH]; simpl.
  - destruct rest as [|c rest]; [reflexivity|]. simpl. rewrite Hrest. reflexivity.
  - simpl in Hs. apply andb_true_iff in Hs as [Hc Hs]. rewrite Hc, (IH Hs). reflexivity.
Qed.

(** [strtod] on a text of decimal digits, and on one with a minus sign
    before it: the whole text is read. *)
Lemma strtod_digits (neg : bool) (c : ascii) (s : string) :
  string_forall isdigit (String c s) = true ->
  strtod ((if neg then "-" else "") ++ String c s)
  = (double_of_decimal neg (digits_value 10 digit_val (String c s) 0) 0, "").
Proof.
  intros Hd. pose proof Hd as Hd'. simpl in Hd'.
  apply andb_true_iff in Hd' as [Hc Hs].
  destruct (digit_facts c Hc) as (H0 & Hsp & Hm & Hp & _ & _ & _ & _ & Hi & Hn).
  unfold strtod.
  assert (optional_sign (skip_space ((if neg then "-" else "") ++ String c s))
          = (neg, String c s)) as ->.
  { destruct neg; simpl.
    - reflexivity.
    - rewrite Hsp. unfold optional_sign.
      destruct c as [[] [] [] [] [] [] [] []]; try discriminate; reflexivity. }
  assert (strtod_special neg (String c s) = None) as ->.
  { clear -Hc. unfold strtod_special.
    destruct c as [[] [] [] [] [] [] [] []]; try discriminate Hc; reflexivity. }
  assert (strtod_hex neg (String c s) = None) as ->.
  { unfold strtod_hex.
    destruct s as [|x s].
    - destruct c as [[] [] [] [] [] [] [] []]; reflexivity.
    - simpl in Hs. apply andb_true_iff in Hs as [Hx _].
      destruct (digit_facts x Hx) as (_ & _ & _ & _ & _ & _ & Hxx & _).
      destruct c as [[] [] [] [] [] [] [] []]; try reflexivity.
      rewrite Hxx. reflexivity. }
  unfold strtod_dec, mantissa_part.
  pose proof (span_digits (String c s) "" Hd I) as Hspan.
  rewrite append_empty in Hspan. rewrite Hspan.
  cbv beta iota. rewrite append_empty. reflexivity.
Qed.

Lemma number_loop_reads (s : string) :
  forall (room : nat) (buf i : string) (l k : Z) (e : option string),
    string_forall isdigit s = true -> (String.length s <= room)%nat ->
    exists l' k',
      number_loop room buf (mkParser i s l k e)
      = Done (buf ++ s) (mkParser i "" l' k' e).
Proof.
  induction s as [|c s IH]; intros room buf i l k e Hs Hroom.
  - exists l, k. rewrite append_empty. destruct room; reflexivity.
  - simpl in Hs. apply andb_true_iff in Hs as [Hc Hs].
    destruct (digit_facts c Hc) as (H0 & _).
    destruct room as [|room]; [simpl in Hroom; lia|]. simpl in Hroom.
    destruct (consume_char i s l k e c H0) as (l1 & k1 & Hcons).
    cbn [number_loop].
    unfold bind at 1. unfold peek at 1. unfold gets. cbv beta iota delta [Decoder.current].
    rewrite Hc. cbv beta iota delta [orb].
    unfold bind at 1. rewrite Hcons.
    destruct (IH room (push buf c) i l1 k1 e Hs ltac:(lia)) as (l' & k' & ->).
    exists l', k'. rewrite push_char by exact H0. rewrite append_assoc. reflexivity.
Qed.

(** [parse_number] on a text of digits with or without a minus sign. *)
Lemma parse_number_reads (neg : bool) (c : ascii) (s i : string) (l k : Z)
  (e : option string) :
  string_forall isdigit (String c s) = true ->
  (String.length ((if neg then "-" else "") ++ String c s) <= 63)%nat ->
  exists l' k',
    parse_number (mkParser i ((if neg then "-" else "") ++ String c s) l k e)
    = Done (PVal (TNumber (double_of_decimal neg
                             (digits_value 10 digit_val (String c s) 0) 0)))
           (mkParser i "" l' k' e).
Proof.
  intros Hd Hlen. pose proof (strtod_digits neg c s Hd) as Hstrtod.
  pose proof Hd as Hd'. simpl in Hd'. apply andb_true_iff in Hd' as [Hc _].
  destruct (digit_facts c Hc) as (_ & _ & Hm & _).
  unfold parse_number. destruct neg.
  - change ("-" ++ String c s) with (String "-" (String c s)) in *.
    unfold bind at 1. unfold peek at 1. unfold gets. cbv beta iota delta [Decoder.current].
    change ("-" =? "-")%char with true. cbv beta iota.
    destruct (consume_char i (String c s) l k e "-" eq_refl) as (l1 & k1 & Hcons).
    unfold bind at 1. unfold bind at 1. rewrite Hcons.
    destruct (number_loop_reads (String c s) 62 (push "" "-") i l1 k1 e Hd
                ltac:(simpl in Hlen |- *; lia)) as (l' & k' & ->).
    exists l', k'. change (push "" "-" ++ String c s) with (String "-" (String c s)).
    cbv beta iota delta [ret]. rewrite Hstrtod. reflexivity.
  - change ("" ++ String c s) with (String c s) in *.
    unfold bind at 1. unfold peek at 1. unfold gets. cbv beta iota delta [Decoder.current].
    rewrite Hm. cbv beta iota.
    destruct (number_loop_reads (String c s) 63 "" i l k e Hd Hlen) as (l' & k' & Hn).
    unfold bind at 1. rewrite Hn.
    exists l', k'. change ("" ++ String c s) with (String c s).
    cbv beta iota delta [ret]. rewrite Hstrtod. reflexivity.
Qed.


Lemma length_string_of_uint (d : Decimal.uint) :
  String.length (NilEmpty.string_of_uint d) = Decimal.nb_digits d.
Proof. induction d; simpl; [reflexivity|..]; rewrite IHd; reflexivity. Qed.

Lemma of_uint_acc_lower (d : Decimal.uint) (acc : positive) :
  Zpos acc * 10 ^ Z.of_nat (Decimal.nb_digits d) <= Zpos (Pos.of_uint_acc d acc).
Proof.
  revert acc. induction d; intros acc; cbn [Decimal.nb_digits Pos.of_uint_acc];
    [simpl; lia|..];
    rewrite Nat2Z.inj_succ, Z.pow_succ_r by lia;
    match goal with
    | |- _ <= Zpos (Pos.of_uint_acc _ ?b) =>
        specialize (IHd b);
        pose proof (Z.pow_pos_nonneg 10 (Z.of_nat (Decimal.nb_digits d))
                      ltac:(lia) ltac:(lia)); nia
    end.
Qed.

Lemma unorm_head (d : Decimal.uint) :
  match Decimal.unorm d with
  | Decimal.Nil => False
  | Decimal.D0 Decimal.Nil => True
  | Decimal.D0 _ => False
  | _ => True
  end.
Proof. induction d; simpl; try exact I; exact IHd. Qed.

(** A positive number below [10^n] is written with at most [n] digits. *)
Lemma positive_text_length (p : positive) (n : nat) :
  Zpos p < 10 ^ Z.of_nat n ->
  (String.length (NilZero.string_of_uint (Pos.to_uint p)) <= n)%nat.
Proof.
  intros Hp.
  assert (Pos.to_uint p = Decimal.unorm (Pos.to_uint p)) as Hnorm.
  { pose proof (DecimalN.Unsigned.to_of (Pos.to_uint p)) as H.
    unfold N.of_uint in H. rewrite DecimalPos.Unsigned.of_to in H. exact H. }
  pose proof (unorm_head (Pos.to_uint p)) as Hhead. rewrite <- Hnorm in Hhead.
  pose proof (DecimalPos.Unsigned.of_to p) as Hof.
  pose proof (DecimalPos.Unsigned.to_uint_nonzero p) as Hnz.
  assert (forall l k, Pos.of_uint_acc l k = p ->
            (S (Decimal.nb_digits l) <= n)%nat) as Hbound.
  { intros l k Hk. pose proof (of_uint_acc_lower l k) as Hl. rewrite Hk in Hl.
    assert (10 ^ Z.of_nat (Decimal.nb_digits l) < 10 ^ Z.of_nat n) as Hpow by nia.
    apply Z.pow_lt_mono_r_iff in Hpow; lia. }
  destruct (Pos.to_uint p) as [|l|l|l|l|l|l|l|l|l|l] eqn:Hd;
    try contradiction;
    [destruct l; try contradiction; exfalso; apply Hnz; reflexivity|..];
    simpl in Hof; injection Hof as Hof; simpl; rewrite length_string_of_uint;
    apply (Hbound _ _ Hof).
Qed.

Lemma double_to_long_range (d : double) (l : Z) :
  double_to_long d = Some l -> LONG_MIN <= l <= LONG_MAX.
Proof.
  unfold double_to_long. destruct d as [s| | |s m e]; try discriminate.
  - intros [= <-]. unfold LONG_MIN, LONG_MAX. lia.
  - match goal with
    | |- (if ?b then _ else _) = _ -> _ => destruct b eqn:Hb; [|discriminate]
    end.
    intros [= <-]. apply andb_true_iff in Hb as [H1 H2].
    apply Z.leb_le in H1. apply Z.leb_le in H2. lia.
Qed.

Lemma digits_no_colon (t : string) :
  string_forall isdigit t = true -> string_forall no_colon t = true.
Proof.
  induction t as [|x t IH]; [reflexivity|]. simpl.
  intros H. apply andb_true_iff in H as [Hx Ht].
  destruct (digit_facts x Hx) as (_ & _ & _ & _ & _ & -> & _). apply IH, Ht.
Qed.

(** The decimal text of an integer is read as the number of that value. *)
Lemma toon_decode_integer (l : Z) :
  LONG_MIN <= l <= LONG_MAX -> toon_decode (fmt_ld l) = Ok (TNumber (double_of_Z l)).
Proof.
  unfold LONG_MIN, LONG_MAX. intros Hl.
  destruct l as [|p|p]; [vm_compute; reflexivity| |].
  - unfold fmt_ld. cbn [Z.to_int NilZero.string_of_int].
    destruct (positive_text p) as (c & s & Ht & Hd).
    pose proof (positive_text_length p 19 ltac:(simpl; lia)) as Hlen.
    pose proof (digits_of_positive p) as Hval.
    rewrite Ht in *.
    pose proof Hd as Hd'. simpl in Hd'. apply andb_true_iff in Hd' as [Hc Hs].
    destruct (digit_facts c Hc) as (H0 & Hsp & Hm & _ & Hq & Hnc & _).
    unfold toon_decode, toon_decode_run.
    unfold bind at 1. rewrite skip_whitespace_none by exact Hsp.
    unfold bind at 1. unfold get at 1.
    rewrite char_before_start. cbv beta iota delta [Decoder.current].
    rewrite looks_like_object_none.
    2:{ apply digits_no_colon, Hd. }
    cbn [parse_value].
    unfold bind at 1. rewrite skip_whitespace_none by exact Hsp.
    unfold bind at 1. unfold peek at 1. unfold gets. cbv beta iota delta [Decoder.current].
    rewrite Hq, Hc. cbv beta iota delta [orb].
    destruct (parse_number_reads false c s (String c s) 1 0 None Hd
                ltac:(simpl in Hlen |- *; lia)) as (l' & k' & Hp).
    change ("" ++ String c s) with (String c s) in Hp. rewrite Hp, Hval.
    cbv beta iota delta [Decoder.error].
    unfold double_of_decimal, double_of_Z.
    change (0 <=? 0) with true. cbv iota.
    change (10 ^ 0) with 1. rewrite Z.mul_1_r. reflexivity.
  - unfold fmt_ld. cbn [Z.to_int NilZero.string_of_int].
    destruct (positive_text p) as (c & s & Ht & Hd).
    pose proof (positive_text_length p 19 ltac:(simpl; lia)) as Hlen.
    pose proof (digits_of_positive p) as Hval.
    rewrite Ht in *.
    pose proof Hd as Hd'. simpl in Hd'. apply andb_true_iff in Hd' as [Hc Hs].
    unfold toon_decode, toon_decode_run.
    unfold bind at 1. rewrite skip_whitespace_none by reflexivity.
    unfold bind at 1. unfold get at 1.
    rewrite char_before_start. cbv beta iota delta [Decoder.current].
    rewrite looks_like_object_none.
    2:{ change (string_forall no_colon (String "-" (String c s)))
          with (string_forall no_colon (String c s)).
        apply digits_no_colon, Hd. }
    cbn [parse_value].
    unfold bind at 1. rewrite skip_whitespace_none by reflexivity.
    unfold bind at 1. unfold peek at 1. unfold gets. cbv beta iota delta [Decoder.current].
    change ("-" =? DQUOTE)%char with false.
    change (isdigit "-" || ("-" =? "-")%char) with true. cbv beta iota.
    destruct (parse_number_reads true c s (String "-" (String c s)) 1 0 None Hd
                ltac:(simpl in Hlen |- *; lia)) as (l' & k' & Hp).
    change ("-" ++ String c s) with (String "-" (String c s)) in Hp. rewrite Hp, Hval.
    cbv beta iota delta [Decoder.error].
    unfold double_of_decimal, double_of_Z.
    change (0 <=? 0) with true. cbv iota.
    change (10 ^ 0) with 1. rewrite Z.mul_1_r. reflexivity.
Qed.

(** X16. A number with an integral value comes back from the round trip:
    where [toon_encode] prints a number with [%ld], that is where the
    number equals its conversion to [long], [toon_decode] reads the text as
    a number that compares equal to it. *)
Theorem integer_round_trip (d : double) (l : Z) :
  double_to_long d = Some l ->
  double_eq d (double_of_Z l) = true ->
  Encoder.toon_encode (TNumber d) 0 = Some (fmt_ld l) /\
  toon_decode (fmt_ld l) = Ok (TNumber (double_of_Z l)).
Proof.
  intros Hl Heq. split.
  - unfold Encoder.toon_encode. simpl. unfold format_number. rewrite Hl, Heq. reflexivity.
  - apply toon_decode_integer, (double_to_long_range d), Hl.
Qed.

(** X16 at the number -42. *)
Lemma integer_round_trip_witness :
  Encoder.toon_encode (num (-42)) 0 = Some (fmt_ld (-42)) /\
  toon_decode (fmt_ld (-42)) = Ok (TNumber (double_of_Z (-42))).
Proof.
  apply (integer_round_trip (double_of_Z (-42)) (-42)).
  - vm_compute; reflexivity.
  - vm_compute; reflexivity.
Defined.

End NumberProperties.

(** ** Flat objects and arrays of scalars *)

Module FlatProperties.
Import QuotingProperties StringProperties NumberProperties Decoder Encoder.

(** What may follow a value in a line: the end of the text, a comma or a
    line feed. *)
Definition ends_value (rest : string) : bool :=
  match rest with
  | EmptyString => true
  | String c _ => (c =? ",")%char || (c =? LF)%char
  end.

Lemma unquoted_loop_stop (fuel : nat) (buf : string) (remaining : nat)
  (i rest : string) (l k : Z) (e : option string) :
  ends_value rest = true ->
  unquoted_loop fuel value_delimiters buf remaining (mkParser i rest l k e)
  = Done buf (mkParser i rest l k e).
Proof.
  intros H. destruct fuel; [reflexivity|].
  destruct rest as [|c rest]; [reflexivity|].
  simpl in H. apply orb_true_iff in H as [H|H]; apply Ascii.eqb_eq in H; subst c;
    reflexivity.
Qed.

Lemma unquoted_loop_stops (s : string) :
  forall (fuel : nat) (buf : string) (remaining : nat) (i rest : string)
         (l k : Z) (e : option string),
    string_forall plain_char s = true -> ends_value rest = true ->
    (String.length s <= fuel)%nat ->
    exists l' k',
      unquoted_loop fuel value_delimiters buf remaining (mkParser i (s ++ rest) l k e)
      = Done (buf ++ string_take remaining s) (mkParser i rest l' k' e).
Proof.
  induction s as [|c s IH]; intros fuel buf remaining i rest l k e Hs Hrest Hfuel.
  - exists l, k. change ("" ++ rest) with rest.
    rewrite unquoted_loop_stop by exact Hrest.
    rewrite string_take_empty, append_empty. reflexivity.
  - simpl in Hs. apply andb_true_iff in Hs as [Hc Hs].
    destruct fuel as [|fuel]; [simpl in Hfuel; lia|]. simpl in Hfuel.
    change (String c s ++ rest) with (String c (s ++ rest)).
    destruct (unquoted_loop_plain fuel buf remaining i (s ++ rest) l k e c Hc)
      as (l1 & k1 & ->).
    assert ((c =? NUL)%char = false) as H0.
    { unfold plain_char in Hc. apply andb_true_iff in Hc as [H0 _].
      apply negb_true_iff in H0. exact H0. }
    destruct remaining as [|r].
    + destruct (IH fuel buf O i rest l1 k1 e Hs Hrest ltac:(lia)) as (l' & k' & ->).
      exists l', k'. reflexivity.
    + destruct (IH fuel (push buf c) r i rest l1 k1 e Hs Hrest ltac:(lia))
        as (l' & k' & ->).
      exists l', k'. rewrite push_char by exact H0. rewrite append_assoc. reflexivity.
Qed.

Lemma number_loop_stop (room : nat) (buf i rest : string) (l k : Z) (e : option string) :
  ends_value rest = true ->
  number_loop room buf (mkParser i rest l k e) = Done buf (mkParser i rest l k e).
Proof.
  intros H. destruct room; [reflexivity|].
  destruct rest as [|c rest]; [reflexivity|].
  simpl in H. apply orb_true_iff in H as [H|H]; apply Ascii.eqb_eq in H; subst c;
    reflexivity.
Qed.

Lemma number_loop_stops (s : string) :
  forall (room : nat) (buf i rest : string) (l k : Z) (e : option string),
    string_forall isdigit s = true -> ends_value rest = true ->
    (String.length s <= room)%nat ->
    exists l' k',
      number_loop room buf (mkParser i (s ++ rest) l k e)
      = Done (buf ++ s) (mkParser i rest l' k' e).
Proof.
  induction s as [|c s IH]; intros room buf i rest l k e Hs Hrest Hroom.
  - exists l, k. change ("" ++ rest) with rest.
    rewrite number_loop_stop by exact Hrest. rewrite append_empty. reflexivity.
  - simpl in Hs. apply andb_true_iff in Hs as [Hc Hs].
    destruct (digit_facts c Hc) as (H0 & _).
    destruct room as [|room]; [simpl in Hroom; lia|]. simpl in Hroom.
    change (String c s ++ rest) with (String c (s ++ rest)).
    destruct (consume_char i (s ++ rest) l k e c H0) as (l1 & k1 & Hcons).
    cbn [number_loop].
    unfold bind at 1. unfold peek at 1. unfold gets. cbv beta iota delta [Decoder.current].
    rewrite Hc. cbv beta iota delta [orb].
    unfold bind at 1. rewrite Hcons.
    destruct (IH room (push buf c) i rest l1 k1 e Hs Hrest ltac:(lia)) as (l' & k' & ->).
    exists l', k'. rewrite push_char by exact H0. rewrite append_assoc. reflexivity.
Qed.

(** [parse_number] on the digits of an integer, with or without a minus
    sign, stops behind them. *)
Lemma parse_number_stops (neg : bool) (c : ascii) (s i rest : string) (l k : Z)
  (e : option string) :
  string_forall isdigit (String c s) = true -> ends_value rest = true ->
  (String.length ((if neg then "-" else "") ++ String c s) <= 63)%nat ->
  exists l' k',
    parse_number (mkParser i (((if neg then "-" else "") ++ String c s) ++ rest) l k e)
    = Done (PVal (TNumber (double_of_decimal neg
                             (digits_value 10 digit_val (String c s) 0) 0)))
           (mkParser i rest l' k' e).
Proof.
  intros Hd Hrest Hlen. pose proof (strtod_digits neg c s Hd) as Hstrtod.
  pose proof Hd as Hd'. simpl in Hd'. apply andb_true_iff in Hd' as [Hc _].
  destruct (digit_facts c Hc) as (_ & _ & Hm & _).
  unfold parse_number. destruct neg.
  - change (("-" ++ String c s) ++ rest) with (String "-" (String c s ++ rest)).
    change ("-" ++ String c s) with (String "-" (String c s)) in *.
    unfold bind at 1. unfold peek at 1. unfold gets. cbv beta iota delta [Decoder.current].
    change ("-" =? "-")%char with true. cbv beta iota.
    destruct (consume_char i (String c s ++ rest) l k e "-" eq_refl) as (l1 & k1 & Hcons).
    unfold bind at 1. unfold bind at 1. rewrite Hcons.
    destruct (number_loop_stops (String c s) 62 (push "" "-") i rest l1 k1 e Hd Hrest
                ltac:(simpl in Hlen |- *; lia)) as (l' & k' & ->).
    exists l', k'. change (push "" "-" ++ String c s) with (String "-" (String c s)).
    cbv beta iota delta [ret]. rewrite Hstrtod. reflexivity.
  - change (("" ++ String c s) ++ rest) with (String c s ++ rest).
    change ("" ++ String c s) with (String c s) in *.
    unfold bind at 1. unfold peek at 1. unfold gets. cbv beta iota delta [Decoder.current].
    change (String c s ++ rest) with (String c (s ++ rest)) at 1.
    cbv beta iota. rewrite Hm. cbv beta iota.
    destruct (number_loop_stops (String c s) 63 "" i rest l k e Hd Hrest Hlen)
      as (l' & k' & Hn).
    unfold bind at 1. rewrite Hn.
    exists l', k'. change ("" ++ String c s) with (String c s).
    cbv beta iota delta [ret]. rewrite Hstrtod. reflexivity.
Qed.


(** The values without children that come back from a round trip: null,
    the booleans, the numbers that are printed with [%ld], and the strings
    without a NUL that are written between quotes or do not start like a
    quoted string or a number. *)
Definition scalar (v : ToonValue) : bool :=
  match v with
  | TNull | TBoolean _ => true
  | TNumber d =>
      match double_to_long d with
      | Some l => double_eq d (double_of_Z l)
      | None => false
      end
  | TString s => c_string s && (needs_quoting plain_char_signed s || plain_start s)
  | _ => false
  end.

(** What is read back for a scalar: a number comes back as the double of
    its integer value. *)
Definition read_back (v : ToonValue) : ToonValue :=
  match v with
  | TNumber d =>
      match double_to_long d with
      | Some l => TNumber (double_of_Z l)
      | None => v
      end
  | _ => v
  end.

Lemma integer_text (l : Z) :
  LONG_MIN <= l <= LONG_MAX ->
  exists (neg : bool) (c : ascii) (s : string),
    fmt_ld l = (if neg then "-" else "") ++ String c s /\
    string_forall isdigit (String c s) = true /\
    (String.length ((if neg then "-" else "") ++ String c s) <= 63)%nat /\
    double_of_decimal neg (digits_value 10 digit_val (String c s) 0) 0 = double_of_Z l.
Proof.
  unfold LONG_MIN, LONG_MAX. intros Hl.
  destruct l as [|p|p].
  - exists false, "0"%char, EmptyString. repeat split; simpl; lia.
  - unfold fmt_ld. cbn [Z.to_int NilZero.string_of_int].
    destruct (positive_text p) as (c & s & Ht & Hd).
    pose proof (positive_text_length p 19 ltac:(simpl; lia)) as Hlen.
    pose proof (digits_of_positive p) as Hval.
    rewrite Ht in *. exists false, c, s.
    split; [reflexivity|]. split; [exact Hd|]. split; [simpl in Hlen |- *; lia|].
    rewrite Hval. unfold double_of_decimal, double_of_Z.
    change (0 <=? 0) with true. cbv iota.
    change (10 ^ 0) with 1. rewrite Z.mul_1_r. reflexivity.
  - unfold fmt_ld. cbn [Z.to_int NilZero.string_of_int].
    destruct (positive_text p) as (c & s & Ht & Hd).
    pose proof (positive_text_length p 19 ltac:(simpl; lia)) as Hlen.
    pose proof (digits_of_positive p) as Hval.
    rewrite Ht in *. exists true, c, s.
    split; [reflexivity|]. split; [exact Hd|]. split; [simpl in Hlen |- *; lia|].
    rewrite Hval. unfold double_of_decimal, double_of_Z.
    change (0 <=? 0) with true. cbv iota.
    change (10 ^ 0) with 1. rewrite Z.mul_1_r. reflexivity.
Qed.

(** An unquoted text of plain characters is read up to what follows it. *)
Lemma parse_unquoted_stops (c : ascii) (s i rest : string) (l k : Z) (e : option string) :
  string_forall plain_char (String c s) = true -> ends_value rest = true ->
  (String.length (String c s) <= 4095)%nat ->
  isspace (last_char (String c s)) = false ->
  exists l' k',
    parse_unquoted_string value_delimiters (mkParser i (String c s ++ rest) l k e)
    = Done (String c s) (mkParser i rest l' k' e).
Proof.
  intros Hp Hrest Hlen Hlast.
  unfold parse_unquoted_string.
  unfold bind at 1. unfold bind at 1. unfold input_left at 1. unfold gets.
  cbv beta iota delta [Decoder.current].
  destruct (unquoted_loop_stops (String c s) (String.length (String c s ++ rest)) "" 4095
              i rest l k e Hp Hrest) as (l' & k' & Hu).
  { rewrite length_append. lia. }
  rewrite Hu. exists l', k'.
  cbv beta iota delta [ret].
  change ("" ++ string_take 4095 (String c s)) with (string_take 4095 (String c s)).
  rewrite string_take_all by exact Hlen.
  rewrite (rtrim_unchanged _ Hlast). reflexivity.
Qed.

(** A scalar that the encoder has written is read back by [parse_value],
    which stops behind its text. *)
Lemma parse_value_scalar (v : ToonValue) (t : string) (n : nat) (b : bool) (f : nat)
  (i rest : string) (l k : Z) (e : option string) :
  scalar v = true -> encode_value v n b = Some t -> ends_value rest = true ->
  exists l' k',
    parse_value (S f) (mkParser i (t ++ rest) l k e)
    = Done (PVal (read_back v)) (mkParser i rest l' k' e).
Proof.
  intros Hv Henc Hrest. destruct v as [|boolean|d|s| | |]; try discriminate Hv.
  - injection Henc as <-.
    destruct (parse_unquoted_stops "n" "ull" i rest l k e eq_refl Hrest
                ltac:(simpl; lia) eq_refl) as (l' & k' & Hu).
    exists l', k'. cbn [parse_value].
    change ("null" ++ rest) with (String "n" ("ull" ++ rest)) in *.
    unfold bind at 1. rewrite skip_whitespace_none by reflexivity.
    unfold bind at 1. unfold peek at 1. unfold gets. cbv beta iota delta [Decoder.current].
    change ("n" =? DQUOTE)%char with false.
    change (isdigit "n" || ("n" =? "-")%char) with false.
    change ("n" =? "[")%char with false. cbv beta iota.
    fold value_delimiters. unfold bind at 1. rewrite Hu. reflexivity.
  - injection Henc as <-. destruct boolean.
    + destruct (parse_unquoted_stops "t" "rue" i rest l k e eq_refl Hrest
                  ltac:(simpl; lia) eq_refl) as (l' & k' & Hu).
      exists l', k'. cbn [parse_value].
      change ("true" ++ rest) with (String "t" ("rue" ++ rest)) in *.
      unfold bind at 1. rewrite skip_whitespace_none by reflexivity.
      unfold bind at 1. unfold peek at 1. unfold gets.
      cbv beta iota delta [Decoder.current].
      change ("t" =? DQUOTE)%char with false.
      change (isdigit "t" || ("t" =? "-")%char) with false.
      change ("t" =? "[")%char with false. cbv beta iota.
      fold value_delimiters. unfold bind at 1. rewrite Hu. reflexivity.
    + destruct (parse_unquoted_stops "f" "alse" i rest l k e eq_refl Hrest
                  ltac:(simpl; lia) eq_refl) as (l' & k' & Hu).
      exists l', k'. cbn [parse_value].
      change ("false" ++ rest) with (String "f" ("alse" ++ rest)) in *.
      unfold bind at 1. rewrite skip_whitespace_none by reflexivity.
      unfold bind at 1. unfold peek at 1. unfold gets.
      cbv beta iota delta [Decoder.current].
      change ("f" =? DQUOTE)%char with false.
      change (isdigit "f" || ("f" =? "-")%char) with false.
      change ("f" =? "[")%char with false. cbv beta iota.
      fold value_delimiters. unfold bind at 1. rewrite Hu. reflexivity.
  - simpl in Hv, Henc. unfold format_number in Henc. unfold read_back.
    destruct (double_to_long d) as [z|] eqn:Hz; [|discriminate].
    rewrite Hv in Henc. injection Henc as <-.
    destruct (integer_text z (double_to_long_range d z Hz))
      as (neg & c & s & Ht & Hd & Hlen & Hval).
    rewrite Ht.
    destruct (parse_number_stops neg c s i rest l k e Hd Hrest Hlen) as (l' & k' & Hp).
    exists l', k'. rewrite <- Hval.
    pose proof Hd as Hd'. simpl in Hd'. apply andb_true_iff in Hd' as [Hc _].
    destruct (digit_facts c Hc) as (_ & Hsp & _ & _ & Hq & _).
    cbn [parse_value]. destruct neg.
    + change (("-" ++ String c s) ++ rest) with (String "-" (String c s ++ rest)) in *.
      unfold bind at 1. rewrite skip_whitespace_none by reflexivity.
      unfold bind at 1. unfold peek at 1. unfold gets.
      cbv beta iota delta [Decoder.current].
      change ("-" =? DQUOTE)%char with false.
      change (isdigit "-" || ("-" =? "-")%char) with true. cbv beta iota.
      exact Hp.
    + change (("" ++ String c s) ++ rest) with (String c (s ++ rest)) in *.
      unfold bind at 1. rewrite skip_whitespace_none by exact Hsp.
      unfold bind at 1. unfold peek at 1. unfold gets.
      cbv beta iota delta [Decoder.current].
      rewrite Hq, Hc. cbv beta iota delta [orb].
      exact Hp.
  - simpl in Hv. apply andb_true_iff in Hv as [Hs Hstart].
    simpl in Henc. unfold encode_string, fits in Henc. unfold read_back.
    destruct (needs_quoting plain_char_signed s) eqn:Hq.
    + destruct (Z.ltb_spec (Z.of_nat (String.length (escape_string s))) 4096);
        [|discriminate].
      injection Henc as <-.
      destruct (parse_quoted_string_reads s i rest l k e Hs) as (l' & k' & Hp).
      exists l', k'. cbn [parse_value]. unfold escape_string.
      change (String DQUOTE (escape_chars s ++ String DQUOTE "") ++ rest)
        with (String DQUOTE ((escape_chars s ++ String DQUOTE "") ++ rest)).
      rewrite append_assoc.
      change (String DQUOTE "" ++ rest) with (String DQUOTE rest).
      unfold bind at 1. rewrite skip_whitespace_none by reflexivity.
      unfold bind at 1. unfold peek at 1. unfold gets.
      cbv beta iota delta [Decoder.current].
      change (DQUOTE =? DQUOTE)%char with true. cbv beta iota.
      unfold bind at 1. rewrite Hp.
      rewrite string_take_all; [reflexivity|].
      rewrite length_escape_string in *. pose proof (length_escape_chars s). lia.
    + destruct (Z.ltb_spec (Z.of_nat (String.length s)) 4096); [|discriminate].
      injection Henc as <-. simpl in Hstart.
      destruct (unquoted_facts s Hq) as ((c & s' & -> & Hsp & Hbr) & Hlast & Hkw & Hp & Hn).
      simpl in Hstart. apply andb_true_iff in Hstart as [Hdq Hnum].
      apply negb_true_iff in Hdq. apply negb_true_iff in Hnum.
      destruct (parse_unquoted_stops c s' i rest l k e Hp Hrest ltac:(lia) Hlast)
        as (l' & k' & Hu).
      exists l', k'. cbn [parse_value].
      change (String c s' ++ rest) with (String c (s' ++ rest)) in *.
      unfold bind at 1. rewrite skip_whitespace_none by exact Hsp.
      unfold bind at 1. unfold peek at 1. unfold gets.
      cbv beta iota delta [Decoder.current].
      rewrite Hdq, Hnum, Hbr.
      fold value_delimiters. unfold bind at 1. rewrite Hu.
      cbv beta iota delta [ret]. rewrite Hkw. reflexivity.
Qed.


(** The text of a scalar starts with a character that is not white
    space. *)
Lemma scalar_text_start (v : ToonValue) (t : string) (n : nat) (b : bool) :
  scalar v = true -> encode_value v n b = Some t ->
  exists c t', t = String c t' /\ isspace c = false.
Proof.
  intros Hv Henc. destruct v as [|boolean|d|s| | |]; try discriminate Hv.
  - injection Henc as <-. eexists; eexists; split; reflexivity.
  - injection Henc as <-. destruct boolean; eexists; eexists; split; reflexivity.
  - simpl in Hv, Henc. unfold format_number in Henc.
    destruct (double_to_long d) as [z|] eqn:Hz; [|discriminate].
    rewrite Hv in Henc. injection Henc as <-.
    destruct (integer_text z (double_to_long_range d z Hz))
      as (neg & c & s & Ht & Hd & _).
    rewrite Ht. destruct neg.
    + eexists; eexists; split; reflexivity.
    + simpl in Hd. apply andb_true_iff in Hd as [Hc _].
      destruct (digit_facts c Hc) as (_ & Hsp & _).
      exists c, s. split; [reflexivity|exact Hsp].
  - simpl in Henc. unfold encode_string, fits in Henc.
    destruct (needs_quoting plain_char_signed s) eqn:Hq.
    + destruct (Z.of_nat (String.length (escape_string s)) <? 4096); [|discriminate].
      injection Henc as <-. eexists; eexists; split; reflexivity.
    + destruct (Z.of_nat (String.length s) <? 4096); [|discriminate].
      injection Henc as <-.
      destruct (unquoted_facts s Hq) as ((c & s' & -> & Hsp & _) & _).
      exists c, s'. split; [reflexivity|exact Hsp].
Qed.

(** A text that is empty or starts with a character that is not white
    space. *)
Definition starts_plain (rest : string) : bool :=
  match rest with
  | EmptyString => true
  | String c _ => negb (isspace c)
  end.

(** [skip_whitespace] over one white character before such a text. *)
Lemma skip_whitespace_over (w : ascii) (i rest : string) (l k : Z) (e : option string) :
  isspace w = true -> starts_plain rest = true ->
  exists l' k',
    skip_whitespace (mkParser i (String w rest) l k e)
    = Done tt (mkParser i rest l' k' e).
Proof.
  intros Hw Hrest.
  assert ((w =? NUL)%char = false) as H0.
  { destruct (w =? NUL)%char eqn:Hz; [|reflexivity].
    apply Ascii.eqb_eq in Hz. subst w. discriminate. }
  unfold skip_whitespace. unfold bind at 1. unfold input_left at 1. unfold gets.
  cbv beta iota delta [Decoder.current].
  change (String.length (String w rest)) with (S (String.length rest)).
  cbn [skip_whitespace_loop].
  unfold bind at 1. unfold peek at 1. unfold gets. cbv beta iota delta [Decoder.current].
  rewrite H0, Hw. cbv beta iota delta [negb andb].
  destruct rest as [|c rest].
  - destruct (w =? LF)%char; eexists; eexists; reflexivity.
  - simpl in Hrest. apply negb_true_iff in Hrest.
    destruct (w =? LF)%char;
      cbv beta iota delta [bind modify advance ret with_current with_line with_column
                             Decoder.current Decoder.input Decoder.line Decoder.column
                             Decoder.error];
      cbn [String.length skip_whitespace_loop];
      unfold bind, peek, gets; cbv beta iota delta [Decoder.current];
      rewrite Hrest, andb_false_r; eexists; eexists; reflexivity.
Qed.

(** ** Flat objects *)













Lemma all_vals_read (vs : list ToonValue) :
  all_vals (map PVal vs) = Some vs.
Proof. induction vs as [|v vs IH]; simpl; [reflexivity|]. rewrite IH. reflexivity. Qed.



Lemma obs_equal_read_back (v : ToonValue) :
  scalar v = true -> obs_equal v (read_back v) = true.
Proof.
  destruct v as [|b|d|s| | |]; try discriminate; simpl.
  - reflexivity.
  - intros _. destruct b; reflexivity.
  - destruct (double_to_long d); [|discriminate]. intros H. exact H.
  - intros _. apply String.eqb_refl.
Qed.





(** ** Arrays of scalars *)

(** In an array a string must not hold a colon either: the scan of the
    first line would find it. *)
Definition array_scalar (v : ToonValue) : bool :=
  scalar v && match v with
              | TString s => string_forall no_colon s
              | _ => true
              end.

Lemma count_loop_reads (ds : string) :
  forall (room : nat) (buf i rest : string) (l k : Z) (e : option string),
    string_forall isdigit ds = true -> (String.length ds <= room)%nat ->
    exists l' k',
      count_loop room buf (mkParser i (ds ++ String "]" rest) l k e)
      = Done (buf ++ ds) (mkParser i (String "]" rest) l' k' e).
Proof.
  induction ds as [|c ds IH]; intros room buf i rest l k e Hd Hroom.
  - exists l, k. rewrite append_empty. destruct room; reflexivity.
  - simpl in Hd. apply andb_true_iff in Hd as [Hc Hd].
    destruct (digit_facts c Hc) as (H0 & _).
    destruct room as [|room]; [simpl in Hroom; lia|]. simpl in Hroom.
    change (String c ds ++ String "]" rest) with (String c (ds ++ String "]" rest)).
    destruct (consume_char i (ds ++ String "]" rest) l k e c H0) as (l1 & k1 & Hcons).
    cbn [count_loop].
    unfold bind at 1. unfold peek at 1. unfold gets. cbv beta iota delta [Decoder.current].
    rewrite Hc.
    unfold bind at 1. rewrite Hcons.
    destruct (IH room (push buf c) i rest l1 k1 e Hd ltac:(lia)) as (l' & k' & ->).
    exists l', k'. rewrite push_char by exact H0. rewrite append_assoc. reflexivity.
Qed.

(** The count that the encoder prints is the count that [atoi] reads. *)
Lemma count_text (n : Z) :
  0 <= n < 2 ^ 31 ->
  exists (c : ascii) (s : string),
    fmt_zu n = String c s /\ string_forall isdigit (String c s) = true /\
    (String.length (String c s) <= 31)%nat /\ atoi (String c s) = n.
Proof.
  intros Hn. unfold fmt_zu.
  destruct n as [|p|p]; [| |lia].
  - exists "0"%char, EmptyString. repeat split. simpl; lia.
  - change (N.to_uint (Z.to_N (Zpos p))) with (Pos.to_uint p).
    destruct (positive_text p) as (c & s & Ht & Hd).
    pose proof (positive_text_length p 19) as Hlen.
    pose proof (digits_of_positive p) as Hval.
    rewrite Ht in *. exists c, s.
    split; [reflexivity|]. split; [exact Hd|].
    assert (Zpos p < 2 ^ 31) as Hp by (destruct Hn; assumption).
    split; [specialize (Hlen ltac:(simpl; lia)); simpl in Hlen |- *; lia|].
    pose proof Hd as Hd'. simpl in Hd'. apply andb_true_iff in Hd' as [Hc _].
    destruct (digit_facts c Hc) as (_ & Hsp & Hm & Hplus & _).
    unfold atoi, strtol10. cbn [skip_space]. rewrite Hsp.
    assert (match String c s with
            | String "-" s' => (true, s')
            | String "+" s' => (false, s')
            | _ => (false, String c s)
            end = (false, String c s)) as ->.
    { destruct c as [[] [] [] [] [] [] [] []]; try discriminate; reflexivity. }
    pose proof (span_digits (String c s) "" Hd I) as Hspan.
    rewrite append_empty in Hspan. rewrite Hspan. cbn [fst]. rewrite Hval.
    unfold LONG_MIN, LONG_MAX, to_int.
    rewrite Z.min_r, Z.max_r by lia.
    rewrite Z.mod_small by lia. lia.
Qed.

(** The scan of the first line passes the count and the colon behind the
    bracket. *)
Lemma looks_like_object_count (ds : string) :
  forall (q : ascii) (rest : string),
    string_forall isdigit ds = true ->
    looks_like_object (Some q) (ds ++ String "]" (String ":" rest))
    = looks_like_object (Some ":"%char) rest.
Proof.
  induction ds as [|c ds IH]; intros q rest Hd.
  - reflexivity.
  - simpl in Hd. apply andb_true_iff in Hd as [Hc Hd].
    destruct (digit_facts c Hc) as (H0 & Hsp & _ & _ & _ & Hcolon & _).
    unfold no_colon in Hcolon. apply negb_true_iff in Hcolon.
    assert ((c =? LF)%char = false) as Hlf.
    { destruct (c =? LF)%char eqn:Hz; [|reflexivity].
      apply Ascii.eqb_eq in Hz. subst c. discriminate. }
    change (String c ds ++ String "]" (String ":" rest))
      with (String c (ds ++ String "]" (String ":" rest))).
    cbn [looks_like_object]. rewrite H0, Hlf, Hcolon. cbv beta iota delta [orb].
    apply IH, Hd.
Qed.

(** The text of a scalar of an array holds no colon. *)
Lemma scalar_text_no_colon (v : ToonValue) (t : string) (n : nat) (b : bool) :
  array_scalar v = true -> encode_value v n b = Some t ->
  string_forall no_colon t = true.
Proof.
  intros Hv Henc. unfold array_scalar in Hv. apply andb_true_iff in Hv as [Hv Hn].
  destruct v as [|boolean|d|s| | |]; try discriminate Hv.
  - injection Henc as <-. reflexivity.
  - injection Henc as <-. destruct boolean; reflexivity.
  - simpl in Hv, Henc. unfold format_number in Henc.
    destruct (double_to_long d) as [z|] eqn:Hz; [|discriminate].
    rewrite Hv in Henc. injection Henc as <-.
    destruct (integer_text z (double_to_long_range d z Hz))
      as (neg & c & s & Ht & Hd & _).
    rewrite Ht. destruct neg.
    + change (string_forall no_colon ("-" ++ String c s))
        with (string_forall no_colon (String c s)).
      apply digits_no_colon, Hd.
    + apply digits_no_colon, Hd.
  - simpl in Henc. unfold encode_string, fits in Henc.
    destruct (needs_quoting plain_char_signed s) eqn:Hq.
    + destruct (Z.of_nat (String.length (escape_string s)) <? 4096); [|discriminate].
      injection Henc as <-. unfold escape_string. cbn [string_forall].
      rewrite string_forall_append, (escape_chars_no_colon _ Hn). reflexivity.
    + destruct (Z.of_nat (String.length s) <? 4096); [|discriminate].
      injection Henc as <-. exact Hn.
Qed.

Lemma join_no_colon (es : list ToonValue) (ts : list string) :
  forallb array_scalar es = true ->
  Forall2 (fun e t => encode_value e 0 true = Some t) es ts ->
  string_forall no_colon (join_with "," ts) = true.
Proof.
  intros Hes Hts. revert Hes.
  induction Hts as [|e t es ts Ht Hts IH]; [reflexivity|].
  intros Hes. simpl in Hes. apply andb_true_iff in Hes as [He Hes].
  pose proof (scalar_text_no_colon e t 0 true He Ht) as Hn.
  destruct ts as [|t' ts]; [exact Hn|].
  change (join_with "," (t :: t' :: ts)) with (t ++ "," ++ join_with "," (t' :: ts)).
  rewrite !string_forall_append, Hn, (IH Hes). reflexivity.
Qed.

Lemma join_starts_plain (es : list ToonValue) (ts : list string) :
  forallb array_scalar es = true ->
  Forall2 (fun e t => encode_value e 0 true = Some t) es ts ->
  starts_plain (join_with "," ts) = true.
Proof.
  intros Hes Hts. destruct Hts as [|e t es ts Ht Hts]; [reflexivity|].
  simpl in Hes. apply andb_true_iff in Hes as [He _].
  unfold array_scalar in He. apply andb_true_iff in He as [He _].
  destruct (scalar_text_start e t 0 true He Ht) as (c & t' & -> & Hc).
  destruct ts; simpl; rewrite Hc; reflexivity.
Qed.

Lemma join_length (es : list ToonValue) (ts : list string) :
  forallb array_scalar es = true ->
  Forall2 (fun e t => encode_value e 0 true = Some t) es ts ->
  (length es <= String.length (join_with "," ts))%nat.
Proof.
  intros Hes Hts. revert Hes.
  induction Hts as [|e t es ts Ht Hts IH]; [simpl; lia|].
  intros Hes. simpl in Hes. apply andb_true_iff in Hes as [He Hes].
  unfold array_scalar in He. apply andb_true_iff in He as [He _].
  destruct (scalar_text_start e t 0 true He Ht) as (c & t' & -> & _).
  specialize (IH Hes).
  destruct ts as [|t2 ts].
  - apply Forall2_nil_inv_r in Hts. subst es. simpl. lia.
  - change (join_with "," (String c t' :: t2 :: ts))
      with (String c t' ++ "," ++ join_with "," (t2 :: ts)).
    rewrite !length_append. simpl in *. lia.
Qed.

Lemma skip_whitespace_end (i : string) (l k : Z) (e : option string) :
  skip_whitespace (mkParser i "" l k e) = Done tt (mkParser i "" l k e).
Proof. reflexivity. Qed.

Lemma elements_loop_reads (f : nat) (length_ : Z) (es : list ToonValue) :
  forall (ts : list string) (j : Z) (acc : list pval)
         (i : string) (l k : Z) (e : option string),
    forallb array_scalar es = true ->
    Forall2 (fun e t => encode_value e 0 true = Some t) es ts ->
    0 <= j -> j + Z.of_nat (length es) = length_ -> length_ < 2 ^ 64 ->
    exists l' k',
      elements_loop (parse_value (S f)) (length es) j length_ acc
        (mkParser i (join_with "," ts) l k e)
      = Done (acc ++ map (fun v => PVal (read_back v)) es)%list
             (mkParser i "" l' k' e).
Proof.
  induction es as [|v es IH]; intros ts j acc i l k e Hes Hts Hj Hlen Hmax.
  - apply Forall2_nil_inv_l in Hts. subst ts.
    exists l, k. rewrite app_nil_r. reflexivity.
  - apply Forall2_cons_inv_l in Hts as (t & ts' & Ht & Hts & ->).
    pose proof Hes as Hes'. simpl in Hes'. apply andb_true_iff in Hes' as [Hv Hrest].
    pose proof Hv as Hv'. unfold array_scalar in Hv'.
    apply andb_true_iff in Hv' as [Hsc _].
    destruct (scalar_text_start v t 0 true Hsc Ht) as (c & t' & -> & Hc).
    cbn [length elements_loop].
    destruct ts' as [|t2 ts'].
    + apply Forall2_nil_inv_r in Hts. subst es.
      cbn [join_with].
      unfold bind at 1. rewrite skip_whitespace_none by exact Hc.
      destruct (parse_value_scalar v (String c t') 0 true f i "" l k e Hsc Ht eq_refl)
        as (l1 & k1 & Hpv).
      rewrite append_empty in Hpv.
      unfold bind at 1. rewrite Hpv.
      unfold bind at 1. rewrite skip_whitespace_end.
      unfold bind at 1. unfold peek at 1. unfold gets.
      cbv beta iota delta [Decoder.current].
      change (NUL =? ",")%char with false. rewrite andb_false_r.
      unfold bind at 1. unfold ret at 1.
      exists l1, k1. reflexivity.
    + change (join_with "," (String c t' :: t2 :: ts'))
        with (String c t' ++ String "," (join_with "," (t2 :: ts'))).
      pose proof (join_starts_plain es (t2 :: ts') Hrest Hts) as Hplain.
      assert (es <> []) as Hne.
      { intros ->. apply Forall2_nil_inv_l in Hts. discriminate. }
      assert (0 < Z.of_nat (length es)) as Hpos.
      { destruct es; [contradiction|]. simpl. lia. }
      simpl in Hlen.
      change (String c t' ++ String "," (join_with "," (t2 :: ts')))
        with (String c (t' ++ String "," (join_with "," (t2 :: ts')))) at 1.
      unfold bind at 1. rewrite skip_whitespace_none by exact Hc.
      destruct (parse_value_scalar v (String c t') 0 true f i
                  (String "," (join_with "," (t2 :: ts'))) l k e Hsc Ht eq_refl)
        as (l1 & k1 & Hpv).
      change (String c t' ++ String "," (join_with "," (t2 :: ts')))
        with (String c (t' ++ String "," (join_with "," (t2 :: ts')))) in Hpv.
      unfold bind at 1. rewrite Hpv.
      unfold bind at 1. rewrite skip_whitespace_none by reflexivity.
      unfold bind at 1. unfold peek at 1. unfold gets.
      cbv beta iota delta [Decoder.current].
      change ("," =? ",")%char with true.
      assert ((j <? to_size_t (length_ - 1)) = true) as ->.
      { apply Z.ltb_lt. unfold to_size_t. rewrite Z.mod_small by lia. lia. }
      cbv beta iota delta [andb].
      destruct (consume_char i (join_with "," (t2 :: ts')) l1 k1 e "," eq_refl)
        as (l2 & k2 & Hcons).
      unfold bind at 1. unfold bind at 1. rewrite Hcons.
      unfold ret at 1.
      destruct (IH (t2 :: ts') (j + 1) (acc ++ [PVal (read_back v)])%list i l2 k2 e
                  Hrest Hts ltac:(lia) ltac:(lia) Hmax) as (l' & k' & ->).
      exists l', k'. rewrite <- app_assoc. reflexivity.
Qed.

(** What [encode_array] writes for elements that are all scalars. *)
Lemma encode_array_text (elements : list ToonValue) (text : string) :
  forallb array_scalar elements = true ->
  toon_encode (TArray elements) 0 = Some text ->
  exists ts,
    Forall2 (fun e t => encode_value e 0 true = Some t) elements ts /\
    text = "[" ++ fmt_zu (Z.of_nat (length elements)) ++ "]: " ++ join_with "," ts /\
    Z.of_nat (length elements) < 2 ^ 31.
Proof.
  intros Hes. unfold toon_encode. cbn [encode_value]. unfold encode_array.
  assert (forallb (fun e => negb (is_container e)) elements = true) as ->.
  { clear -Hes. induction elements as [|v es IH]; [reflexivity|].
    simpl in Hes. apply andb_true_iff in Hes as [Hv Hes].
    simpl. rewrite (IH Hes), andb_true_r.
    unfold array_scalar in Hv. apply andb_true_iff in Hv as [Hv _].
    destruct v; try discriminate; reflexivity. }
  destruct (mapM (fun e => encode_value e 0 true) elements) as [ts|] eqn:Hts;
    [|discriminate].
  apply mapM_Some in Hts. cbn [mbind option_bind]. unfold fits.
  match goal with
  | |- (if ?b then _ else _) = _ -> _ => destruct b eqn:Hfit; [|discriminate]
  end.
  intros [= <-]. exists ts. split; [exact Hts|]. split; [reflexivity|].
  pose proof (join_length elements ts Hes Hts) as Hlen.
  apply Z.ltb_lt in Hfit. rewrite !length_append in Hfit. lia.
Qed.

Lemma make_array_read (es : list ToonValue) :
  make_array (map (fun v => PVal (read_back v)) es) = PVal (TArray (map read_back es)).
Proof.
  unfold make_array.
  rewrite <- (map_map read_back PVal), all_vals_read. reflexivity.
Qed.

Lemma scalar_array_read (elements : list ToonValue) (text : string) :
  forallb array_scalar elements = true ->
  toon_encode (TArray elements) 0 = Some text ->
  toon_decode text = Ok (TArray (map read_back elements)).
Proof.
  intros Hes Henc.
  destruct (encode_array_text elements text Hes Henc) as (ts & Hts & -> & Hlen).
  destruct (count_text (Z.of_nat (length elements)) ltac:(lia))
    as (c & ds & Hcount & Hd & Hdlen & Hatoi).
  rewrite Hcount.
  set (body := join_with "," ts).
  pose proof (join_no_colon elements ts Hes Hts) as Hnc. fold body in Hnc.
  pose proof (join_starts_plain elements ts Hes Hts) as Hplain. fold body in Hplain.
  assert ("[" ++ String c ds ++ "]: " ++ body
          = String "[" (String c ds ++ String "]" (String ":" (String " " body))))
    as -> by reflexivity.
  set (tail := String c ds ++ String "]" (String ":" (String " " body))).
  unfold toon_decode, toon_decode_run.
  unfold bind at 1. rewrite skip_whitespace_none by reflexivity.
  unfold bind at 1. unfold get at 1.
  rewrite char_before_start. cbv beta iota delta [Decoder.current].
  cbn [looks_like_object].
  change ("[" =? NUL)%char with false. change ("[" =? LF)%char with false.
  change ("[" =? ":")%char with false. cbv beta iota delta [orb].
  subst tail. rewrite (looks_like_object_count (String c ds) "[" (String " " body) Hd).
  rewrite looks_like_object_none by exact Hnc.
  change (String.length (String "[" (String c ds ++ String "]"
            (String ":" (String " " body)))))
    with (S (String.length (String c ds ++ String "]"
            (String ":" (String " " body))))).
  set (f := String.length (String c ds ++ String "]" (String ":" (String " " body)))).
  remember (S f) as g eqn:Hg.
  cbn [parse_value].
  unfold bind at 1. rewrite skip_whitespace_none by reflexivity.
  unfold bind at 1. unfold peek at 1. unfold gets. cbv beta iota delta [Decoder.current].
  change ("[" =? DQUOTE)%char with false.
  change (isdigit "[" || ("[" =? "-")%char) with false.
  change ("[" =? "[")%char with true. cbv beta iota.
  unfold bind at 1. cbv beta iota delta [array_lookahead Decoder.current].
  rewrite (span_digits (String c ds) (String "]" (String ":" (String " " body))) Hd
             eq_refl).
  cbv beta iota delta [snd]. change ("]" =? ",")%char with false. cbv beta iota.
  unfold parse_simple_array.
  destruct (consume_char (String "[" (String c ds ++ String "]"
                           (String ":" (String " " body))))
              (String c ds ++ String "]" (String ":" (String " " body))) 1 0 None "["
              eq_refl) as (l1 & k1 & Hc1).
  unfold bind at 1. rewrite Hc1.
  change ("[" =? "[")%char with true. cbv beta iota delta [negb].
  destruct (count_loop_reads (String c ds) 31 ""
              (String "[" (String c ds ++ String "]" (String ":" (String " " body))))
              (String ":" (String " " body)) l1 k1 None Hd Hdlen) as (l2 & k2 & Hcl).
  unfold bind at 1. rewrite Hcl.
  change ("" ++ String c ds) with (String c ds). rewrite Hatoi.
  destruct (consume_char (String "[" (String c ds ++ String "]"
                           (String ":" (String " " body))))
              (String ":" (String " " body)) l2 k2 None "]" eq_refl)
    as (l3 & k3 & Hc2).
  unfold bind at 1. rewrite Hc2.
  change ("]" =? "]")%char with true. cbv beta iota delta [negb].
  destruct (consume_char (String "[" (String c ds ++ String "]"
                           (String ":" (String " " body))))
              (String " " body) l3 k3 None ":" eq_refl) as (l4 & k4 & Hc3).
  unfold bind at 1. rewrite Hc3.
  change (":" =? ":")%char with true. cbv beta iota delta [negb].
  destruct (skip_whitespace_over " " (String "[" (String c ds ++ String "]"
                           (String ":" (String " " body))))
              body l4 k4 None eq_refl Hplain) as (l5 & k5 & Hsk).
  unfold bind at 1. rewrite Hsk.
  assert (to_size_t (Z.of_nat (length elements)) = Z.of_nat (length elements)) as ->.
  { unfold to_size_t. rewrite Z.mod_small by lia. reflexivity. }
  rewrite Nat2Z.id, Hg.
  destruct (elements_loop_reads f (Z.of_nat (length elements)) elements ts 0 []
              (String "[" (String c ds ++ String "]" (String ":" (String " " body))))
              l5 k5 None Hes Hts ltac:(lia) ltac:(lia) ltac:(lia)) as (l' & k' & Hel).
  fold body in Hel.
  unfold bind at 1. rewrite Hel. cbv beta iota delta [ret Decoder.error].
  change ([] ++ ?x)%list with x.
  rewrite make_array_read. reflexivity.
Qed.

Lemma obs_equal_read_elements (elements : list ToonValue) :
  forallb array_scalar elements = true ->
  obs_equal (TArray elements) (TArray (map read_back elements)) = true.
Proof.
  intros Hes. cbn [obs_equal].
  induction elements as [|v es IH]; [reflexivity|].
  simpl in Hes. apply andb_true_iff in Hes as [Hv Hes].
  unfold array_scalar in Hv. apply andb_true_iff in Hv as [Hv _].
  cbn [map]. rewrite (obs_equal_read_back v Hv), (IH Hes). reflexivity.
Qed.

(** X27. An array of scalars comes back from the round trip through
    [toon_encode] and [toon_decode] when none of its strings holds a colon;
    the empty array is among them. The elements and their order stay, a
    string may hold a comma, and a number comes back as the double of its
    integer value, which compares equal to it. An array with a string that
    holds a colon does not come back: its text is read as an object with the
    bracketed count as the key. *)
Theorem scalar_array_round_trip :
  (forall (elements : list ToonValue) (text : string),
      forallb array_scalar elements = true ->
      toon_encode (TArray elements) 0 = Some text ->
      toon_decode text = Ok (TArray (map read_back elements)) /\
      obs_equal (TArray elements) (TArray (map read_back elements)) = true) /\
  (toon_encode (TArray [TString "a:b"]) 0 = Some ("[1]: " ++ escape_string "a:b") /\
   toon_decode ("[1]: " ++ escape_string "a:b") = Ok (TObject [("[1]", TString "a:b")])).
Proof.
  split; [|repeat split; vm_compute; reflexivity].
  intros elements text Hes Henc. split.
  - apply scalar_array_read; assumption.
  - apply obs_equal_read_elements, Hes.
Qed.

(** X27 at an array of six elements, and at the empty array. *)
Lemma scalar_array_round_trip_witness :
  (toon_decode ("[6]: 1,x y,null,false," ++ escape_string "" ++ ","
                ++ escape_string "a,b")
   = Ok (TArray (map read_back [num 1; TString "x y"; TNull; TBoolean false;
                                TString ""; TString "a,b"])) /\
   obs_equal
     (TArray [num 1; TString "x y"; TNull; TBoolean false; TString ""; TString "a,b"])
     (TArray (map read_back [num 1; TString "x y"; TNull; TBoolean false;
                             TString ""; TString "a,b"])) = true) /\
  (toon_decode "[0]: " = Ok (TArray (map read_back [])) /\
   obs_equal (TArray []) (TArray (map read_back [])) = true).
Proof.
  split.
  - apply (proj1 scalar_array_round_trip
             [num 1; TString "x y"; TNull; TBoolean false; TString ""; TString "a,b"]).
    + vm_compute; reflexivity.
    + vm_compute; reflexivity.
  - apply (proj1 scalar_array_round_trip []).
    + reflexivity.
    + vm_compute; reflexivity.
Defined.

End FlatProperties.

(** ** Blank texts *)

Module BlankProperties.
Import StringProperties.

Lemma skip_whitespace_loop_blank (s : string) :
  forall (fuel : nat) (i : string) (l k : Z) (e : option string),
    string_forall isspace s = true -> (String.length s <= fuel)%nat ->
    exists l' k',
      Decoder.skip_whitespace_loop fuel (Decoder.mkParser i s l k e)
      = Done tt (Decoder.mkParser i "" l' k' e).
Proof.
  induction s as [|c s IH]; intros fuel i l k e Hs Hfuel.
  - exists l, k. destruct fuel; reflexivity.
  - simpl in Hs. apply andb_true_iff in Hs as [Hc Hs].
    destruct fuel as [|fuel]; [simpl in Hfuel; lia|]. simpl in Hfuel.
    assert ((c =? NUL)%char = false) as H0.
    { destruct (c =? NUL)%char eqn:Hz; [|reflexivity].
      apply Ascii.eqb_eq in Hz. subst c. discriminate. }
    cbn [Decoder.skip_whitespace_loop].
    unfold bind at 1. unfold Decoder.peek at 1. unfold gets.
    cbv beta iota delta [Decoder.current]. rewrite H0, Hc.
    cbv beta iota delta [negb andb].
    destruct (c =? LF)%char;
      cbv beta iota delta [bind modify ret Decoder.advance Decoder.with_current
                             Decoder.with_line Decoder.with_column Decoder.current
                             Decoder.input Decoder.line Decoder.column Decoder.error];
      apply IH; try assumption; lia.
Qed.

Lemma skip_json_whitespace_loop_blank (s : string) :
  forall (fuel : nat) (j : string) (e : option string),
    string_forall isspace s = true -> (String.length s <= fuel)%nat ->
    Json.skip_json_whitespace_loop fuel (Json.mkJsonParser j s e)
    = Done tt (Json.mkJsonParser j "" e).
Proof.
  induction s as [|c s IH]; intros fuel j e Hs Hfuel.
  - destruct fuel; reflexivity.
  - simpl in Hs. apply andb_true_iff in Hs as [Hc Hs].
    destruct fuel as [|fuel]; [simpl in Hfuel; lia|]. simpl in Hfuel.
    assert ((c =? NUL)%char = false) as H0.
    { destruct (c =? NUL)%char eqn:Hz; [|reflexivity].
      apply Ascii.eqb_eq in Hz. subst c. discriminate. }
    cbn [Json.skip_json_whitespace_loop].
    unfold bind at 1. unfold Json.json_peek at 1. unfold gets.
    cbv beta iota delta [Json.current]. rewrite H0, Hc.
    cbv beta iota delta [negb andb bind modify Json.json_advance Json.current
                           Json.json Json.error].
    apply IH; [assumption|lia].
Qed.

(** X18. A text that is empty or holds only white space is no error for
    [toon_decode], which returns the empty string for it, while
    [json_to_toon] rejects it. *)
Theorem blank_text (s : string) :
  string_forall isspace s = true ->
  Decoder.toon_decode s = Ok (TString "") /\
  Json.json_to_toon s = Err "Unexpected character".
Proof.
  intros Hs. split.
  - unfold Decoder.toon_decode, Decoder.toon_decode_run.
    unfold Decoder.skip_whitespace at 1.
    unfold bind at 1. unfold bind at 1. unfold Decoder.input_left at 1. unfold gets at 1.
    cbv beta iota delta [Decoder.current].
    destruct (skip_whitespace_loop_blank s (String.length s) s 1 0 None Hs
                ltac:(lia)) as (l' & k' & ->).
    unfold bind at 1. unfold get at 1. cbv beta iota delta [Decoder.current].
    cbn [Decoder.looks_like_object]. cbv beta iota.
    reflexivity.
  - unfold Json.json_to_toon. cbn [Json.parse_json_value].
    unfold Json.skip_json_whitespace at 1.
    unfold bind at 1. unfold bind at 1. unfold Json.json_input_left at 1.
    unfold gets at 1. cbv beta iota delta [Json.current].
    rewrite skip_json_whitespace_loop_blank by (try assumption; lia).
    reflexivity.
Qed.

(** X18 for a text of a space, a tab and a line feed. *)
Lemma blank_text_witness :
  Decoder.toon_decode (String " " (String TAB (String LF ""))) = Ok (TString "") /\
  Json.json_to_toon (String " " (String TAB (String LF ""))) = Err "Unexpected character".
Proof. apply blank_text. reflexivity. Defined.

End BlankProperties.

(** ** The commands *)

Module CommandProperties.
Import Memory Commands.

(** [toon_path_set] on a document that is null: there is nothing to set
    a value in. *)
Lemma path_parse_cases (path_str : string) :
  Path.path_parse path_str = Undefined \/ exists r, Path.path_parse path_str = Ok r.
Proof.
  unfold Path.path_parse.
  destruct path_str as [|c p]; [right; eexists; reflexivity|].
  destruct c as [[] [] [] [] [] [] [] []]; try (right; eexists; reflexivity).
  destruct (_ <? _)%nat; [left; reflexivity|right; eexists; reflexivity].
Qed.

Lemma toon_path_set_null (path_str : string) (value : ToonValue) :
  Path.path_parse path_str <> Undefined ->
  Path.toon_path_set TNull path_str value = Ok (-1, TNull).
Proof.
  intros Hp. unfold Path.toon_path_set, Path.change_at_path.
  destruct (streq path_str "$"); [reflexivity|].
  destruct (path_parse_cases path_str) as [H|[[path|] ->]]; [contradiction| |reflexivity].
  destruct (last path) as [last_segment|] eqn:Hlast; [|reflexivity].
  destruct path as [|s path]; [discriminate|].
  destruct path as [|s' path].
  - simpl. unfold Path.set_in_parent.
    destruct (Path.first_char last_segment =? "[")%char; reflexivity.
  - simpl. unfold Path.path_navigate. simpl.
    destruct (Path.first_char s =? "[")%char; reflexivity.
Qed.

(** X22. TOON.SET with the path [$] stores the decoded value under the key,
    whether the key was empty or held a document, and TOON.GET of the key
    then sends the text that [toon_encode] writes for that value. *)
Theorem set_then_get_document (db : database) (key text : string) (value : ToonValue) :
  db !! key <> Some OtherType ->
  Decoder.toon_decode (c_str text) = Ok value ->
  let db' := <[key := ToonDocumentValue (mkToonDocument value)]> db in
  ToonSet_RedisCommand ["TOON.SET"; key; "$"; text] db
  = Ok (mkOutcome db' (ReplyWithSimpleString "OK") true) /\
  ToonGet_RedisCommand ["TOON.GET"; key] db'
  = match Encoder.toon_encode value 0 with
    | Some encoded => Ok (mkOutcome db' (ReplyWithStringBuffer encoded) false)
    | None => Undefined
    end.
Proof.
  intros Hkey Hdec db'. split.
  - unfold ToonSet_RedisCommand. rewrite Hdec.
    change (c_str "$") with "$".
    destruct (db !! key) as [[doc|]|] eqn:Hk; try contradiction.
    + reflexivity.
    + cbv beta iota zeta delta [set_value_at_path].
      change (streq "$" "$") with true. cbv iota.
      rewrite insert_insert_eq. reflexivity.
  - subst db'. cbv beta iota zeta delta [ToonGet_RedisCommand read_command].
    rewrite lookup_insert_eq. change (streq "$" "$") with true. cbv iota.
    simpl root. destruct (Encoder.toon_encode value 0); reflexivity.
Qed.


(** X22 on the text [a: 1] stored under the key [k] of an empty database. *)
Lemma set_then_get_document_witness :
  ToonSet_RedisCommand ["TOON.SET"; "k"; "$"; "a: 1"] ∅
  = Ok (mkOutcome (<["k" := ToonDocumentValue (mkToonDocument (TObject [("a", num 1)]))]> ∅)
                  (ReplyWithSimpleString "OK") true) /\
  ToonGet_RedisCommand ["TOON.GET"; "k"]
    (<["k" := ToonDocumentValue (mkToonDocument (TObject [("a", num 1)]))]> ∅)
  = match Encoder.toon_encode (TObject [("a", num 1)]) 0 with
    | Some encoded =>
        Ok (mkOutcome
              (<["k" := ToonDocumentValue (mkToonDocument (TObject [("a", num 1)]))]> ∅)
              (ReplyWithStringBuffer encoded) false)
    | None => Undefined
    end.
Proof.
  apply (set_then_get_document ∅ "k" "a: 1" (TObject [("a", num 1)])).
  - rewrite lookup_empty. discriminate.
  - vm_compute; reflexivity.
Defined.

(** X23. TOON.SET with a path other than [$] on a key that does not exist
    fails with [ERR invalid path], is not handed on to the replicas, and yet
    leaves the key behind: the document is made and bound to the key before
    the path is looked at, and it stays there with null as its root. A
    TOON.TYPE of the key then answers [null] where it answered nil
    before. *)
Theorem failed_set_leaves_document (db : database) (key path text : string)
  (value : ToonValue) :
  db !! key = None ->
  Decoder.toon_decode (c_str text) = Ok value ->
  c_str path <> "$" ->
  Path.path_parse (c_str path) <> Undefined ->
  let db' := <[key := ToonDocumentValue (mkToonDocument TNull)]> db in
  ToonSet_RedisCommand ["TOON.SET"; key; path; text] db
  = Ok (mkOutcome db' (ReplyWithError "ERR invalid path") false) /\
  ToonType_RedisCommand ["TOON.TYPE"; key; "$"] db
  = Ok (mkOutcome db ReplyWithNull false) /\
  ToonType_RedisCommand ["TOON.TYPE"; key; "$"] db'
  = Ok (mkOutcome db' (ReplyWithSimpleString "null") false).
Proof.
  intros Hkey Hdec Hroot Hparse db'. split; [|split].
  - unfold ToonSet_RedisCommand. rewrite Hdec, Hkey.
    cbv beta iota zeta delta [set_value_at_path].
    destruct (streq (c_str path) "$") eqn:Hs.
    { apply String.eqb_eq in Hs. contradiction. }
    unfold toon_document_create. simpl root.
    rewrite (toon_path_set_null _ _ Hparse). reflexivity.
  - cbv beta iota zeta delta [ToonType_RedisCommand read_command].
    rewrite Hkey. reflexivity.
  - subst db'. cbv beta iota zeta delta [ToonType_RedisCommand read_command].
    rewrite lookup_insert_eq. reflexivity.
Qed.

(** X23 with the path [$.a] on an empty database. *)
Lemma failed_set_leaves_document_witness :
  ToonSet_RedisCommand ["TOON.SET"; "k"; "$.a"; "1"] ∅
  = Ok (mkOutcome (<["k" := ToonDocumentValue (mkToonDocument TNull)]> ∅)
                  (ReplyWithError "ERR invalid path") false) /\
  ToonType_RedisCommand ["TOON.TYPE"; "k"; "$"] ∅
  = Ok (mkOutcome ∅ ReplyWithNull false) /\
  ToonType_RedisCommand ["TOON.TYPE"; "k"; "$"]
    (<["k" := ToonDocumentValue (mkToonDocument TNull)]> ∅)
  = Ok (mkOutcome (<["k" := ToonDocumentValue (mkToonDocument TNull)]> ∅)
                  (ReplyWithSimpleString "null") false).
Proof.
  apply (failed_set_leaves_document ∅ "k" "$.a" "1" (num 1)).
  - apply lookup_empty.
  - vm_compute; reflexivity.
  - discriminate.
  - discriminate.
Defined.

Lemma read_command_keeps (empty : reply) (answer : ToonDocument -> string -> result reply)
  (with_default_path : bool) (argv : list string) (db : database) (o : outcome) :
  read_command empty answer with_default_path argv db = Ok o ->
  db_after o = db /\ replicated o = false.
Proof.
  unfold read_command.
  assert (forall key path,
            match db !! key with
            | Some (ToonDocumentValue doc) =>
                match answer doc path with
                | Ok r => Ok (mkOutcome db r false)
                | Err e => Err e
                | Undefined => Undefined
                | Exhausted => Exhausted
                end
            | Some OtherType =>
                Ok (mkOutcome db (ReplyWithError REDISMODULE_ERRORMSG_WRONGTYPE) false)
            | None => Ok (mkOutcome db empty false)
            end = Ok o -> db_after o = db /\ replicated o = false) as Hrun.
  { intros key path. destruct (db !! key) as [[doc|]|].
    - destruct (answer doc path); try discriminate. intros [= <-]. split; reflexivity.
    - intros [= <-]. split; reflexivity.
    - intros [= <-]. split; reflexivity. }
  destruct argv as [|a0 [|key [|path [|x argv]]]]; try (intros [= <-]; split; reflexivity).
  - destruct with_default_path; [apply Hrun|]. intros [= <-]. split; reflexivity.
  - apply Hrun.
Qed.

(** X24. The commands that [RedisModule_OnLoad] registers with the flag
    [readonly], which are TOON.GET, TOON.TYPE, TOON.TOJSON and
    TOON.TOKENCOUNT, leave the database as it is and are not handed on to the
    replicas, whatever their arguments are. *)
Theorem readonly_commands_keep_database
  (name flags : string) (handler : list string -> database -> result outcome)
  (argv : list string) (db : database) (o : outcome) :
  In (name, handler, flags) registered_commands ->
  flags = "readonly" ->
  handler argv db = Ok o ->
  db_after o = db /\ replicated o = false.
Proof.
  intros Hin ->. simpl in Hin.
  destruct Hin as [H|[H|[H|[H|[H|[H|[H|[]]]]]]]]; injection H as <- <-;
    try discriminate; apply read_command_keeps.
Qed.

(** X24 for TOON.GET of a key that is not there. *)
Lemma readonly_commands_keep_database_witness :
  db_after (mkOutcome (∅ : database) ReplyWithNull false) = ∅ /\
  replicated (mkOutcome (∅ : database) ReplyWithNull false) = false.
Proof.
  apply (readonly_commands_keep_database "toon.get" "readonly" ToonGet_RedisCommand
           ["TOON.GET"; "k"] ∅).
  - right. left. reflexivity.
  - reflexivity.
  - reflexivity.
Defined.


(** Every key that holds something still does, and the values of other
    types are the same. *)
Definition keeps_keys (db db' : database) : Prop :=
  forall k : string,
    (is_Some (db !! k) -> is_Some (db' !! k)) /\
    (db !! k = Some OtherType -> db' !! k = Some OtherType).

Lemma keeps_keys_refl (db : database) : keeps_keys db db.
Proof. intros k. split; intros H; exact H. Qed.

Lemma keeps_keys_insert (db : database) (key : string) (v : key_value) :
  db !! key <> Some OtherType -> keeps_keys db (<[key := v]> db).
Proof.
  intros Hkey k. destruct (decide (key = k)) as [<-|Hne].
  - rewrite lookup_insert_eq. split; [intros _; eexists; reflexivity|].
    intros H. contradiction.
  - rewrite lookup_insert_ne by exact Hne. split; intros H; exact H.
Qed.

Lemma keeps_keys_trans (a b c : database) :
  keeps_keys a b -> keeps_keys b c -> keeps_keys a c.
Proof.
  intros Hab Hbc k. destruct (Hab k) as [H1 H2]. destruct (Hbc k) as [H3 H4].
  split; intros H; auto.
Qed.

Lemma set_value_at_path_keeps (db : database) (key path : string) (doc : ToonDocument)
  (value : ToonValue) (o : outcome) :
  db !! key <> Some OtherType ->
  set_value_at_path db key path doc value = Ok o -> keeps_keys db (db_after o).
Proof.
  intros Hkey. unfold set_value_at_path.
  destruct (streq path "$").
  - intros [= <-]. apply keeps_keys_insert, Hkey.
  - destruct (Path.toon_path_set (root doc) path value) as [[z root']| | |];
      try discriminate.
    destruct z; intros [= <-]; simpl;
      [apply keeps_keys_insert, Hkey|apply keeps_keys_refl|apply keeps_keys_refl].
Qed.

(** X25. No command of the module removes a key or touches a value of
    another type: after every registered command, whatever its arguments
    are, every key that held something still does, and every key that held a
    value of another type holds the same. In particular TOON.DEL cannot remove
    the document itself. *)
Theorem commands_keep_keys
  (name flags : string) (handler : list string -> database -> result outcome)
  (argv : list string) (db : database) (o : outcome) :
  In (name, handler, flags) registered_commands ->
  handler argv db = Ok o ->
  keeps_keys db (db_after o).
Proof.
  intros Hin. simpl in Hin.
  destruct Hin as [H|[H|[H|[H|[H|[H|[H|[]]]]]]]]; injection H as <- <- <-;
    try (intros Hr; destruct (read_command_keeps _ _ _ _ _ _ Hr) as [-> _];
         apply keeps_keys_refl).
  - unfold ToonSet_RedisCommand.
    destruct argv as [|a0 [|key [|path [|text [|x argv]]]]];
      try (intros [= <-]; apply keeps_keys_refl).
    destruct (Decoder.toon_decode (c_str text)) as [value|e| |]; try discriminate;
      [|intros [= <-]; apply keeps_keys_refl].
    destruct (db !! key) as [[doc|]|] eqn:Hk.
    + apply set_value_at_path_keeps. rewrite Hk. discriminate.
    + intros [= <-]. apply keeps_keys_refl.
    + intros Hs. apply (keeps_keys_trans _ (<[key := ToonDocumentValue toon_document_create]> db)).
      * apply keeps_keys_insert. rewrite Hk. discriminate.
      * eapply set_value_at_path_keeps; [|exact Hs].
        rewrite lookup_insert_eq. discriminate.
  - unfold ToonDel_RedisCommand.
    destruct argv as [|a0 [|key [|path [|x argv]]]];
      try (intros [= <-]; apply keeps_keys_refl).
    destruct (db !! key) as [[doc|]|] eqn:Hk;
      try (intros [= <-]; apply keeps_keys_refl).
    destruct (Path.toon_path_delete (root doc) (c_str path)) as [[z root']| | |];
      try discriminate.
    destruct z; intros [= <-]; simpl; try apply keeps_keys_refl.
    apply keeps_keys_insert. rewrite Hk. discriminate.
  - unfold ToonFromJson_RedisCommand.
    destruct argv as [|a0 [|key [|json_str [|x argv]]]];
      try (intros [= <-]; apply keeps_keys_refl).
    destruct (Json.json_to_toon (c_str json_str)) as [value|e| |]; try discriminate;
      [|intros [= <-]; apply keeps_keys_refl].
    destruct (db !! key) as [[doc|]|] eqn:Hk; intros [= <-]; simpl;
      try apply keeps_keys_refl; apply keeps_keys_insert; rewrite Hk; discriminate.
Qed.

(** X25 for a TOON.DEL with the path [$]. *)
Lemma commands_keep_keys_witness :
  keeps_keys (<["k" := ToonDocumentValue (mkToonDocument TNull)]> ∅)
    (db_after (mkOutcome (<["k" := ToonDocumentValue (mkToonDocument TNull)]> ∅)
                         (ReplyWithLongLong 0) false)).
Proof.
  apply (commands_keep_keys "toon.del" "write" ToonDel_RedisCommand
           ["TOON.DEL"; "k"; "$"]
           (<["k" := ToonDocumentValue (mkToonDocument TNull)]> ∅)).
  - right. right. left. reflexivity.
  - vm_compute. reflexivity.
Defined.

End CommandProperties.
